(** * SPTP client orchestration (ptp/sptp/client/sptp.go)

    A shallow embedding of the orchestrator of the simple unicast PTP
    client: initialisation of clock and servo, the two inbound listeners,
    the per-tick fan-out, result aggregation, best-master selection and
    clock discipline, and the main timer loop.

    Collaborators that live in other files of the repository (servo,
    clock, backoff, BMCA, the per-peer exchange) are interfaces here, as
    they are for the orchestrator itself: type classes for the Go
    interfaces and struct methods, oracles for the outcome of system and
    network calls.  Calls to collaborators are recorded in a trace. *)

From Stdlib Require Import ZArith Floats Uint63 Lia.
From stdpp Require Import gmap strings pretty list fin_maps.

Local Open Scope string_scope.
Local Open Scope list_scope.
Local Open Scope Z_scope.

(** ** Machine numbers *)

(** Go [int64] arithmetic wraps around in two's complement. *)
Definition wrap64 (z : Z) : Z := (z + 2 ^ 63) mod 2 ^ 64 - 2 ^ 63.

(** Conversion [uint64(x)] of an [int64]. *)
Definition uint64 (z : Z) : Z := z mod 2 ^ 64.

Definition min_int64 : Z := - 2 ^ 63.
Definition max_int64 : Z := 2 ^ 63 - 1.

Definition int64_mul (a b : Z) : Z := wrap64 (a * b).

(** [float64(n)] for an integer [n] of at most 64 bits: rounding to nearest
    even, which is what [of_uint63] does on the magnitude. *)
Definition float64_of_int (z : Z) : float :=
  if z =? min_int64 then (-9223372036854775808)%float
  else if z <? 0 then PrimFloat.opp (PrimFloat.of_uint63 (Uint63.of_Z (- z)))
  else PrimFloat.of_uint63 (Uint63.of_Z z).

(** [int64(f)] for a [float64]: truncation towards zero; out of range (and
    for NaN) the amd64 conversion yields the smallest [int64]. *)
Definition int64_of_float64 (f : float) : Z :=
  match Prim2SF f with
  | S754_zero _ => 0
  | S754_finite s m e =>
      let a := if 0 <=? e then Z.pos m * 2 ^ e else Z.pos m / 2 ^ (- e) in
      let v := if s then - a else a in
      if (min_int64 <=? v) && (v <=? max_int64) then v else min_int64
  | _ => min_int64
  end.

(** ** Time (package time) *)

(** A [time.Time] is an instant, counted in nanoseconds from the zero
    [Time]; a [time.Duration] is an [int64] count of nanoseconds. *)
Abbreviation time := Z (only parsing).
Abbreviation Duration := Z (only parsing).

Definition IsZero (t : time) : bool := t =? 0.

(** [t.Sub(u)] saturates at the largest and smallest [Duration]. *)
Definition Sub (t u : time) : Duration :=
  Z.max min_int64 (Z.min max_int64 (t - u)).

(** Nanoseconds between the zero [Time] and the Unix epoch. *)
Definition unixEpoch : Z := 62135596800 * 1000000000.

Definition UnixNano (t : time) : Z := wrap64 (t - unixEpoch).

Definition Second : Duration := 1000000000.

(** [d.Seconds()]: integer division and remainder truncate towards zero. *)
Definition Seconds (d : Duration) : float :=
  PrimFloat.add (float64_of_int (Z.quot d Second))
                (PrimFloat.div (float64_of_int (Z.rem d Second)) 1e9%float).

(** ** Errors *)

(** [errBackoff] is the sentinel of a suppressed peer; any other error is
    made by [errors.New]/[fmt.Errorf], possibly wrapping another one. *)
Inductive error : Type :=
| errBackoff
| errNew (msg : string)
| errWrap (msg : string) (inner : error).

(** [errors.Is(err, errBackoff)] walks the chain of wrapped errors. *)
Fixpoint errors_Is_errBackoff (err : error) : bool :=
  match err with
  | errBackoff => true
  | errNew _ => false
  | errWrap _ inner => errors_Is_errBackoff inner
  end.

(** ** Protocol and measurement data *)

Abbreviation ClockIdentity := Z (only parsing).

Module ptp.
(** The announce dataset of a peer; the orchestrator reads only the
    grandmaster identity, the comparison attributes are for BMCA. *)
Record Announce : Type := mkAnnounce {
  GrandmasterIdentity : ClockIdentity;
  attributes : list Z
}.
End ptp.

Module servo.
Inductive State : Type := StateInit | StateJump | StateLocked | StateFilter.

(** Modelled from the spec: the servo configuration holds a maximum
    frequency magnitude and the first-step threshold; [init] writes the
    two first-step fields. *)
Record ServoConfig : Type := mkServoConfig {
  MaxFreq : float;
  FirstUpdate : bool;
  FirstStepThreshold : Z
}.
End servo.

Record MeasurementResult : Type := mkMeasurementResult {
  Announce : ptp.Announce;
  Offset : Duration;
  Delay : Duration;
  Timestamp : time
}.

Record RunResult : Type := mkRunResult {
  Server : string;
  Measurement : option MeasurementResult;
  Error : option error
}.

(** What [runResultToStats] is given; the stats sink receives it whole. *)
Record Stats : Type := mkStats {
  statsAddr : string;
  statsResult : RunResult;
  statsPriority : Z;
  statsSelected : bool
}.

Definition runResultToStats (addr : string) (res : RunResult) (prio : Z)
    (selected : bool) : Stats :=
  mkStats addr res prio selected.

(** A packet handed to a session: payload and receive timestamp (the zero
    [Time] on the general port). *)
Record inPacket : Type := mkInPacket {
  data : list Z;
  ts : time
}.

(** A session; the orchestrator touches only its inbound queue. *)
Record Client : Type := mkClient {
  clientAddr : string;
  inChan : list inPacket
}.

(** ** Configuration *)

(** Modelled from the spec: the backoff parameters of the configuration;
    the orchestrator only hands them to [newBackoff]. *)
Record BackoffConfig : Type := mkBackoffConfig {
  backoffParams : list Z
}.

(** The fields of [Config] the orchestrator reads. *)
Record Config : Type := mkConfig {
  Iface : string;
  Timestamping : string;
  Interval : Duration;
  ExchangeTimeout : Duration;
  Servers : gmap string Z;
  FreeRunning : bool;
  FirstStepThreshold : Duration;
  DSCP : Z;
  AttemptsTXTS : Z;
  TimeoutTXTS : Duration;
  cfgBackoff : BackoffConfig
}.

(** Modelled from the spec: the timestamping modes hardware and software
    (the empty string asks for auto-detection). *)
Definition HWTIMESTAMP : string := "hardware".
Definition SWTIMESTAMP : string := "software".

(** ** Collaborators *)

(** The [Servo] interface of the client package, with the two constructors
    of package servo that [init] calls ([NewPiServo] with the constant
    [servo.DefaultPiServoCfg()], [NewPiServoFilter] with the constant
    [servo.DefaultPiServoFilterCfg()]).  Every method may change the
    servo, so each returns the servo after the call. *)
Class Servo (S : Type) : Type := {
  NewPiServo : servo.ServoConfig → float → S;
  NewPiServoFilter : S → S;
  SyncInterval : S → float → S;
  Sample : S → Z → Z → (float * servo.State) * S;
  SetMaxFreq : S → float → S;
  MeanFreq : S → float * S
}.

(** The [Clock] interface with its three implementations ([PHC],
    [SysClock], [FreeRunningClock]); [isSysClock] is the type assertion
    [p.clock.( *SysClock)] and [SetSync] the extra method of [SysClock]. *)
Class Clock (K : Type) : Type := {
  NewPHC : string → error + K;
  SysClock : K;
  FreeRunningClock : K;
  AdjFreqPPB : K → float → option error * K;
  Step : K → Duration → option error * K;
  FrequencyPPB : K → (float * option error) * K;
  MaxFreqPPB : K → (float * option error) * K;
  isSysClock : K → bool;
  SetSync : K → option error * K
}.

(** The per-peer [backoff] with its four methods and its constructor. *)
Class Backoff (B : Type) : Type := {
  newBackoff : BackoffConfig → B;
  active : B → bool;
  tick : B → Z * B;
  bump : B → Z * B;
  reset : B → B
}.

(** What the orchestrator uses of other packages: addresses of package
    net ([net.ParseIP], the canonical text [ip.String()]) and
    [timestamp.SockaddrToIP] for the event socket; best-master selection
    [bmca] over the candidates and the local priorities; the conservative
    bound [phc.DefaultMaxClockFreqPPB]; [servo.DefaultServoConfig()]. *)
Class Packages : Type := {
  net_IP : Type;
  ParseIP : string → net_IP;
  IP_String : net_IP → string;
  Sockaddr : Type;
  SockaddrToIP : Sockaddr → net_IP;
  bmca : list ptp.Announce → gmap Z Z → option ptp.Announce;
  phc_DefaultMaxClockFreqPPB : float;
  DefaultServoConfig : servo.ServoConfig
}.

(** ** Observable calls *)

Inductive level : Type := LDebug | LInfo | LWarning | LError.

(** Calls the orchestrator makes on its collaborators, in program order.
    A log call is recorded with its level and format string. *)
Inductive event : Type :=
| EvLog (lvl : level) (format : string)
| EvLogFloat (lvl : level) (format : string) (arg : float)
| EvSetCounter (key : string) (value : Z)
| EvSetGMStats (s : Stats)
| EvBackoffReset (addr : string)
| EvBackoffTick (addr : string)
| EvBackoffBump (addr : string)
| EvSyncInterval (seconds : float)
| EvSample (offset : Z) (localTs : Z)
| EvMeanFreq
| EvSetMaxFreq (f : float)
| EvStep (d : Duration)
| EvAdjFreqPPB (f : float)
| EvSetSync
| EvFrequencyPPB
| EvMaxFreqPPB
| EvGoRunOnce (addr : string) (timeout : Duration)
| EvNewTimer (d : Duration)
| EvTimerReset (d : Duration)
| EvSend (addr : string) (pkt : inPacket)
| EvBMCA (candidates : list ptp.Announce) (localPrio : gmap Z Z).

Definition is_servo_sample (e : event) : bool :=
  match e with
  | EvSample _ _ => true
  | _ => false
  end.

Definition is_log (e : event) : bool :=
  match e with
  | EvLog _ _ | EvLogFloat _ _ _ => true
  | _ => false
  end.

(** [for k, v := range m] visits the entries in an order of the runtime's
    choosing, every entry once. *)
Record ranger : Type := mkRanger {
  range : ∀ A : Type, gmap string A → list (string * A);
  range_perm : ∀ (A : Type) (m : gmap string A), range A m ≡ₚ map_to_list m
}.

Section Orchestrator.

Context {S K B : Type} `{!Servo S, !Clock K, !Backoff B, !Packages}.

(** ** The client *)

Record SPTP : Type := mkSPTP {
  cfg : Config;
  pi : S;
  clock : K;
  bestGM : string;
  clients : gmap string Client;
  priorities : gmap string Z;
  backoff : gmap string B;
  lastTick : time;
  clockID : ClockIdentity
}.

Definition set_pi (x : S) (p : SPTP) : SPTP :=
  mkSPTP (cfg p) x (clock p) (bestGM p) (clients p) (priorities p) (backoff p)
         (lastTick p) (clockID p).
Definition set_clock (x : K) (p : SPTP) : SPTP :=
  mkSPTP (cfg p) (pi p) x (bestGM p) (clients p) (priorities p) (backoff p)
         (lastTick p) (clockID p).
Definition set_bestGM (x : string) (p : SPTP) : SPTP :=
  mkSPTP (cfg p) (pi p) (clock p) x (clients p) (priorities p) (backoff p)
         (lastTick p) (clockID p).
Definition set_clients (x : gmap string Client) (p : SPTP) : SPTP :=
  mkSPTP (cfg p) (pi p) (clock p) (bestGM p) x (priorities p) (backoff p)
         (lastTick p) (clockID p).
Definition set_priorities (x : gmap string Z) (p : SPTP) : SPTP :=
  mkSPTP (cfg p) (pi p) (clock p) (bestGM p) (clients p) x (backoff p)
         (lastTick p) (clockID p).
Definition set_backoff (x : gmap string B) (p : SPTP) : SPTP :=
  mkSPTP (cfg p) (pi p) (clock p) (bestGM p) (clients p) (priorities p) x
         (lastTick p) (clockID p).
Definition set_lastTick (x : time) (p : SPTP) : SPTP :=
  mkSPTP (cfg p) (pi p) (clock p) (bestGM p) (clients p) (priorities p)
         (backoff p) x (clockID p).

(** ** Computations on the client

    A method of [*SPTP] reads and writes the client, makes calls that are
    appended to the trace, and either returns or panics (a nil pointer
    from a map that has no entry for the key). *)
Inductive outcome (A : Type) : Type :=
| Done (a : A) (p : SPTP)
| Panic.
Arguments Done {A} a p.
Arguments Panic {A}.

Definition M (A : Type) : Type := SPTP → list event * outcome A.

Definition ret {A} (a : A) : M A := λ p, ([], Done a p).

Definition bind {A A'} (m : M A) (f : A → M A') : M A' :=
  λ p, match m p with
       | (t, Done a p') => let '(t', o) := f a p' in (t ++ t', o)
       | (t, Panic) => (t, Panic)
       end.

Notation "x ← m ; k" := (bind m (λ x, k))
  (at level 20, m at level 100, k at level 200, only parsing).
Notation "m ;; k" := (bind m (λ _, k))
  (at level 100, k at level 200, right associativity, only parsing).

Definition get : M SPTP := λ p, ([], Done p p).
Definition modify (f : SPTP → SPTP) : M unit := λ p, ([], Done tt (f p)).
Definition emit (e : event) : M unit := λ p, ([e], Done tt p).
Definition panic {A} : M A := λ p, ([], Panic).
Definition log (l : level) (format : string) : M unit := emit (EvLog l format).
Definition when (b : bool) (m : M unit) : M unit := if b then m else ret tt.

(** The pointer [p.backoff[addr]]; calling a method on a missing entry
    dereferences nil. *)
Definition backoff_at (addr : string) : M B :=
  p ← get;
  match backoff p !! addr with
  | Some b => ret b
  | None => panic
  end.

Definition store_backoff (addr : string) (b : B) : M unit :=
  modify (λ p, set_backoff (<[addr := b]> (backoff p)) p).

Fixpoint for_range {A Acc} (l : list (string * A))
    (body : string → A → Acc → M Acc) (acc : Acc) : M Acc :=
  match l with
  | [] => ret acc
  | (k, v) :: l' => acc' ← body k v acc; for_range l' body acc'
  end.

(** ** Aggregation of one tick's results *)

Definition handleExchangeError (addr : string) (err : error) : M unit :=
  if errors_Is_errBackoff err then
    b ← backoff_at addr;
    emit (EvBackoffTick addr);;
    store_backoff addr (tick b).2;;
    log LDebug "backoff %s: %d seconds"
  else
    log LError "result %s: %+v";;
    b ← backoff_at addr;
    emit (EvBackoffBump addr);;
    store_backoff addr (bump b).2;;
    when (negb ((bump b).1 =? 0)) (log LWarning "backoff %s: extended by %d").

(** The locals the loop over the results builds up. *)
Record aggregate : Type := mkAggregate {
  gmsAvailable : Z;
  announces : list ptp.Announce;
  idsToClients : gmap Z string;
  localPrioMap : gmap Z Z
}.

Definition aggregate0 : aggregate := mkAggregate 0 [] ∅ ∅.

(** [p.priorities[addr]]: a missing key reads as 0. *)
Definition priority_of (p : SPTP) (addr : string) : Z :=
  default 0 (priorities p !! addr).

(** The body of the loop over the results (lines 311-329). *)
Definition aggregate_result (addr : string) (res : RunResult)
    (acc : aggregate) : M aggregate :=
  p ← get;
  emit (EvSetGMStats
          (runResultToStats addr res (priority_of p addr)
             (String.eqb addr (bestGM p))));;
  match Error res with
  | Some err => handleExchangeError addr err;; ret acc
  | None =>
      b ← backoff_at addr;
      emit (EvBackoffReset addr);;
      store_backoff addr (reset b);;
      log LDebug "result %s: %+v";;
      match Measurement res with
      | None => log LError "result for %s is missing Measurement";; ret acc
      | Some m =>
          let id := ptp.GrandmasterIdentity (Announce m) in
          ret (mkAggregate (gmsAvailable acc + 1)
                 (announces acc ++ [Announce m])
                 (<[id := addr]> (idsToClients acc))
                 (<[id := priority_of p addr]> (localPrioMap acc)))
      end
  end.

(** The published percentage:
    [int64((float64(gmsAvailable)/float64(gmsTotal))*100)]. *)
Definition available_pct (gmsAvailable gmsTotal : Z) : Z :=
  int64_of_float64
    (PrimFloat.mul
       (PrimFloat.div (float64_of_int gmsAvailable) (float64_of_int gmsTotal))
       100%float).

(** The tick-duration bookkeeping at the head of [processResults]
    (lines 295-305). *)
Definition record_tick (now : time) : M unit :=
  p ← get;
  when (negb (IsZero (lastTick p)))
    (let tickDuration := Sub now (lastTick p) in
     log LDebug "tick took %vms sys time";;
     when ((int64_mul 110 (Interval (cfg p)) <? int64_mul 100 tickDuration)
           || (int64_mul 100 tickDuration <? int64_mul 90 (Interval (cfg p))))
       (log LWarning
          "tick took %vms, which is outside of expected +-10%% from the interval %vms");;
     emit (EvSetCounter "ptp.sptp.tick_duration_ns" tickDuration));;
  modify (set_lastTick now).

(** Servo sampling and clock discipline for the winner (lines 349-365). *)
Definition discipline (bm : MeasurementResult) : M unit :=
  p ← get;
  let '(freqAdj, state, pi') := Sample (pi p) (Offset bm) (uint64 (UnixNano (Timestamp bm))) in
  emit (EvSample (Offset bm) (uint64 (UnixNano (Timestamp bm))));;
  modify (set_pi pi');;
  log LInfo "offset %10d s%d freq %+7.0f path delay %10d";;
  match state with
  | servo.StateJump =>
      p ← get;
      let '(err, k) := Step (clock p) (int64_mul (-1) (Offset bm)) in
      emit (EvStep (int64_mul (-1) (Offset bm)));;
      modify (set_clock k);;
      when (bool_decide (is_Some err)) (log LError "failed to step freq by %v: %v")
  | servo.StateLocked =>
      p ← get;
      let '(err, k) := AdjFreqPPB (clock p) (PrimFloat.mul (-1)%float freqAdj) in
      emit (EvAdjFreqPPB (PrimFloat.mul (-1)%float freqAdj));;
      modify (set_clock k);;
      when (bool_decide (is_Some err)) (log LError "failed to adjust freq to %v: %v");;
      when (isSysClock k)
        (p ← get;
         let '(err, k') := SetSync (clock p) in
         emit EvSetSync;;
         modify (set_clock k');;
         when (bool_decide (is_Some err)) (log LError "failed to set sys clock sync state"))
  | _ => ret tt
  end.

(** The loop over the results (lines 311-329). *)
Definition aggregate_all (rg : ranger) (results : gmap string RunResult) :
    M aggregate :=
  for_range (range rg _ results) aggregate_result aggregate0.

(** The two counters published after the loop (lines 330-335). *)
Definition publish_counters (gmsTotal : Z) (acc : aggregate) : M unit :=
  emit (EvSetCounter "ptp.sptp.gms.total" gmsTotal);;
  emit (EvSetCounter "ptp.sptp.gms.available_pct"
          (if negb (gmsTotal =? 0)
           then available_pct (gmsAvailable acc) gmsTotal
           else 0)).

(** Selection of the best master and what follows (lines 336-365).  The
    measurement of the winner is read through [results[bestAddr]]; a key
    that is not in the map, or a result without measurement, is a nil
    pointer. *)
Definition select_master (results : gmap string RunResult)
    (acc : aggregate) : M unit :=
  emit (EvBMCA (announces acc) (localPrioMap acc));;
  match bmca (announces acc) (localPrioMap acc) with
  | None =>
      log LWarning "no Best Master selected";;
      modify (set_bestGM "")
  | Some best =>
      let bestAddr :=
        default "" (idsToClients acc !! ptp.GrandmasterIdentity best) in
      match results !! bestAddr with
      | None => panic
      | Some r =>
          match Measurement r with
          | None => panic
          | Some bm =>
              p ← get;
              when (negb (String.eqb (bestGM p) bestAddr))
                (log LWarning "new best master selected: %q (%s)";;
                 modify (set_bestGM bestAddr));;
              log LDebug "best master %q (%s)";;
              discipline bm
          end
      end
  end.

Definition processResults (rg : ranger) (now : time)
    (results : gmap string RunResult) : M unit :=
  record_tick now;;
  let gmsTotal := Z.of_nat (size results) in
  acc ← aggregate_all rg results;
  publish_counters gmsTotal acc;;
  select_master results acc.

(** ** The tick *)

(** What the environment decides during one tick: the order in which
    maps are ranged over, the outcome of each peer's exchange, and the
    reading of the system time in [processResults]. *)
Record TickInput : Type := mkTickInput {
  range_of : ranger;
  RunOnce : Client → Duration → RunResult;
  now_at : time
}.

(** The body of the loop over the clients (lines 375-395).  A task
    started by [eg.Go] stores its own peer's result before [eg.Wait]
    returns; the peers of one tick are distinct keys, so the map after
    [eg.Wait] does not depend on how the tasks interleave. *)
Definition spawn (ti : TickInput) (addr : string) (c : Client)
    (results : gmap string RunResult) : M (gmap string RunResult) :=
  b ← backoff_at addr;
  if active b then
    ret (<[addr := mkRunResult addr None (Some errBackoff)]> results)
  else
    p ← get;
    emit (EvGoRunOnce addr (ExchangeTimeout (cfg p)));;
    ret (<[addr := RunOnce ti c (ExchangeTimeout (cfg p))]> results).

(** The fan-out of one tick: the result map handed to [processResults]. *)
Definition fan_out (ti : TickInput) : M (gmap string RunResult) :=
  p ← get;
  for_range (range (range_of ti) _ (clients p)) (spawn ti) ∅.

(** The closure [tick] of [runInternal] (lines 372-401). *)
Definition runInternal_tick (ti : TickInput) : M unit :=
  results ← fan_out ti;
  processResults (range_of ti) (now_at ti) results.

(** ** The main loop *)

(** The branch a [select] of the main loop takes. *)
Inductive selection : Type :=
| ctxDone (ctxErr : error)
| timerC (ti : TickInput).

(** The [for]/[select] loop over the branches taken; [None] when the
    loop is still waiting after the last of them. *)
Fixpoint main_loop (sel : list selection) : M (option error) :=
  match sel with
  | [] => ret None
  | ctxDone ctxErr :: _ =>
      log LDebug "cancelled main loop";;
      p ← get;
      let '(freqAdj, pi') := MeanFreq (pi p) in
      emit EvMeanFreq;;
      modify (set_pi pi');;
      log LInfo "Existing, setting freq to: %v";;
      p ← get;
      let '(err, k) := AdjFreqPPB (clock p) (PrimFloat.mul (-1)%float freqAdj) in
      emit (EvAdjFreqPPB (PrimFloat.mul (-1)%float freqAdj));;
      modify (set_clock k);;
      when (bool_decide (is_Some err)) (log LError "failed to adjust freq to %v: %v");;
      ret (Some ctxErr)
  | timerC ti :: sel' =>
      p ← get;
      emit (EvTimerReset (Interval (cfg p)));;
      runInternal_tick ti;;
      main_loop sel'
  end.

Definition runInternal (sel : list selection) : M (option error) :=
  p ← get;
  emit (EvSyncInterval (Seconds (Interval (cfg p))));;
  modify (set_pi (SyncInterval (pi p) (Seconds (Interval (cfg p)))));;
  emit (EvNewTimer 0);;
  main_loop sel.

(** ** The listeners *)

Record UDPAddr : Type := mkUDPAddr {
  IP : net_IP;
  Port : Z
}.

(** What [p.genConn.ReadFromUDP] returns: an error, or the bytes read
    ([response[:n]]) and the source address, which may be nil. *)
Inductive genRead : Type :=
| genReadFail (err : error)
| genReadFrom (payload : list Z) (addr : option UDPAddr).

(** What [p.eventConn.ReadPacketWithRXTimestamp] returns. *)
Inductive eventRead : Type :=
| eventReadFail (err : error)
| eventReadFrom (response : list Z) (addr : Sockaddr) (rxtx : time).

(** [cc.inChan <- pkt] for the session stored under [key]. *)
Definition send (key : string) (cc : Client) (pkt : inPacket) : M unit :=
  emit (EvSend key pkt);;
  modify (λ p, set_clients
                 (<[key := mkClient (clientAddr cc) (inChan cc ++ [pkt])]>
                    (clients p)) p).

(** One turn of the receive loop of the general port (lines 221-237);
    [Some err] ends the loop. *)
Definition general_receive (r : genRead) : M (option error) :=
  match r with
  | genReadFail err => ret (Some err)
  | genReadFrom _ None =>
      ret (Some (errNew "received packet on port 320 with nil source address"))
  | genReadFrom payload (Some addr) =>
      log LDebug "got packet on port 320, n = %v, addr = %v";;
      p ← get;
      match clients p !! IP_String (IP addr) with
      | None => log LWarning "ignoring packets from server %v";; ret None
      | Some cc =>
          send (IP_String (IP addr)) cc (mkInPacket payload 0);; ret None
      end
  end.

(** One turn of the receive loop of the event port (lines 254-266). *)
Definition event_receive (r : eventRead) : M (option error) :=
  match r with
  | eventReadFail err => ret (Some err)
  | eventReadFrom response addr rxtx =>
      log LDebug "got packet on port 319, addr = %v";;
      let ip := SockaddrToIP addr in
      p ← get;
      match clients p !! IP_String ip with
      | None => log LWarning "ignoring packets from server %v";; ret None
      | Some cc =>
          send (IP_String ip) cc (mkInPacket response rxtx);; ret None
      end
  end.

(** What the two receivers and the context deliver, in the order in which
    it happens. *)
Inductive arrival : Type :=
| onGeneral (r : genRead)
| onEvent (r : eventRead)
| listenerDone (ctxErr : error).

(** [RunListener]: both receive loops run until one of them fails or the
    context is done; [eg.Wait] returns that first error.  [None] when both
    loops are still receiving after the last arrival.  (The Debug line
    each receiver logs on cancellation is not recorded.) *)
Fixpoint RunListener (arr : list arrival) : M (option error) :=
  match arr with
  | [] => ret None
  | listenerDone ctxErr :: _ => ret (Some ctxErr)
  | onGeneral r :: arr' =>
      stop ← general_receive r;
      match stop with
      | Some err => ret (Some err)
      | None => RunListener arr'
      end
  | onEvent r :: arr' =>
      stop ← event_receive r;
      match stop with
      | Some err => ret (Some err)
      | None => RunListener arr'
      end
  end.

(** ** Initialisation *)

(** The outcome of the system and library calls [init] and [initClients]
    make. *)
Record InitEnv : Type := mkInitEnv {
  InterfaceByName : string → error + list Z;
  NewClockIdentity : list Z → error + ClockIdentity;
  ListenUDP : Z → option error;
  ConnFd : error + Z;
  enableDSCP : Z → Z → option error;
  EnableHWTimestamps : Z → string → option error;
  EnableSWTimestamps : Z → option error;
  SetNonblock : Z → option error;
  newClient : string → ClockIdentity → error + Client
}.

Definition PortEvent : Z := 319.
Definition PortGeneral : Z := 320.

(** A constructor: a trace and an error or a value. *)
Definition R (A : Type) : Type := list event * (error + A).

Definition rret {A} (a : A) : R A := ([], inr a).
Definition rfail {A} (err : error) : R A := ([], inl err).
Definition rbind {A A'} (m : R A) (f : A → R A') : R A' :=
  match m with
  | (t, inr a) => let '(t', o) := f a in (t ++ t', o)
  | (t, inl err) => (t, inl err)
  end.
Definition remit (e : event) : R unit := ([e], inr tt).
Definition rlog (l : level) (format : string) : R unit := remit (EvLog l format).
Definition lift {A} (x : error + A) : R A := ([], x).
Definition check (x : option error) : R unit :=
  match x with
  | Some err => rfail err
  | None => rret tt
  end.
Definition check_wrap (msg : string) (x : option error) : R unit :=
  match x with
  | Some err => rfail (errWrap msg err)
  | None => rret tt
  end.

Notation "x ←r m ; k" := (rbind m (λ x, k))
  (at level 20, m at level 100, k at level 200, only parsing).
Notation "m ;;r k" := (rbind m (λ _, k))
  (at level 100, k at level 200, right associativity, only parsing).

(** Timestamping of the event socket (lines 138-158). *)
Definition enable_timestamps (env : InitEnv) (c : Config) (connFd : Z) : R unit :=
  if String.eqb (Timestamping c) "" then
    match EnableHWTimestamps env connFd (Iface c) with
    | Some _ =>
        check_wrap "failed to enable timestamps on port %d: %w"
          (EnableSWTimestamps env connFd);;r
        rlog LWarning "Failed to enable hardware timestamps on port %d, falling back to software timestamps"
    | None => rlog LInfo "Using hardware timestamps"
    end
  else if String.eqb (Timestamping c) HWTIMESTAMP then
    check_wrap "failed to enable hardware timestamps on port %d: %w"
      (EnableHWTimestamps env connFd (Iface c))
  else if String.eqb (Timestamping c) SWTIMESTAMP then
    check_wrap "failed to enable software timestamps on port %d: %w"
      (EnableSWTimestamps env connFd)
  else rfail (errNew "unknown type of typestamping: %q").

(** The choice of the clock (lines 169-182). *)
Definition choose_clock (c : Config) : R K :=
  if FreeRunning c then
    rlog LWarning "operating in FreeRunning mode, will NOT adjust clock";;r
    rret FreeRunningClock
  else if String.eqb (Timestamping c) HWTIMESTAMP then lift (NewPHC (Iface c))
  else rret SysClock.

(** The servo configuration [init] builds (lines 190-196). *)
Definition servo_config (c : Config) : servo.ServoConfig :=
  if negb (FirstStepThreshold c =? 0) then
    servo.mkServoConfig (servo.MaxFreq DefaultServoConfig) true
      (FirstStepThreshold c)
  else DefaultServoConfig.

(** Clock frequency, servo and its frequency bound (lines 184-209);
    returns the servo and the clock as [init] leaves them. *)
Definition init_servo (c : Config) (k : K) : R (S * K) :=
  let '(freq, err, k1) := FrequencyPPB k in
  remit EvFrequencyPPB;;r
  rlog LDebug "starting PHC frequency: %v";;r
  check err;;r
  let pi0 := NewPiServo (servo_config c) (PrimFloat.opp freq) in
  let '(maxFreq, err, k2) := MaxFreqPPB k1 in
  remit EvMaxFreqPPB;;r
  res ←r match err with
         | Some _ =>
             rlog LWarning "max PHC frequency error: %v";;r
             rret (phc_DefaultMaxClockFreqPPB, pi0)
         | None =>
             remit (EvSetMaxFreq maxFreq);;r
             rret (maxFreq, SetMaxFreq pi0 maxFreq)
         end;
  remit (EvLogFloat LDebug "max PHC frequency: %v" res.1);;r
  rret (NewPiServoFilter res.2, k2).

(** [init] (lines 101-210): the client as it is when [init] returns
    nil; the maps are still nil, [bestGM] and [lastTick] are zero. *)
Definition init (env : InitEnv) (c : Config) : R SPTP :=
  hw ←r lift (InterfaceByName env (Iface c));
  cid ←r lift (NewClockIdentity env hw);
  check (ListenUDP env PortGeneral);;r
  check (ListenUDP env PortEvent);;r
  connFd ←r lift (ConnFd env);
  check_wrap "setting DSCP on event socket: %w" (enableDSCP env connFd (DSCP c));;r
  enable_timestamps env c connFd;;r
  check_wrap "failed to set event socket to blocking: %w" (SetNonblock env connFd);;r
  k ←r choose_clock c;
  sk ←r init_servo c k;
  rret (mkSPTP c sk.1 sk.2 "" ∅ ∅ ∅ 0 cid).

(** The body of the loop of [initClients] (lines 87-97). *)
Definition add_client (env : InitEnv) (server : string) (prio : Z)
    (p : SPTP) : R SPTP :=
  let ns := IP_String (ParseIP server) in
  match newClient env ns (clockID p) with
  | inl err => rfail (errWrap "initializing client %q: %w" err)
  | inr c =>
      rret (set_backoff (<[ns := newBackoff (cfgBackoff (cfg p))]> (backoff p))
              (set_priorities (<[ns := prio]> (priorities p))
                 (set_clients (<[ns := c]> (clients p)) p)))
  end.

Fixpoint add_clients (env : InitEnv) (l : list (string * Z)) (p : SPTP) : R SPTP :=
  match l with
  | [] => rret p
  | (server, prio) :: l' => p' ←r add_client env server prio p; add_clients env l' p'
  end.

Definition initClients (env : InitEnv) (rg : ranger) (p : SPTP) : R SPTP :=
  add_clients env (range rg _ (Servers (cfg p)))
    (set_backoff ∅ (set_priorities ∅ (set_clients ∅ p))).

Definition NewSPTP (env : InitEnv) (rg : ranger) (c : Config) : R SPTP :=
  p ←r init env c;
  initClients env rg p.

(** ** Running a computation *)

Definition trace_of {A} (m : M A) (p : SPTP) : list event := (m p).1.

Definition result_of {A} (m : M A) (p : SPTP) : option A :=
  match (m p).2 with
  | Done a _ => Some a
  | Panic => None
  end.

Definition state_of {A} (m : M A) (p : SPTP) : option SPTP :=
  match (m p).2 with
  | Done _ p' => Some p'
  | Panic => None
  end.

(** ** Vocabulary of the statements *)

(** The measurement of a result that has no error. *)
Definition usable (res : RunResult) : option MeasurementResult :=
  match Error res with
  | None => Measurement res
  | Some _ => None
  end.

(** The locals of the aggregation loop after one more usable result. *)
Definition include (p : SPTP) (acc : aggregate)
    (am : string * MeasurementResult) : aggregate :=
  let id := ptp.GrandmasterIdentity (Announce am.2) in
  mkAggregate (gmsAvailable acc + 1)
    (announces acc ++ [Announce am.2])
    (<[id := am.1]> (idsToClients acc))
    (<[id := priority_of p am.1]> (localPrioMap acc)).

(** The locals of the aggregation loop after one more entry. *)
Definition aggregate_step (p : SPTP) (acc : aggregate)
    (e : string * RunResult) : aggregate :=
  match usable e.2 with
  | None => acc
  | Some m => include p acc (e.1, m)
  end.

(** The peers of a result list that have a usable measurement, with it. *)
Definition included (l : list (string * RunResult)) :
    list (string * MeasurementResult) :=
  omap (λ e, pair e.1 <$> usable e.2) l.

(** The backoff a result leaves its peer with. *)
Definition backoff_update (res : RunResult) (b : B) : B :=
  match Error res with
  | None => reset b
  | Some err => if errors_Is_errBackoff err then (tick b).2 else (bump b).2
  end.

Definition backoff_step (bk : gmap string B) (e : string * RunResult) :
    gmap string B :=
  alter (backoff_update e.2) e.1 bk.

(** The result the fan-out stores for a peer. *)
Definition exchange_result (ti : TickInput) (p : SPTP) (addr : string)
    (c : Client) (b : B) : RunResult :=
  if active b then mkRunResult addr None (Some errBackoff)
  else RunOnce ti c (ExchangeTimeout (cfg p)).

(** The result map a tick hands to [processResults]: one entry for every
    session. *)
Definition fan_out_results (ti : TickInput) (p : SPTP) :
    gmap string RunResult :=
  map_imap (λ addr c, exchange_result ti p addr c <$> backoff p !! addr)
    (clients p).

Definition fan_out_step (ti : TickInput) (p : SPTP)
    (m : gmap string RunResult) (e : string * Client) : gmap string RunResult :=
  match backoff p !! e.1 with
  | Some b => <[e.1 := exchange_result ti p e.1 e.2 b]> m
  | None => m
  end.

(** [p'] differs from [p] at most in servo, clock and selected master. *)
Definition same_peers (p p' : SPTP) : Prop :=
  cfg p' = cfg p ∧ clients p' = clients p ∧ priorities p' = priorities p ∧
  backoff p' = backoff p ∧ lastTick p' = lastTick p.

Definition is_go (e : event) : bool :=
  match e with
  | EvGoRunOnce _ _ => true
  | _ => false
  end.

(** A session with one more packet in its inbound queue. *)
Definition enqueue (cc : Client) (pkt : inPacket) : Client :=
  mkClient (clientAddr cc) (inChan cc ++ [pkt]).

Definition is_send (e : event) : bool :=
  match e with
  | EvSend _ _ => true
  | _ => false
  end.

(** The listener routes the arrival [a], a datagram whose source address
    has the text [key], as the packet [pkt]: it is sent to the session
    stored under [key] and to no other, or dropped with a warning when
    there is none; either way the listener goes on with the arrivals
    [arr]. *)
Definition routed (a : arrival) (key : string) (pkt : inPacket)
    (arr : list arrival) (p : SPTP) : Prop :=
  ∃ t p',
    RunListener (a :: arr) p =
      (t ++ (RunListener arr p').1, (RunListener arr p').2) ∧
    match clients p !! key with
    | Some cc =>
        clients p' = <[key := enqueue cc pkt]> (clients p) ∧
        (∀ other, other ≠ key → clients p' !! other = clients p !! other) ∧
        List.filter is_send t = [EvSend key pkt]
    | None =>
        p' = p ∧ List.filter is_send t = [] ∧
        EvLog LWarning "ignoring packets from server %v" ∈ t
    end.

(** The client when [runInternal] enters its loop. *)
Definition synced (p : SPTP) : SPTP :=
  set_pi (SyncInterval (pi p) (Seconds (Interval (cfg p)))) p.

Definition is_timer (e : event) : bool :=
  match e with
  | EvNewTimer _ | EvTimerReset _ => true
  | _ => false
  end.

(** A call on the backoff of the peer [addr]. *)
Definition is_backoff_call (addr : string) (e : event) : bool :=
  match e with
  | EvBackoffReset a | EvBackoffTick a | EvBackoffBump a => String.eqb a addr
  | _ => false
  end.

(** An exchange task started for the peer [addr]. *)
Definition is_exchange (addr : string) (e : event) : bool :=
  match e with
  | EvGoRunOnce a _ => String.eqb a addr
  | _ => false
  end.

Definition is_set_max_freq (e : event) : bool :=
  match e with
  | EvSetMaxFreq _ => true
  | _ => false
  end.

(** A tick-duration statistic or deviation warning of [processResults]. *)
Definition is_tick_report (e : event) : bool :=
  match e with
  | EvSetCounter key _ => String.eqb key "ptp.sptp.tick_duration_ns"
  | EvLog LWarning format =>
      String.eqb format
        "tick took %vms, which is outside of expected +-10%% from the interval %vms"
  | _ => false
  end.

(** The locals of the aggregation loop when it ends. *)
Definition candidates (p : SPTP) (rg : ranger)
    (results : gmap string RunResult) : aggregate :=
  foldl (aggregate_step p) aggregate0 (range rg _ results).

(** The measurement of the tick's winner, as [processResults] finds it. *)
Definition winner (p : SPTP) (rg : ranger)
    (results : gmap string RunResult) : option MeasurementResult :=
  let acc := candidates p rg results in
  match bmca (announces acc) (localPrioMap acc) with
  | None => None
  | Some best =>
      match
        results !! default "" (idsToClients acc !! ptp.GrandmasterIdentity best)
      with
      | None => None
      | Some r => Measurement r
      end
  end.

(** A call on the clock. *)
Definition is_clock_call (e : event) : bool :=
  match e with
  | EvStep _ | EvAdjFreqPPB _ | EvSetSync => true
  | _ => false
  end.

(** The call a result makes on the backoff of its peer. *)
Definition backoff_call (addr : string) (res : RunResult) : event :=
  match Error res with
  | None => EvBackoffReset addr
  | Some err =>
      if errors_Is_errBackoff err then EvBackoffTick addr
      else EvBackoffBump addr
  end.

Definition is_bmca (e : event) : bool :=
  match e with
  | EvBMCA _ _ => true
  | _ => false
  end.

Definition is_counter (key : string) (e : event) : bool :=
  match e with
  | EvSetCounter k _ => String.eqb k key
  | _ => false
  end.

(** The events of the stages of a tick. *)
Definition record_event (e : event) : bool :=
  match e with
  | EvLog _ _ => true
  | EvSetCounter key _ => String.eqb key "ptp.sptp.tick_duration_ns"
  | _ => false
  end.

Definition aggregation_event (e : event) : bool :=
  match e with
  | EvSetGMStats _ | EvBackoffReset _ | EvBackoffTick _ | EvBackoffBump _ => true
  | EvLog _ _ => negb (is_tick_report e)
  | _ => false
  end.

Definition selection_event (e : event) : bool :=
  match e with
  | EvBMCA _ _ | EvSample _ _ | EvStep _ | EvAdjFreqPPB _ | EvSetSync => true
  | EvLog _ _ => negb (is_tick_report e)
  | _ => false
  end.

(** The Error line logged for a failed call, if it failed. *)
Definition error_log (err : option error) (format : string) : list event :=
  if bool_decide (is_Some err) then [EvLog LError format] else [].

(** Every peer has a backoff: no nil pointer in the aggregation loop. *)
Definition backoffs_cover (p : SPTP) (results : gmap string RunResult) : Prop :=
  ∀ addr, is_Some (results !! addr) → is_Some (backoff p !! addr).

(** The client when the aggregation loop has run. *)
Definition aggregated (p : SPTP) (rg : ranger) (now : time)
    (results : gmap string RunResult) : SPTP :=
  set_backoff (foldl backoff_step (backoff p) (range rg _ results))
    (set_lastTick now p).

(** Every peer with a session has a backoff and a priority: what
    [initClients] establishes. *)
Definition peers_ok (p : SPTP) : Prop :=
  dom (backoff p) = dom (clients p) ∧ dom (priorities p) = dom (clients p).

(** BMCA picks its winner among the candidates it is given. *)
Definition bmca_sound : Prop :=
  ∀ l prio best, bmca l prio = Some best → best ∈ l.

(** ** Vocabulary of the further statements *)

(** The error with which an arrival ends [RunListener], if it does: a
    failed read, a datagram without source address on the general port, or
    the context being done. *)
Definition stops (a : arrival) : option error :=
  match a with
  | listenerDone ctxErr => Some ctxErr
  | onGeneral (genReadFail err) => Some err
  | onGeneral (genReadFrom _ None) =>
      Some (errNew "received packet on port 320 with nil source address")
  | onEvent (eventReadFail err) => Some err
  | _ => None
  end.

(** The datagram of an arrival: the text of its source address and the
    packet made of it. *)
Definition datagram (a : arrival) : option (string * inPacket) :=
  match a with
  | onGeneral (genReadFrom payload (Some addr)) =>
      Some (IP_String (IP addr), mkInPacket payload 0)
  | onEvent (eventReadFrom response addr rxtx) =>
      Some (IP_String (SockaddrToIP addr), mkInPacket response rxtx)
  | _ => None
  end.

(** The arrivals before the first one that stops the listener. *)
Fixpoint handled (arr : list arrival) : list arrival :=
  match arr with
  | [] => []
  | a :: arr' =>
      match stops a with
      | Some _ => []
      | None => a :: handled arr'
      end
  end.

(** The packets of the datagrams whose source has the text [key], in the
    order of arrival. *)
Definition inbound (key : string) (arr : list arrival) : list inPacket :=
  omap (λ a, match datagram a with
             | Some (k, pkt) => if String.eqb k key then Some pkt else None
             | None => None
             end) arr.

(** The sends for the datagrams whose source is a session of [p], in
    the order of arrival. *)
Definition sends (p : SPTP) (arr : list arrival) : list event :=
  omap (λ a, match datagram a with
             | Some (k, pkt) =>
                 match clients p !! k with
                 | Some _ => Some (EvSend k pkt)
                 | None => None
                 end
             | None => None
             end) arr.

(** The client map after one datagram. *)
Definition deliver (m : gmap string Client) (a : arrival) : gmap string Client :=
  match datagram a with
  | Some (k, pkt) =>
      match m !! k with
      | Some cc => <[k := enqueue cc pkt]> m
      | None => m
      end
  | None => m
  end.

(** A statistics record handed to the sink. *)
Definition is_gm_stats (e : event) : bool :=
  match e with
  | EvSetGMStats _ => true
  | _ => false
  end.

(** The statistics record of one result, for the client [p] as it is
    when the tick begins. *)
Definition gm_stats (p : SPTP) (e : string * RunResult) : event :=
  EvSetGMStats
    (runResultToStats e.1 e.2 (priority_of p e.1) (String.eqb e.1 (bestGM p))).

(** The warning about a change of the selected master. *)
Definition is_new_master (e : event) : bool :=
  match e with
  | EvLog LWarning format =>
      String.eqb format "new best master selected: %q (%s)"
  | _ => false
  end.

(** The address of the winner BMCA picks among the candidates of a
    tick, if it picks one. *)
Definition best_address (p : SPTP) (rg : ranger)
    (results : gmap string RunResult) : option string :=
  let acc := candidates p rg results in
  match bmca (announces acc) (localPrioMap acc) with
  | None => None
  | Some best =>
      Some (default "" (idsToClients acc !! ptp.GrandmasterIdentity best))
  end.

(** The error with which a branch of the [select] ends the main loop. *)
Definition cancelled (s : selection) : option error :=
  match s with
  | ctxDone ctxErr => Some ctxErr
  | timerC _ => None
  end.

(** The key under which a configured server is stored. *)
Definition normalized (server : string) : string := IP_String (ParseIP server).

(** [p'] has the configuration, the sessions, the priorities and the
    clock identity of [p], and a backoff for the same peers. *)
Definition same_sessions (p p' : SPTP) : Prop :=
  cfg p' = cfg p ∧ clients p' = clients p ∧ priorities p' = priorities p ∧
  clockID p' = clockID p ∧ dom (backoff p') = dom (backoff p).

(** The Error line [handleExchangeError] logs for a failed exchange. *)
Definition is_result_error (e : event) : bool :=
  match e with
  | EvLog LError format => String.eqb format "result %s: %+v"
  | _ => false
  end.

(** The peers of a result list whose exchange failed with an error other
    than the sentinel of a suppressed peer. *)
Definition failed (l : list (string * RunResult)) : list string :=
  omap (λ e, match Error e.2 with
             | Some err =>
                 if errors_Is_errBackoff err then None else Some e.1
             | None => None
             end) l.

End Orchestrator.

Arguments Done {S K B A} a p.
Arguments Panic {S K B A}.

(** The percentage computed in [float64] agrees with the integer quotient
    [100 * a / t] for every total up to [n] and every [a] up to the
    total. *)
Definition pct_exact_upto (n : nat) : bool :=
  forallb
    (λ t, forallb
            (λ a, available_pct (Z.of_nat a) (Z.of_nat t)
                  =? 100 * Z.of_nat a / Z.of_nat t)
            (seq 0 (S t)))
    (seq 1 n).

(** ** A small concrete client

    Concrete collaborators on which the statements below are exercised. *)
Module Demo.

(** A servo that jumps on a first sample beyond the threshold and
    otherwise answers with the offset as correction, within its bound. *)
Record PiServo : Type := mkPiServo {
  maxFreq : float;
  drift : float;
  firstUpdate : bool;
  firstStepThreshold : Z;
  syncInterval : float;
  filtered : bool
}.

Definition clampf (bound f : float) : float :=
  if PrimFloat.ltb bound f then bound
  else if PrimFloat.ltb f (PrimFloat.opp bound) then PrimFloat.opp bound
  else f.

Definition sample (s : PiServo) (offset localTs : Z) :
    (float * servo.State) * PiServo :=
  if firstUpdate s && (firstStepThreshold s <? Z.abs offset) then
    ((0%float, servo.StateJump),
     mkPiServo (maxFreq s) (drift s) false (firstStepThreshold s)
       (syncInterval s) (filtered s))
  else
    let f := clampf (maxFreq s) (PrimFloat.add (drift s) (float64_of_int offset)) in
    ((f, servo.StateLocked),
     mkPiServo (maxFreq s) f false (firstStepThreshold s) (syncInterval s)
       (filtered s)).

#[global] Instance servo_ops : Servo PiServo := {|
  NewPiServo cfg freq :=
    mkPiServo (servo.MaxFreq cfg) freq (servo.FirstUpdate cfg)
      (servo.FirstStepThreshold cfg) 1%float false;
  NewPiServoFilter s :=
    mkPiServo (maxFreq s) (drift s) (firstUpdate s) (firstStepThreshold s)
      (syncInterval s) true;
  SyncInterval s i :=
    mkPiServo (maxFreq s) (drift s) (firstUpdate s) (firstStepThreshold s) i
      (filtered s);
  Sample := sample;
  SetMaxFreq s f :=
    mkPiServo f (drift s) (firstUpdate s) (firstStepThreshold s)
      (syncInterval s) (filtered s);
  MeanFreq s := (drift s, s)
|}.

Inductive kind : Type := PHC | System | Free.

(** A clock that records what it was told; a hardware clock on the
    interface "bad0" cannot report its maximum frequency, and a clock
    with [broken] set refuses every adjustment. *)
Record clock : Type := mkClock {
  variant : kind;
  device : string;
  frequency : float;
  stepped : Z;
  synced : bool;
  broken : bool
}.

Definition refusal (k : clock) : option error :=
  if broken k then Some (errNew "operation not permitted") else None.

#[global] Instance clock_ops : Clock clock := {|
  NewPHC iface :=
    if String.eqb iface "" then inl (errNew "no such device")
    else inr (mkClock PHC iface 12.5%float 0 false false);
  SysClock := mkClock System "" (-3)%float 0 false false;
  FreeRunningClock := mkClock Free "" 0%float 0 false false;
  AdjFreqPPB k f :=
    (refusal k,
     if broken k then k
     else mkClock (variant k) (device k) f (stepped k) (synced k) (broken k));
  Step k d :=
    (refusal k,
     if broken k then k
     else mkClock (variant k) (device k) (frequency k) (stepped k + d)
            (synced k) (broken k));
  FrequencyPPB k := ((frequency k, None), k);
  MaxFreqPPB k :=
    (if String.eqb (device k) "bad0"
     then (0%float, Some (errNew "ioctl failed"))
     else (500000%float, None), k);
  isSysClock k := match variant k with System => true | _ => false end;
  SetSync k :=
    (refusal k,
     mkClock (variant k) (device k) (frequency k) (stepped k) true (broken k))
|}.

(** A backoff that suppresses a peer for as many ticks as it has failed
    in a row. *)
Record backoff : Type := mkBackoff {
  failures : Z;
  remaining : Z
}.

#[global] Instance backoff_ops : Backoff backoff := {|
  newBackoff _ := mkBackoff 0 0;
  active b := 0 <? remaining b;
  tick b := (remaining b - 1, mkBackoff (failures b) (remaining b - 1));
  bump b := (failures b + 1, mkBackoff (failures b + 1) (failures b + 1));
  reset _ := mkBackoff 0 0
|}.

(** The better of two candidates: lower local priority first, then the
    lower identity. *)
Definition better (prio : gmap Z Z) (a b : ptp.Announce) : ptp.Announce :=
  let pa := default 0 (prio !! ptp.GrandmasterIdentity a) in
  let pb := default 0 (prio !! ptp.GrandmasterIdentity b) in
  if pa <? pb then a
  else if pb <? pa then b
  else if ptp.GrandmasterIdentity a <=? ptp.GrandmasterIdentity b then a
  else b.

Definition select_best (l : list ptp.Announce) (prio : gmap Z Z) :
    option ptp.Announce :=
  match l with
  | [] => None
  | a :: l' => Some (foldl (better prio) a l')
  end.

Program Definition in_order : ranger :=
  mkRanger (λ A m, map_to_list m) _.
Next Obligation. reflexivity. Qed.

Definition env : InitEnv := {|
  InterfaceByName iface :=
    if String.eqb iface "" then inl (errNew "no such interface")
    else inr [2; 0; 0; 0; 0; 1];
  NewClockIdentity hw := inr 2199023255553;
  ListenUDP _ := None;
  ConnFd := inr 7;
  enableDSCP _ _ := None;
  EnableHWTimestamps _ _ := None;
  EnableSWTimestamps _ := None;
  SetNonblock _ := None;
  newClient ns _ := inr (mkClient ns [])
|}.

#[global] Instance packages : Packages := {|
  net_IP := string;
  ParseIP s := s;
  IP_String ip := ip;
  Sockaddr := string;
  SockaddrToIP a := a;
  bmca := select_best;
  phc_DefaultMaxClockFreqPPB := 500000%float;
  DefaultServoConfig := servo.mkServoConfig 900000000%float false 20000
|}.

Definition config (iface mode : string) (servers : list (string * Z)) : Config := {|
  Iface := iface;
  Timestamping := mode;
  Interval := 1000000000;
  ExchangeTimeout := 100000000;
  Servers := list_to_map servers;
  FreeRunning := false;
  FirstStepThreshold := 0;
  DSCP := 0;
  AttemptsTXTS := 10;
  TimeoutTXTS := 1000000;
  cfgBackoff := mkBackoffConfig []
|}.

(** Sessions, priorities and backoffs for a list of configured peers. *)
Definition client_of (servers : list (string * Z)) : SPTP :=
  mkSPTP (config "eth0" "hardware" servers)
    (NewPiServoFilter
       (SetMaxFreq (NewPiServo DefaultServoConfig (-12.5)%float) 500000%float))
    (mkClock PHC "eth0" 12.5%float 0 false false)
    ""
    (list_to_map ((λ sp, (sp.1, mkClient sp.1 [])) <$> servers))
    (list_to_map servers)
    (list_to_map ((λ sp, (sp.1, mkBackoff 0 0)) <$> servers))
    0 2199023255553.

Definition two_peers : list (string * Z) := [("10.0.0.1", 1); ("10.0.0.2", 2)].

Definition client2 : SPTP := client_of two_peers.

(** A measurement with the given identity and offset. *)
Definition measured (id : Z) (offset : Z) : MeasurementResult :=
  mkMeasurementResult (ptp.mkAnnounce id [128; 6; 254]) offset 2000
    (unixEpoch + 1700000000000000000).

Definition answered (addr : string) (id offset : Z) : RunResult :=
  mkRunResult addr (Some (measured id offset)) None.

Definition timed_out (addr : string) : RunResult :=
  mkRunResult addr None (Some (errNew "timeout waiting for response")).

(** A tick in which the first peer answers with offset +500ns and the
    second one times out. *)
Definition tick_one_answers : TickInput :=
  mkTickInput in_order
    (λ c _, if String.eqb (clientAddr c) "10.0.0.1"
            then answered (clientAddr c) 101 500
            else timed_out (clientAddr c))
    (unixEpoch + 1700000000000000100).

(** A tick in which no peer answers. *)
Definition tick_none_answers : TickInput :=
  mkTickInput in_order (λ c _, timed_out (clientAddr c))
    (unixEpoch + 1700000001000000100).

(** Results of two peers that advertise the same grandmaster. *)
Definition twins : gmap string RunResult :=
  list_to_map [("10.0.0.1", answered "10.0.0.1" 42 500);
               ("10.0.0.2", answered "10.0.0.2" 42 700)].

(** Fifty peers, of which the first twenty-nine answer. *)
Definition peer_name (n : nat) : string := "10.0.1." +:+ pretty n.

Definition fifty_peers : list (string * Z) :=
  (λ n, (peer_name n, Z.of_nat n)) <$> seq 1 50.

Definition fifty_results : gmap string RunResult :=
  list_to_map
    ((λ n, (peer_name n,
            if (n <=? 29)%nat then answered (peer_name n) (Z.of_nat n) 500
            else timed_out (peer_name n))) <$> seq 1 50).

Definition client50 : SPTP := client_of fifty_peers.

(** The two peers one second and a fifth after a previous tick of
    [tick_one_answers]. *)
Definition late : SPTP :=
  set_lastTick (now_at tick_one_answers - 1200000000) client2.

(** The two peers, the second of them in backoff. *)
Definition one_suppressed : SPTP :=
  set_backoff (list_to_map [("10.0.0.1", mkBackoff 0 0);
                            ("10.0.0.2", mkBackoff 1 1)]) client2.

(** The two peers, both in backoff. *)
Definition all_suppressed : SPTP :=
  set_backoff (list_to_map [("10.0.0.1", mkBackoff 1 1);
                            ("10.0.0.2", mkBackoff 2 2)]) client2.

(** An order of the runtime's choosing other than [in_order]. *)
Program Definition reversed : ranger :=
  mkRanger (λ A m, reverse (map_to_list m)) _.
Next Obligation. intros A m. apply reverse_Permutation. Qed.

(** The tick [tick_one_answers] a little later and with the maps
    ranged over in the other order. *)
Definition tick_reversed : TickInput :=
  mkTickInput reversed (RunOnce tick_one_answers)
    (unixEpoch + 1700000000000000900).

(** What the listener sees: a datagram of the first peer on each port,
    between them one of a stranger. *)
Definition arrivals : list arrival :=
  [onGeneral (genReadFrom [1; 2] (Some (mkUDPAddr "10.0.0.1" 320)));
   onEvent (eventReadFrom [3] "10.0.0.9" 77);
   onEvent (eventReadFrom [4; 5] "10.0.0.1" 78)].

(** An environment in which no session can be made for the second
    peer. *)
Definition env_refusing : InitEnv := {|
  InterfaceByName := InterfaceByName env;
  NewClockIdentity := NewClockIdentity env;
  ListenUDP := ListenUDP env;
  ConnFd := ConnFd env;
  enableDSCP := enableDSCP env;
  EnableHWTimestamps := EnableHWTimestamps env;
  EnableSWTimestamps := EnableSWTimestamps env;
  SetNonblock := SetNonblock env;
  newClient ns _ :=
    if String.eqb ns "10.0.0.2" then inl (errNew "connection refused")
    else inr (mkClient ns [])
|}.

End Demo.


(** * Facts *)

(** ** Machine numbers *)

Lemma wrap64_id (z : Z) : min_int64 ≤ z ≤ max_int64 → wrap64 z = z.
Proof.
  unfold wrap64, min_int64, max_int64. intros Hz.
  rewrite Z.mod_small; lia.
Qed.

(** [-1 * d] on [int64] is the negation of [d], except for the smallest
    [int64], which has no negation. *)
Lemma int64_neg (d : Z) :
  min_int64 < d ≤ max_int64 → int64_mul (-1) d = - d.
Proof.
  intros Hd. unfold int64_mul. apply wrap64_id.
  unfold min_int64, max_int64 in *. lia.
Qed.

Lemma digits2_pos_shift52 (m : positive) :
  Z.pos (digits2_pos (Pos.iter xO m 52)) = Z.pos (digits2_pos m) + 52.
Proof.
  change (digits2_pos (Pos.iter xO m 52))
    with (Pos.iter Pos.succ (digits2_pos m) 52).
  unfold Pos.iter. rewrite !Pos2Z.inj_succ. lia.
Qed.

Lemma SFmul_minus_one (y : spec_float) :
  valid_binary y = true →
  SFmul prec emax (S754_finite true 4503599627370496 (-52)) y = SFopp y.
Proof.
  destruct y as [s|s| |s m e]; try reflexivity.
  intros Hv. cbn [SpecFloat.valid_binary] in Hv. unfold bounded in Hv.
  apply andb_prop in Hv as [Hc Hb].
  unfold canonical_mantissa in Hc. apply Z.eqb_eq in Hc.
  cbn [SFmul SFopp].
  change (4503599627370496 * m)%positive with (Pos.iter xO m 52).
  unfold binary_round_aux, shr_fexp.
  cbn [Zdigits2 shr_record_of_loc].
  rewrite digits2_pos_shift52.
  replace (Z.pos (digits2_pos m) + 52 + (-52 + e))
    with (Z.pos (digits2_pos m) + e) by lia.
  rewrite Hc.
  replace (e - (-52 + e)) with 52 by lia.
  cbn [shr].
  change (SpecFloat.iter_pos shr_1 52
            (Build_shr_record (Z.pos (Pos.iter xO m 52)) false false))
    with (Build_shr_record (Z.pos m) false false).
  cbn [shr_m loc_of_shr_record round_nearest_even Zdigits2 shr_record_of_loc].
  replace (-52 + e + 52) with e by lia.
  rewrite Hc, Z.sub_diag. cbn [shr shr_m].
  rewrite Hb. reflexivity.
Qed.

(** In binary64, multiplying by -1 is negation, for every float. *)
Lemma mul_minus_one_opp (f : float) :
  PrimFloat.mul (-1)%float f = PrimFloat.opp f.
Proof.
  apply Prim2SF_inj. rewrite FloatAxioms.mul_spec, FloatAxioms.opp_spec.
  change (Prim2SF (-1)%float) with (S754_finite true 4503599627370496 (-52)).
  apply SFmul_minus_one, Prim2SF_valid.
Qed.

Section Facts.

Context {S K B : Type} `{!Servo S, !Clock K, !Backoff B, !Packages}.

Implicit Types (p : @SPTP S K B) (rg : ranger) (results : gmap string RunResult).

(** ** Sequencing *)

Lemma bind_run {A A'} (m : @M S K B A) (f : A → @M S K B A') p :
  bind m f p =
  match m p with
  | (t, Done a p') => (t ++ (f a p').1, (f a p').2)
  | (t, Panic) => (t, Panic)
  end.
Proof.
  unfold bind. destruct (m p) as [t [a p'|]]; [|done].
  by destruct (f a p').
Qed.

(** Settles a [Forall] over an explicit list of events whose elements
    are each decided by computation. *)
Ltac each_event :=
  repeat (apply List.Forall_cons;
          [first [done | by left | by right | by (right; left) | by (right; right)
                 | by (split; [done|]; split) | by split ] |]);
  try apply List.Forall_nil.

(** ** The head of [processResults] *)

Lemma record_tick_done now p :
  (record_tick now p).2 = Done tt (set_lastTick now p).
Proof.
  unfold record_tick, bind, get, when, log, emit, modify, ret. simpl.
  destruct (negb (IsZero (lastTick p))); simpl; [|done].
  destruct (_ || _); done.
Qed.

Lemma record_tick_first now p :
  lastTick p = 0 → record_tick now p = ([], Done tt (set_lastTick now p)).
Proof.
  intros Hz. unfold record_tick, bind, get, when, modify, ret. simpl.
  rewrite Hz. reflexivity.
Qed.

Lemma filter_none (f g : event → bool) (t : list event) :
  Forall (λ e, g e = true) t → (∀ e, g e = true → f e = false) →
  List.filter f t = [].
Proof.
  intros Ht Hfg. induction Ht as [|e t He Ht IH]; [done|].
  simpl. by rewrite (Hfg e He).
Qed.

Lemma record_tick_events now p :
  Forall (λ e, record_event e = true) (record_tick now p).1.
Proof.
  unfold record_tick, bind, get, when, log, emit, modify, ret. simpl.
  destruct (negb (IsZero (lastTick p))); simpl; [|constructor].
  destruct (_ || _); simpl; each_event.
Qed.

(** ** One result *)

Lemma aggregate_result_done addr res acc p b :
  backoff p !! addr = Some b →
  (aggregate_result addr res acc p).2 =
  Done (aggregate_step p acc (addr, res))
       (set_backoff (<[addr := backoff_update res b]> (backoff p)) p).
Proof.
  intros Hb.
  unfold aggregate_result, aggregate_step, include, usable, backoff_update,
    handleExchangeError, backoff_at, store_backoff, bind, get, when, log, emit,
    modify, ret, panic. simpl.
  destruct (Error res) as [err|]; simpl.
  - destruct (errors_Is_errBackoff err); simpl; rewrite Hb; simpl; [done|].
    by destruct (negb _).
  - rewrite Hb. simpl. by destruct (Measurement res).
Qed.

Lemma aggregate_result_events addr res acc p :
  Forall (λ e, aggregation_event e = true) (aggregate_result addr res acc p).1.
Proof.
  unfold aggregate_result, handleExchangeError, backoff_at, store_backoff, bind,
    get, when, log, emit, modify, ret, panic. simpl.
  destruct (Error res) as [err|]; simpl.
  - destruct (errors_Is_errBackoff err); simpl;
      destruct (backoff p !! addr); simpl; try destruct (negb _); simpl;
      each_event.
  - destruct (backoff p !! addr); simpl; [|each_event].
    destruct (Measurement res); simpl; each_event.
Qed.

(** The calls on the backoff of [addr'] that the result of [addr] causes:
    none for another peer, and for [addr] itself a reset, a tick or a
    bump. *)
Lemma aggregate_result_backoff_calls addr res acc p b addr' :
  backoff p !! addr = Some b →
  List.filter (is_backoff_call addr') (aggregate_result addr res acc p).1 =
  if String.eqb addr addr' then
    match Error res with
    | None => [EvBackoffReset addr]
    | Some err =>
        if errors_Is_errBackoff err then [EvBackoffTick addr]
        else [EvBackoffBump addr]
    end
  else [].
Proof.
  intros Hb.
  unfold aggregate_result, handleExchangeError, backoff_at, store_backoff, bind,
    get, when, log, emit, modify, ret, panic. simpl.
  destruct (Error res) as [err|]; simpl.
  - destruct (errors_Is_errBackoff err); simpl; rewrite Hb; simpl;
      try destruct (negb _); simpl; by destruct (String.eqb addr addr').
  - rewrite Hb. simpl.
    destruct (Measurement res); simpl; by destruct (String.eqb addr addr').
Qed.

(** ** The aggregation loop *)

Lemma backoff_step_insert (bk : gmap string B) addr res b :
  bk !! addr = Some b →
  backoff_step bk (addr, res) = <[addr := backoff_update res b]> bk.
Proof.
  intros Hb. unfold backoff_step. simpl. apply map_eq. intros a.
  rewrite lookup_alter, lookup_insert.
  case_decide; subst; by rewrite ?Hb.
Qed.

Lemma backoff_step_dom (bk : gmap string B) e a :
  is_Some (backoff_step bk e !! a) ↔ is_Some (bk !! a).
Proof.
  unfold backoff_step. rewrite lookup_alter. case_decide; subst; [|done].
  by rewrite fmap_is_Some.
Qed.

Lemma aggregate_loop_done (l : list (string * RunResult)) acc p :
  (∀ a r, (a, r) ∈ l → is_Some (backoff p !! a)) →
  (for_range l aggregate_result acc p).2 =
  Done (foldl (aggregate_step p) acc l)
       (set_backoff (foldl backoff_step (backoff p) l) p).
Proof.
  revert acc p. induction l as [|[a r] l IH]; intros acc p Hdom.
  - by destruct p.
  - destruct (Hdom a r) as [b Hb]; [left|].
    cbn [for_range foldl]. rewrite bind_run.
    pose proof (aggregate_result_done a r acc p b Hb) as Hstep.
    destruct (aggregate_result a r acc p) as [t o]. simpl in Hstep. subst o.
    simpl. rewrite IH.
    + rewrite (backoff_step_insert _ _ _ _ Hb). done.
    + intros a' r' Hin. simpl.
      rewrite <- (backoff_step_insert _ _ r _ Hb), backoff_step_dom.
      apply (Hdom a' r'). by right.
Qed.

Lemma aggregate_loop_events (l : list (string * RunResult)) acc p :
  Forall (λ e, aggregation_event e = true) (for_range l aggregate_result acc p).1.
Proof.
  revert acc p. induction l as [|[a r] l IH]; intros acc p.
  - constructor.
  - cbn [for_range]. rewrite bind_run.
    pose proof (aggregate_result_events a r acc p) as Hq.
    destruct (aggregate_result a r acc p) as [t [acc' p'|]]; simpl in *; [|done].
    apply Forall_app. split; [done|apply IH].
Qed.

Lemma backoff_loop_other (l : list (string * RunResult)) (bk : gmap string B) a :
  a ∉ l.*1 → foldl backoff_step bk l !! a = bk !! a.
Proof.
  revert bk. induction l as [|[a' r'] l IH]; intros bk Hnot; [done|].
  simpl in *. apply not_elem_of_cons in Hnot as [Hne Hnot].
  rewrite IH by done. unfold backoff_step. simpl.
  by rewrite lookup_alter_ne.
Qed.

Lemma backoff_loop_at (l : list (string * RunResult)) (bk : gmap string B) a r b :
  NoDup l.*1 → (a, r) ∈ l → bk !! a = Some b →
  foldl backoff_step bk l !! a = Some (backoff_update r b).
Proof.
  revert bk. induction l as [|[a' r'] l IH]; intros bk Hnd Hin Hb.
  - by apply elem_of_nil in Hin.
  - simpl in *. apply NoDup_cons in Hnd as [Hfresh Hnd].
    apply elem_of_cons in Hin as [Heq|Hin].
    + inversion Heq; subst a' r'. rewrite backoff_loop_other by done.
      unfold backoff_step. simpl. by rewrite lookup_alter_eq, Hb.
    + assert (a ≠ a') as Hne.
      { intros ->. apply Hfresh. by apply (list_elem_of_fmap_2 fst l (a', r)). }
      apply IH; [done..|]. unfold backoff_step. simpl.
      by rewrite lookup_alter_ne.
Qed.

Lemma aggregate_loop_backoff_silent (l : list (string * RunResult)) acc p addr :
  addr ∉ l.*1 →
  List.filter (is_backoff_call addr) (for_range l aggregate_result acc p).1 = [].
Proof.
  revert acc p. induction l as [|[a r] l IH]; intros acc p Hnot; [done|].
  simpl in Hnot. apply not_elem_of_cons in Hnot as [Hne Hnot].
  cbn [for_range]. rewrite bind_run.
  assert (List.filter (is_backoff_call addr) (aggregate_result a r acc p).1 = [])
    as Hstep.
  { destruct (backoff p !! a) as [b|] eqn:Hb.
    - rewrite (aggregate_result_backoff_calls _ _ _ _ b) by done.
      destruct (String.eqb_spec a addr); congruence.
    - unfold aggregate_result, handleExchangeError, backoff_at, bind, get,
        log, emit, ret, panic. simpl.
      destruct (Error r) as [err|]; simpl;
        [destruct (errors_Is_errBackoff err); simpl|]; by rewrite Hb. }
  destruct (aggregate_result a r acc p) as [t [acc' p'|]]; simpl in *; [|done].
  by rewrite List.filter_app, Hstep, IH.
Qed.

Lemma aggregate_loop_backoff_calls (l : list (string * RunResult)) acc p addr r :
  NoDup l.*1 →
  (∀ a r, (a, r) ∈ l → is_Some (backoff p !! a)) →
  (addr, r) ∈ l →
  List.filter (is_backoff_call addr) (for_range l aggregate_result acc p).1 =
  [backoff_call addr r].
Proof.
  revert acc p. induction l as [|[a' r'] l IH]; intros acc p Hnd Hdom Hin.
  - by apply elem_of_nil in Hin.
  - simpl in Hnd. apply NoDup_cons in Hnd as [Hfresh Hnd].
    destruct (Hdom a' r') as [b Hb]; [left|].
    cbn [for_range]. rewrite bind_run.
    pose proof (aggregate_result_done a' r' acc p b Hb) as Hstep.
    pose proof (aggregate_result_backoff_calls a' r' acc p b addr Hb) as Hcalls.
    destruct (aggregate_result a' r' acc p) as [t o]. simpl in Hstep, Hcalls.
    subst o. simpl. rewrite List.filter_app, Hcalls.
    apply elem_of_cons in Hin as [Heq|Hin].
    + inversion Heq; subst a' r'. rewrite String.eqb_refl.
      rewrite aggregate_loop_backoff_silent by done.
      unfold backoff_call. by destruct (Error r) as [err|]; [destruct (errors_Is_errBackoff err)|].
    + destruct (String.eqb_spec a' addr) as [->|Hne].
      { exfalso. apply Hfresh. by apply (list_elem_of_fmap_2 fst l (addr, r)). }
      simpl. apply IH; [done| |done].
      intros a2 r2 Hin2. simpl.
      rewrite <- (backoff_step_insert _ _ r' _ Hb), backoff_step_dom.
      apply (Hdom a2 r2). by right.
Qed.

(** ** The candidates *)

Lemma aggregate_loop_included p acc (l : list (string * RunResult)) :
  foldl (aggregate_step p) acc l = foldl (include p) acc (included l).
Proof.
  revert acc. induction l as [|[a r] l IH]; intros acc; [done|].
  cbn [foldl]. rewrite IH. unfold included, aggregate_step. simpl.
  by destruct (usable r).
Qed.

Lemma include_announces p acc (ams : list (string * MeasurementResult)) :
  announces (foldl (include p) acc ams) =
  announces acc ++ ((λ am, Announce am.2) <$> ams).
Proof.
  revert acc. induction ams as [|am ams IH]; intros acc; simpl.
  - by rewrite app_nil_r.
  - rewrite IH. simpl. by rewrite <- app_assoc.
Qed.

Lemma include_available p acc (ams : list (string * MeasurementResult)) :
  gmsAvailable (foldl (include p) acc ams) =
  gmsAvailable acc + Z.of_nat (length ams).
Proof.
  revert acc. induction ams as [|am ams IH]; intros acc; simpl; [lia|].
  rewrite IH. simpl. lia.
Qed.

(** An entry of the local-priority map is the priority of an included
    peer that advertises the identity. *)
Lemma include_prio_inv p (ams : list (string * MeasurementResult)) id v :
  localPrioMap (foldl (include p) aggregate0 ams) !! id = Some v →
  ∃ a m, (a, m) ∈ ams ∧ ptp.GrandmasterIdentity (Announce m) = id ∧
         v = priority_of p a.
Proof.
  induction ams as [|[a m] ams IH] using rev_ind; [done|].
  rewrite foldl_app. simpl. rewrite lookup_insert. case_decide as Hid.
  - intros [= <-]. exists a, m. rewrite elem_of_app, list_elem_of_singleton.
    auto.
  - intros (a' & m' & Hin & ?)%IH. exists a', m'.
    rewrite elem_of_app. auto.
Qed.

Lemma include_prio_some p (ams : list (string * MeasurementResult)) a m :
  (a, m) ∈ ams →
  is_Some (localPrioMap (foldl (include p) aggregate0 ams)
             !! ptp.GrandmasterIdentity (Announce m)).
Proof.
  induction ams as [|[a' m'] ams IH] using rev_ind.
  - by intros ?%elem_of_nil.
  - rewrite foldl_app. simpl. rewrite lookup_insert. case_decide; [done|].
    rewrite elem_of_app, list_elem_of_singleton. intros [Hin|[= -> ->]]; [auto|done].
Qed.

(** An entry of [idsToClients] is an included peer that advertises the
    identity. *)
Lemma include_ids_inv p (ams : list (string * MeasurementResult)) id a :
  idsToClients (foldl (include p) aggregate0 ams) !! id = Some a →
  ∃ m, (a, m) ∈ ams ∧ ptp.GrandmasterIdentity (Announce m) = id.
Proof.
  induction ams as [|[a' m'] ams IH] using rev_ind; [done|].
  rewrite foldl_app. simpl. rewrite lookup_insert. case_decide as Hid.
  - intros [= <-]. exists m'. rewrite elem_of_app, list_elem_of_singleton.
    auto.
  - intros (m & Hin & ?)%IH. exists m. rewrite elem_of_app. auto.
Qed.

Lemma include_ids_some p (ams : list (string * MeasurementResult)) a m :
  (a, m) ∈ ams →
  is_Some (idsToClients (foldl (include p) aggregate0 ams)
             !! ptp.GrandmasterIdentity (Announce m)).
Proof.
  induction ams as [|[a' m'] ams IH] using rev_ind.
  - by intros ?%elem_of_nil.
  - rewrite foldl_app. simpl. rewrite lookup_insert. case_decide; [done|].
    rewrite elem_of_app, list_elem_of_singleton. intros [Hin|[= -> ->]]; [auto|done].
Qed.

Lemma included_elem (l : list (string * RunResult)) a m :
  (a, m) ∈ included l ↔ ∃ r, (a, r) ∈ l ∧ usable r = Some m.
Proof.
  unfold included. rewrite list_elem_of_omap. split.
  - intros ([a' r] & Hin & Heq). simpl in Heq.
    destruct (usable r) as [m'|] eqn:Hu; [|done].
    simpl in Heq. injection Heq as -> ->. eauto.
  - intros (r & Hin & Hu). exists (a, r). split; [done|].
    simpl. by rewrite Hu.
Qed.

Lemma range_elem {A} rg (m : gmap string A) a x :
  (a, x) ∈ range rg A m ↔ m !! a = Some x.
Proof. by rewrite (range_perm rg A m), elem_of_map_to_list. Qed.

Lemma range_NoDup {A} rg (m : gmap string A) : NoDup (range rg A m).*1.
Proof. rewrite (range_perm rg A m). apply NoDup_fst_map_to_list. Qed.

(** ** Discipline *)

Lemma discipline_jump bm p freqAdj pi' :
  Sample (pi p) (Offset bm) (uint64 (UnixNano (Timestamp bm)))
    = (freqAdj, servo.StateJump, pi') →
  discipline bm p =
  ([EvSample (Offset bm) (uint64 (UnixNano (Timestamp bm)));
    EvLog LInfo "offset %10d s%d freq %+7.0f path delay %10d";
    EvStep (int64_mul (-1) (Offset bm))]
   ++ error_log (Step (clock p) (int64_mul (-1) (Offset bm))).1
        "failed to step freq by %v: %v",
   Done tt (set_clock (Step (clock p) (int64_mul (-1) (Offset bm))).2
              (set_pi pi' p))).
Proof.
  intros Hs. unfold discipline, bind, get, when, log, emit, modify, ret, error_log.
  simpl. rewrite Hs. simpl.
  destruct (Step (clock p) (int64_mul (-1) (Offset bm))) as [err k]. simpl.
  by destruct (bool_decide (is_Some err)).
Qed.

Lemma discipline_locked bm p freqAdj pi' :
  Sample (pi p) (Offset bm) (uint64 (UnixNano (Timestamp bm)))
    = (freqAdj, servo.StateLocked, pi') →
  let adj := AdjFreqPPB (clock p) (PrimFloat.opp freqAdj) in
  discipline bm p =
  ([EvSample (Offset bm) (uint64 (UnixNano (Timestamp bm)));
    EvLog LInfo "offset %10d s%d freq %+7.0f path delay %10d";
    EvAdjFreqPPB (PrimFloat.opp freqAdj)]
   ++ error_log adj.1 "failed to adjust freq to %v: %v"
   ++ (if isSysClock adj.2
       then EvSetSync :: error_log (SetSync adj.2).1 "failed to set sys clock sync state"
       else []),
   Done tt (set_clock (if isSysClock adj.2 then (SetSync adj.2).2 else adj.2)
              (set_pi pi' p))).
Proof.
  intros Hs. unfold discipline, bind, get, when, log, emit, modify, ret, error_log.
  simpl. rewrite Hs. simpl. rewrite mul_minus_one_opp.
  destruct (AdjFreqPPB (clock p) (PrimFloat.opp freqAdj)) as [err k]. simpl.
  destruct (bool_decide (is_Some err)); simpl;
    (destruct (isSysClock k); simpl; [|done]);
    destruct (SetSync k) as [err' k']; simpl;
    by destruct (bool_decide (is_Some err')).
Qed.

Lemma discipline_other bm p freqAdj st pi' :
  Sample (pi p) (Offset bm) (uint64 (UnixNano (Timestamp bm)))
    = (freqAdj, st, pi') →
  st ≠ servo.StateJump → st ≠ servo.StateLocked →
  discipline bm p =
  ([EvSample (Offset bm) (uint64 (UnixNano (Timestamp bm)));
    EvLog LInfo "offset %10d s%d freq %+7.0f path delay %10d"],
   Done tt (set_pi pi' p)).
Proof.
  intros Hs ??. unfold discipline, bind, get, when, log, emit, modify, ret.
  simpl. rewrite Hs. simpl. by destruct st.
Qed.

(** ** Selection *)

Lemma select_master_none results acc p :
  bmca (announces acc) (localPrioMap acc) = None →
  select_master results acc p =
  ([EvBMCA (announces acc) (localPrioMap acc);
    EvLog LWarning "no Best Master selected"],
   Done tt (set_bestGM "" p)).
Proof.
  intros Hb. unfold select_master, bind, log, emit, modify. simpl.
  by rewrite Hb.
Qed.

Lemma select_master_some results acc p best r bm :
  bmca (announces acc) (localPrioMap acc) = Some best →
  results !! default "" (idsToClients acc !! ptp.GrandmasterIdentity best)
    = Some r →
  Measurement r = Some bm →
  let bestAddr := default "" (idsToClients acc !! ptp.GrandmasterIdentity best) in
  let changed := negb (String.eqb (bestGM p) bestAddr) in
  select_master results acc p =
  (EvBMCA (announces acc) (localPrioMap acc)
   :: (if changed then [EvLog LWarning "new best master selected: %q (%s)"] else [])
   ++ EvLog LDebug "best master %q (%s)"
   :: (discipline bm (set_bestGM bestAddr p)).1,
   (discipline bm (set_bestGM bestAddr p)).2).
Proof.
  intros Hb Hr Hm. simpl.
  unfold select_master. rewrite bind_run. unfold emit at 1. simpl.
  rewrite Hb, Hr, Hm.
  unfold bind, get, when, log, emit, modify, ret. simpl.
  destruct (String.eqb_spec (bestGM p)
              (default "" (idsToClients acc !! ptp.GrandmasterIdentity best)))
    as [Heq|Hne]; simpl.
  - replace (set_bestGM _ p) with p by (rewrite <- Heq; by destruct p).
    by destruct (discipline bm p).
  - by destruct (discipline bm _).
Qed.

(** ** [processResults] in stages *)

Lemma backoffs_cover_range p rg results :
  backoffs_cover p results →
  ∀ a r, (a, r) ∈ range rg _ results → is_Some (backoff p !! a).
Proof. intros Hc a r Hin%range_elem. apply Hc. eauto. Qed.

Lemma aggregate_all_done p rg now results :
  backoffs_cover p results →
  (aggregate_all rg results (set_lastTick now p)).2 =
  Done (candidates p rg results) (aggregated p rg now results).
Proof.
  intros Hc. unfold aggregate_all. rewrite aggregate_loop_done; [done|].
  by apply backoffs_cover_range.
Qed.

Lemma processResults_run rg now results p :
  backoffs_cover p results →
  let acc := candidates p rg results in
  let p1 := aggregated p rg now results in
  processResults rg now results p =
  ((record_tick now p).1
   ++ (aggregate_all rg results (set_lastTick now p)).1
   ++ [EvSetCounter "ptp.sptp.gms.total" (Z.of_nat (size results));
       EvSetCounter "ptp.sptp.gms.available_pct"
         (if negb (Z.of_nat (size results) =? 0)
          then available_pct (gmsAvailable acc) (Z.of_nat (size results))
          else 0)]
   ++ (select_master results acc p1).1,
   (select_master results acc p1).2).
Proof.
  intros Hc acc p1. unfold processResults.
  rewrite bind_run.
  pose proof (record_tick_done now p) as Ht.
  destruct (record_tick now p) as [t0 o0]. simpl in Ht. subst o0. simpl.
  rewrite bind_run.
  pose proof (aggregate_all_done p rg now results Hc) as Ha.
  destruct (aggregate_all rg results (set_lastTick now p)) as [t1 o1].
  simpl in Ha. subst o1. simpl.
  unfold publish_counters. fold acc p1.
  rewrite bind_run. unfold bind at 1, emit. simpl.
  reflexivity.
Qed.

(** ** The fan-out *)

Lemma spawn_run ti addr c (results : gmap string RunResult) p b :
  backoff p !! addr = Some b →
  spawn ti addr c results p =
  (if active b then [] else [EvGoRunOnce addr (ExchangeTimeout (cfg p))],
   Done (<[addr := exchange_result ti p addr c b]> results) p).
Proof.
  intros Hb. unfold spawn, exchange_result, backoff_at, bind, get, emit, ret.
  simpl. rewrite Hb. simpl. by destruct (active b).
Qed.

Lemma fan_out_loop_done ti (l : list (string * Client)) acc p :
  (∀ a c, (a, c) ∈ l → is_Some (backoff p !! a)) →
  (for_range l (spawn ti) acc p).2 = Done (foldl (fan_out_step ti p) acc l) p.
Proof.
  revert acc. induction l as [|[a c] l IH]; intros acc Hdom; [done|].
  destruct (Hdom a c) as [b Hb]; [left|].
  cbn [for_range foldl]. rewrite bind_run, (spawn_run _ _ _ _ _ b Hb). simpl.
  rewrite IH by (intros a' c' ?; apply (Hdom a' c'); by right).
  assert (fan_out_step ti p acc (a, c) = <[a := exchange_result ti p a c b]> acc)
    as -> by (unfold fan_out_step; simpl; by rewrite Hb).
  done.
Qed.

Lemma fan_out_loop_silent ti (l : list (string * Client)) acc p addr :
  addr ∉ l.*1 →
  List.filter (is_exchange addr) (for_range l (spawn ti) acc p).1 = [].
Proof.
  revert acc. induction l as [|[a c] l IH]; intros acc Hnot; [done|].
  simpl in Hnot. apply not_elem_of_cons in Hnot as [Hne Hnot].
  cbn [for_range]. rewrite bind_run.
  destruct (backoff p !! a) as [b|] eqn:Hb.
  - rewrite (spawn_run _ _ _ _ _ b Hb). simpl.
    rewrite List.filter_app, IH by done.
    destruct (active b); simpl; [done|].
    destruct (String.eqb_spec a addr); [congruence|done].
  - unfold spawn, backoff_at, bind, get, panic. simpl. by rewrite Hb.
Qed.

(** The exchange tasks started for one peer: none when its backoff is
    active, one with the configured timeout otherwise. *)
Lemma fan_out_loop_exchanges ti (l : list (string * Client)) acc p addr c b :
  NoDup l.*1 →
  (∀ a c, (a, c) ∈ l → is_Some (backoff p !! a)) →
  (addr, c) ∈ l → backoff p !! addr = Some b →
  List.filter (is_exchange addr) (for_range l (spawn ti) acc p).1 =
  if active b then [] else [EvGoRunOnce addr (ExchangeTimeout (cfg p))].
Proof.
  revert acc. induction l as [|[a' c'] l IH]; intros acc Hnd Hdom Hin Hb.
  - by apply elem_of_nil in Hin.
  - simpl in Hnd. apply NoDup_cons in Hnd as [Hfresh Hnd].
    destruct (Hdom a' c') as [b' Hb']; [left|].
    cbn [for_range]. rewrite bind_run, (spawn_run _ _ _ _ _ b' Hb'). simpl.
    rewrite List.filter_app.
    apply elem_of_cons in Hin as [Heq|Hin].
    + inversion Heq; subst a' c'. assert (b' = b) as -> by congruence.
      rewrite fan_out_loop_silent by done. rewrite app_nil_r.
      destruct (active b); simpl; [done|]. by rewrite String.eqb_refl.
    + assert (a' ≠ addr) as Hne.
      { intros ->. apply Hfresh. by apply (list_elem_of_fmap_2 fst l (addr, c)). }
      rewrite IH; [|done|intros a2 c2 ?; apply (Hdom a2 c2); by right|done..].
      destruct (active b'); simpl; [done|].
      by destruct (String.eqb_spec a' addr).
Qed.

Lemma fan_out_step_other ti p (l : list (string * Client)) acc a :
  a ∉ l.*1 → foldl (fan_out_step ti p) acc l !! a = acc !! a.
Proof.
  revert acc. induction l as [|[a' c'] l IH]; intros acc Hnot; [done|].
  simpl in *. apply not_elem_of_cons in Hnot as [Hne Hnot].
  rewrite IH by done. unfold fan_out_step. simpl.
  destruct (backoff p !! a'); [|done]. by rewrite lookup_insert_ne.
Qed.

Lemma fan_out_step_at ti p (l : list (string * Client)) acc a c :
  NoDup l.*1 → (a, c) ∈ l →
  foldl (fan_out_step ti p) acc l !! a =
  match backoff p !! a with
  | Some b => Some (exchange_result ti p a c b)
  | None => acc !! a
  end.
Proof.
  revert acc. induction l as [|[a' c'] l IH]; intros acc Hnd Hin.
  - by apply elem_of_nil in Hin.
  - simpl in *. apply NoDup_cons in Hnd as [Hfresh Hnd].
    apply elem_of_cons in Hin as [Heq|Hin].
    + inversion Heq; subst a' c'. rewrite fan_out_step_other by done.
      unfold fan_out_step. simpl.
      destruct (backoff p !! a); [|done]. by rewrite lookup_insert_eq.
    + assert (a ≠ a') as Hne.
      { intros ->. apply Hfresh. by apply (list_elem_of_fmap_2 fst l (a', c)). }
      rewrite IH by done. unfold fan_out_step. simpl.
      destruct (backoff p !! a), (backoff p !! a'); try done.
      by rewrite lookup_insert_ne.
Qed.

Lemma peers_ok_cover p a (c : Client) :
  peers_ok p → clients p !! a = Some c → is_Some (backoff p !! a).
Proof.
  intros [Hb _] Hc. apply elem_of_dom. rewrite Hb. apply elem_of_dom. eauto.
Qed.

Lemma fan_out_done ti p :
  peers_ok p → (fan_out ti p).2 = Done (fan_out_results ti p) p.
Proof.
  intros Hok. unfold fan_out. rewrite bind_run. unfold get. simpl.
  rewrite fan_out_loop_done.
  - f_equal. apply map_eq. intros a. unfold fan_out_results.
    rewrite map_lookup_imap.
    destruct (clients p !! a) as [c|] eqn:Hc; simpl.
    + rewrite (fan_out_step_at _ _ _ _ _ c);
        [|apply range_NoDup|by apply range_elem].
      destruct (peers_ok_cover p a c Hok Hc) as [b Hb]. by rewrite Hb.
    + rewrite fan_out_step_other; [done|].
      intros ([a' c] & -> & Hin%range_elem)%list_elem_of_fmap_1. simpl in Hc.
      congruence.
  - intros a c Hin%range_elem. by eapply peers_ok_cover.
Qed.

Lemma fan_out_events ti p : Forall (λ e, is_go e = true) (fan_out ti p).1.
Proof.
  unfold fan_out. rewrite bind_run. unfold get. simpl.
  generalize (range (range_of ti) Client (clients p)).
  generalize (∅ : gmap string RunResult).
  intros acc l. revert acc. induction l as [|[a c] l IH]; intros acc; [constructor|].
  cbn [for_range]. rewrite bind_run.
  destruct (backoff p !! a) as [b|] eqn:Hb.
  - rewrite (spawn_run _ _ _ _ _ b Hb). simpl. apply Forall_app. split; [|apply IH].
    destruct (active b); each_event.
  - unfold spawn, backoff_at, bind, get, panic. simpl. rewrite Hb. constructor.
Qed.

Lemma fan_out_cover ti p : peers_ok p → backoffs_cover p (fan_out_results ti p).
Proof.
  intros Hok a [r Hr]. unfold fan_out_results in Hr.
  rewrite map_lookup_imap in Hr.
  destruct (clients p !! a) as [c|] eqn:Hc; [|done].
  by eapply peers_ok_cover.
Qed.

(** A tick is its fan-out followed by [processResults] on the result map
    of the fan-out. *)
Lemma tick_run ti p :
  peers_ok p →
  runInternal_tick ti p =
  ((fan_out ti p).1
   ++ (processResults (range_of ti) (now_at ti) (fan_out_results ti p) p).1,
   (processResults (range_of ti) (now_at ti) (fan_out_results ti p) p).2).
Proof.
  intros Hok. unfold runInternal_tick. rewrite bind_run.
  pose proof (fan_out_done ti p Hok) as Hd.
  destruct (fan_out ti p) as [t o]. simpl in Hd. by subst o.
Qed.

(** ** Completion *)

Lemma winner_exists p rg results best :
  bmca_sound →
  bmca (announces (candidates p rg results))
       (localPrioMap (candidates p rg results)) = Some best →
  ∃ r bm,
    results !! default "" (idsToClients (candidates p rg results)
                             !! ptp.GrandmasterIdentity best) = Some r ∧
    Measurement r = Some bm ∧ Error r = None.
Proof.
  intros Hsound Hbest. apply Hsound in Hbest.
  unfold candidates in *. rewrite aggregate_loop_included in *.
  rewrite include_announces in Hbest. simpl in Hbest.
  apply list_elem_of_fmap_1 in Hbest as ([a m] & -> & Hin). simpl.
  destruct (include_ids_some p _ a m Hin) as [a' Ha']. rewrite Ha'. simpl.
  apply include_ids_inv in Ha' as (m' & Hin' & _).
  apply included_elem in Hin' as (r & Hr%range_elem & Hu).
  exists r, m'. split; [done|]. unfold usable in Hu.
  by destruct (Error r).
Qed.

Lemma discipline_done bm p :
  ∃ p', (discipline bm p).2 = Done tt p' ∧ same_peers p p' ∧
        bestGM p' = bestGM p.
Proof.
  destruct (Sample (pi p) (Offset bm) (uint64 (UnixNano (Timestamp bm))))
    as [[freqAdj st] pi'] eqn:Hs.
  destruct st.
  - rewrite (discipline_other _ _ _ _ _ Hs) by done. simpl.
    eexists; split; [reflexivity|]. by unfold same_peers.
  - rewrite (discipline_jump _ _ _ _ Hs). simpl.
    eexists; split; [reflexivity|]. by unfold same_peers.
  - rewrite (discipline_locked _ _ _ _ Hs). simpl.
    eexists; split; [reflexivity|]. by unfold same_peers.
  - rewrite (discipline_other _ _ _ _ _ Hs) by done. simpl.
    eexists; split; [reflexivity|]. by unfold same_peers.
Qed.

Lemma select_master_done p0 rg results p :
  bmca_sound →
  ∃ p', (select_master results (candidates p0 rg results) p).2 = Done tt p' ∧
        same_peers p p'.
Proof.
  intros Hsound.
  destruct (bmca (announces (candidates p0 rg results))
              (localPrioMap (candidates p0 rg results))) as [best|] eqn:Hb.
  - destruct (winner_exists _ _ _ _ Hsound Hb) as (r & bm & Hr & Hm & _).
    rewrite (select_master_some _ _ _ _ _ _ Hb Hr Hm). simpl.
    destruct (discipline_done bm
                (set_bestGM (default "" (idsToClients (candidates p0 rg results)
                                           !! ptp.GrandmasterIdentity best)) p))
      as (p' & -> & Hsame & _).
    exists p'. split; [done|]. apply Hsame.
  - rewrite (select_master_none _ _ _ Hb). simpl.
    eexists; split; [reflexivity|]. by unfold same_peers.
Qed.

Lemma processResults_done p rg now results :
  bmca_sound → backoffs_cover p results →
  ∃ p', (processResults rg now results p).2 = Done tt p' ∧
        same_peers (aggregated p rg now results) p'.
Proof.
  intros Hsound Hc. rewrite (processResults_run _ _ _ _ Hc). simpl.
  apply select_master_done, Hsound.
Qed.

Lemma backoff_loop_dom (l : list (string * RunResult)) (bk : gmap string B) :
  dom (foldl backoff_step bk l) = dom bk.
Proof.
  revert bk. induction l as [|e l IH]; intros bk; [done|].
  simpl. rewrite IH. unfold backoff_step. apply dom_alter_L.
Qed.

Lemma peers_ok_aggregated p rg now results :
  peers_ok p → peers_ok (aggregated p rg now results).
Proof.
  intros [Hb Hp]. split; simpl; [|done]. by rewrite backoff_loop_dom.
Qed.

Lemma peers_ok_same p p' : same_peers p p' → peers_ok p → peers_ok p'.
Proof.
  intros (_ & Hc & Hp & Hb & _) [??]. split; by rewrite ?Hc, ?Hp, ?Hb.
Qed.

Lemma tick_done ti p :
  bmca_sound → peers_ok p →
  ∃ p', (runInternal_tick ti p).2 = Done tt p' ∧ peers_ok p' ∧
        cfg p' = cfg p ∧ lastTick p' = now_at ti.
Proof.
  intros Hsound Hok. rewrite (tick_run _ _ Hok). simpl.
  destruct (processResults_done p (range_of ti) (now_at ti)
              (fan_out_results ti p) Hsound (fan_out_cover ti p Hok))
    as (p' & -> & Hsame).
  exists p'. split; [done|]. split.
  - eapply peers_ok_same; [done|]. by apply peers_ok_aggregated.
  - destruct Hsame as (Hcfg & _ & _ & _ & Hlast). split; [apply Hcfg|apply Hlast].
Qed.

(** ** The main loop *)

(** A tick that returns is followed by the rest of the loop. *)
Lemma main_loop_timer ti sel p t p' :
  runInternal_tick ti p = (t, Done tt p') →
  main_loop (timerC ti :: sel) p =
  (EvTimerReset (Interval (cfg p)) :: t ++ (main_loop sel p').1,
   (main_loop sel p').2).
Proof.
  intros Ht. cbn [main_loop]. unfold bind, get, emit. simpl. rewrite Ht.
  by destruct (main_loop sel p').
Qed.

(** ** Events of the stages *)

Lemma discipline_events bm p :
  Forall (λ e, selection_event e = true ∧ is_bmca e = false) (discipline bm p).1.
Proof.
  destruct (Sample (pi p) (Offset bm) (uint64 (UnixNano (Timestamp bm))))
    as [[freqAdj st] pi'] eqn:Hs.
  destruct st.
  - rewrite (discipline_other _ _ _ _ _ Hs) by done. each_event.
  - rewrite (discipline_jump _ _ _ _ Hs). simpl. unfold error_log.
    destruct (bool_decide _); each_event.
  - rewrite (discipline_locked _ _ _ _ Hs). simpl. unfold error_log.
    repeat (destruct (bool_decide _) || destruct (isSysClock _)); each_event.
  - rewrite (discipline_other _ _ _ _ _ Hs) by done. each_event.
Qed.

(** Selection starts with the call of BMCA and calls it only once. *)
Lemma select_master_head results acc p :
  ∃ t, (select_master results acc p).1
       = EvBMCA (announces acc) (localPrioMap acc) :: t ∧
       Forall (λ e, selection_event e = true ∧ is_bmca e = false) t.
Proof.
  destruct (bmca (announces acc) (localPrioMap acc)) as [best|] eqn:Hb.
  - destruct (results !! default "" (idsToClients acc
                                       !! ptp.GrandmasterIdentity best))
      as [r|] eqn:Hr.
    + destruct (Measurement r) as [bm|] eqn:Hm.
      * rewrite (select_master_some _ _ _ _ _ _ Hb Hr Hm). cbn [fst].
        eexists. split; [reflexivity|]. apply Forall_app. split.
        { destruct (negb _); each_event. }
        apply List.Forall_cons; [done|]. apply discipline_events.
      * unfold select_master, bind, emit, panic. simpl. rewrite Hb, Hr, Hm.
        eexists. split; [reflexivity|]. constructor.
    + unfold select_master, bind, emit, panic. simpl. rewrite Hb, Hr.
      eexists. split; [reflexivity|]. constructor.
  - rewrite (select_master_none _ _ _ Hb). cbn [fst].
    eexists. split; [reflexivity|]. each_event.
Qed.

Lemma select_master_events results acc p :
  Forall (λ e, selection_event e = true) (select_master results acc p).1.
Proof.
  destruct (select_master_head results acc p) as (t & -> & Ht).
  apply List.Forall_cons; [done|].
  eapply Forall_impl; [exact Ht|]. by intros ? [??].
Qed.

(** ** Backoff bookkeeping *)

Lemma processResults_backoff_calls rg now results p addr res :
  backoffs_cover p results →
  results !! addr = Some res →
  List.filter (is_backoff_call addr) (processResults rg now results p).1 =
  [backoff_call addr res].
Proof.
  intros Hc Hres. rewrite (processResults_run _ _ _ _ Hc). cbn [fst].
  rewrite !List.filter_app.
  rewrite (filter_none _ _ _ (record_tick_events now p))
    by (intros []; done).
  rewrite (filter_none _ _ _ (select_master_events _ _ _))
    by (intros []; done).
  unfold aggregate_all. cbn [List.filter is_backoff_call app].
  rewrite (aggregate_loop_backoff_calls _ _ _ addr res);
    [done|apply range_NoDup|by apply backoffs_cover_range|by apply range_elem].
Qed.

(** C3. During the aggregation of a tick, every peer of the result map has
    exactly one call made on its backoff: [reset] when its result has no
    error, [tick] alone when the error is the backoff sentinel, and [bump]
    for any other error; the peer's backoff after the tick is the one that
    call returns. *)
Theorem processResults_backoff rg now results p addr res b :
  bmca_sound →
  backoffs_cover p results →
  results !! addr = Some res →
  backoff p !! addr = Some b →
  ∃ t p',
    processResults rg now results p = (t, Done tt p') ∧
    match Error res with
    | None =>
        List.filter (is_backoff_call addr) t = [EvBackoffReset addr] ∧
        backoff p' !! addr = Some (reset b)
    | Some err =>
        if errors_Is_errBackoff err then
          List.filter (is_backoff_call addr) t = [EvBackoffTick addr] ∧
          backoff p' !! addr = Some (tick b).2
        else
          List.filter (is_backoff_call addr) t = [EvBackoffBump addr] ∧
          backoff p' !! addr = Some (bump b).2
    end.
Proof.
  intros Hsound Hc Hres Hb.
  destruct (processResults_done p rg now results Hsound Hc)
    as (p' & Hdone & Hsame).
  pose proof (processResults_backoff_calls rg now results p addr res Hc Hres)
    as Hcalls.
  destruct (processResults rg now results p) as [t o]. simpl in *. subst o.
  exists t, p'. split; [done|].
  assert (backoff p' !! addr = Some (backoff_update res b)) as Hb'.
  { destruct Hsame as (_ & _ & _ & -> & _). simpl.
    apply backoff_loop_at; [apply range_NoDup|by apply range_elem|done]. }
  unfold backoff_call in Hcalls. unfold backoff_update in Hb'.
  destruct (Error res) as [err|]; [|done].
  by destruct (errors_Is_errBackoff err).
Qed.

(** ** A tick without winner *)

(** Before selection a tick calls neither servo nor clock. *)
Lemma before_selection_calm ti p :
  peers_ok p →
  Forall (λ e, is_servo_sample e = false ∧ is_clock_call e = false)
    ((fan_out ti p).1
     ++ (record_tick (now_at ti) p).1
     ++ (aggregate_all (range_of ti) (fan_out_results ti p)
           (set_lastTick (now_at ti) p)).1).
Proof.
  intros Hok. rewrite !Forall_app. split; [|split].
  - eapply Forall_impl; [apply fan_out_events|]. by intros [].
  - eapply Forall_impl; [apply record_tick_events|]. by intros [].
  - eapply Forall_impl; [apply aggregate_loop_events|]. by intros [].
Qed.

(** C5. On a tick in which BMCA returns no winner, the stored best master
    is cleared to the empty string, the servo is not sampled and the clock
    is neither stepped nor adjusted (both are as before the tick); the tick
    returns and the loop goes on with the next selection. *)
Theorem tick_without_winner ti sel p :
  peers_ok p →
  bmca (announces (candidates p (range_of ti) (fan_out_results ti p)))
       (localPrioMap (candidates p (range_of ti) (fan_out_results ti p)))
    = None →
  ∃ t p',
    runInternal_tick ti p = (t, Done tt p') ∧
    bestGM p' = "" ∧
    Forall (λ e, is_servo_sample e = false ∧ is_clock_call e = false) t ∧
    pi p' = pi p ∧ clock p' = clock p ∧
    main_loop (timerC ti :: sel) p =
      (EvTimerReset (Interval (cfg p)) :: t ++ (main_loop sel p').1,
       (main_loop sel p').2).
Proof.
  intros Hok Hnone.
  pose proof (tick_run ti p Hok) as Htick.
  rewrite (processResults_run _ _ _ _ (fan_out_cover ti p Hok)) in Htick.
  cbn [fst snd] in Htick.
  rewrite (select_master_none _ _ _ Hnone) in Htick. cbn [fst snd] in Htick.
  eexists _, _. split; [exact Htick|].
  split; [done|]. split.
  - pose proof (before_selection_calm ti p Hok) as Hcalm.
    rewrite !Forall_app in *. destruct Hcalm as (? & ? & ?).
    repeat split; try done; each_event.
  - split; [done|]. split; [done|].
    by apply main_loop_timer.
Qed.

(** ** A tick with a winner *)

Lemma filter_false (f : event → bool) (t : list event) :
  Forall (λ e, f e = false) t → List.filter f t = [].
Proof.
  intros Ht. induction Ht as [|e t He Ht IH]; [done|]. simpl. by rewrite He.
Qed.

Lemma winner_inv p rg results bm :
  winner p rg results = Some bm →
  ∃ best r,
    bmca (announces (candidates p rg results))
         (localPrioMap (candidates p rg results)) = Some best ∧
    results !! default "" (idsToClients (candidates p rg results)
                             !! ptp.GrandmasterIdentity best) = Some r ∧
    Measurement r = Some bm.
Proof.
  unfold winner. intros Hw.
  destruct (bmca _ _) as [best|]; [|done].
  destruct (results !! _) as [r|] eqn:Hr; [|done].
  by exists best, r.
Qed.

(** Up to the sampling of the servo, a tick with a winner makes no call on
    servo or clock; it ends with the discipline for the winner. *)
Lemma tick_selected ti p bm :
  peers_ok p →
  winner p (range_of ti) (fan_out_results ti p) = Some bm →
  ∃ t0 p1,
    runInternal_tick ti p = (t0 ++ (discipline bm p1).1, (discipline bm p1).2) ∧
    Forall (λ e, is_servo_sample e = false ∧ is_clock_call e = false) t0 ∧
    pi p1 = pi p ∧ clock p1 = clock p.
Proof.
  intros Hok (best & r & Hb & Hr & Hm)%winner_inv.
  pose proof (tick_run ti p Hok) as Htick.
  rewrite (processResults_run _ _ _ _ (fan_out_cover ti p Hok)) in Htick.
  cbn [fst snd] in Htick.
  rewrite (select_master_some _ _ _ _ _ _ Hb Hr Hm) in Htick.
  cbn [fst snd] in Htick.
  set (bestAddr := default "" (idsToClients _ !! ptp.GrandmasterIdentity best)) in *.
  set (acc := candidates p (range_of ti) (fan_out_results ti p)) in *.
  set (p0 := aggregated p (range_of ti) (now_at ti) (fan_out_results ti p)) in *.
  exists ((fan_out ti p).1 ++ (record_tick (now_at ti) p).1
          ++ (aggregate_all (range_of ti) (fan_out_results ti p)
                (set_lastTick (now_at ti) p)).1
          ++ [EvSetCounter "ptp.sptp.gms.total"
                (Z.of_nat (size (fan_out_results ti p)));
              EvSetCounter "ptp.sptp.gms.available_pct"
                (if negb (Z.of_nat (size (fan_out_results ti p)) =? 0)
                 then available_pct (gmsAvailable acc)
                        (Z.of_nat (size (fan_out_results ti p)))
                 else 0)]
          ++ [EvBMCA (announces acc) (localPrioMap acc)]
          ++ (if negb (String.eqb (bestGM p0) bestAddr)
              then [EvLog LWarning "new best master selected: %q (%s)"]
              else [])
          ++ [EvLog LDebug "best master %q (%s)"]),
         (set_bestGM bestAddr p0).
  split; [|split].
  - rewrite Htick. f_equal. rewrite <- !app_assoc. reflexivity.
  - pose proof (before_selection_calm ti p Hok) as Hcalm.
    rewrite !Forall_app in *. destruct Hcalm as (? & ? & ?).
    repeat split; try done; try (by each_event).
    destruct (negb (String.eqb _ _)); each_event.
  - done.
Qed.

Lemma error_log_calm err format :
  Forall (λ e, is_servo_sample e = false ∧ is_clock_call e = false)
    (error_log err format).
Proof. unfold error_log. destruct (bool_decide _); each_event. Qed.

Lemma error_log_elem err format :
  is_Some err → EvLog LError format ∈ error_log err format.
Proof.
  intros Herr. unfold error_log. rewrite bool_decide_eq_true_2 by done.
  apply list_elem_of_singleton. done.
Qed.

(** C1. On a tick with a winner the servo is sampled once, with the
    winner's offset and timestamp, and the returned state decides what is
    done to the clock.  Jump: the only call on the clock is a step by
    [-1 * offset], the negation of the offset.  Locked: a frequency
    adjustment by the negation of the returned correction, followed by
    [SetSync] exactly when the clock is the system clock.  Any other state:
    no call on the clock.  A step or an adjustment that fails is logged at
    Error level; the tick returns all the same and the loop goes on. *)
Theorem tick_discipline ti sel p bm freqAdj st pi' :
  peers_ok p →
  winner p (range_of ti) (fan_out_results ti p) = Some bm →
  Sample (pi p) (Offset bm) (uint64 (UnixNano (Timestamp bm)))
    = (freqAdj, st, pi') →
  ∃ t p',
    runInternal_tick ti p = (t, Done tt p') ∧
    List.filter is_servo_sample t =
      [EvSample (Offset bm) (uint64 (UnixNano (Timestamp bm)))] ∧
    pi p' = pi' ∧
    match st with
    | servo.StateJump =>
        let d := int64_mul (-1) (Offset bm) in
        List.filter is_clock_call t = [EvStep d] ∧
        clock p' = (Step (clock p) d).2 ∧
        (min_int64 < Offset bm ≤ max_int64 → d = - Offset bm) ∧
        (is_Some (Step (clock p) d).1 →
         EvLog LError "failed to step freq by %v: %v" ∈ t)
    | servo.StateLocked =>
        let adj := AdjFreqPPB (clock p) (PrimFloat.opp freqAdj) in
        List.filter is_clock_call t =
          EvAdjFreqPPB (PrimFloat.opp freqAdj)
          :: (if isSysClock adj.2 then [EvSetSync] else []) ∧
        clock p' = (if isSysClock adj.2 then (SetSync adj.2).2 else adj.2) ∧
        (is_Some adj.1 →
         EvLog LError "failed to adjust freq to %v: %v" ∈ t)
    | _ => List.filter is_clock_call t = [] ∧ clock p' = clock p
    end ∧
    main_loop (timerC ti :: sel) p =
      (EvTimerReset (Interval (cfg p)) :: t ++ (main_loop sel p').1,
       (main_loop sel p').2).
Proof.
  intros Hok Hw Hs.
  destruct (tick_selected ti p bm Hok Hw) as (t0 & p1 & Htick & Hcalm & Hpi & Hclock).
  assert (List.filter is_servo_sample t0 = []) as Hf1.
  { apply filter_false. eapply Forall_impl; [exact Hcalm|]. by intros ? [??]. }
  assert (List.filter is_clock_call t0 = []) as Hf2.
  { apply filter_false. eapply Forall_impl; [exact Hcalm|]. by intros ? [??]. }
  rewrite <- Hpi, <- Hclock in *. clear Hpi Hclock.
  destruct st.
  - rewrite (discipline_other _ _ _ _ _ Hs) in Htick by done.
    cbn [fst snd] in Htick. eexists _, _. split; [exact Htick|].
    rewrite !List.filter_app, Hf1, Hf2.
    repeat split; try done. by apply main_loop_timer.
  - rewrite (discipline_jump _ _ _ _ Hs) in Htick.
    cbn [fst snd] in Htick. eexists _, _. split; [exact Htick|].
    rewrite !List.filter_app, Hf1, Hf2.
    pose proof (error_log_calm (Step (clock p1) (int64_mul (-1) (Offset bm))).1
                  "failed to step freq by %v: %v") as Hlog.
    rewrite (filter_false is_servo_sample (error_log _ _))
      by (eapply Forall_impl; [exact Hlog|]; by intros ? [??]).
    rewrite (filter_false is_clock_call (error_log _ _))
      by (eapply Forall_impl; [exact Hlog|]; by intros ? [??]).
    repeat split; try done.
    + apply int64_neg.
    + intros Herr. rewrite !elem_of_app. right. right.
      by apply error_log_elem.
    + by apply main_loop_timer.
  - pose proof (discipline_locked _ _ _ _ Hs) as Hd. cbn zeta in Hd.
    rewrite Hd in Htick. clear Hd.
    cbn [fst snd] in Htick. eexists _, _. split; [exact Htick|].
    rewrite !List.filter_app, Hf1, Hf2.
    pose proof (error_log_calm (AdjFreqPPB (clock p1) (PrimFloat.opp freqAdj)).1
                  "failed to adjust freq to %v: %v") as Hlog.
    rewrite (filter_false is_servo_sample (error_log _ "failed to adjust freq to %v: %v"))
      by (eapply Forall_impl; [exact Hlog|]; by intros ? [??]).
    rewrite (filter_false is_clock_call (error_log _ "failed to adjust freq to %v: %v"))
      by (eapply Forall_impl; [exact Hlog|]; by intros ? [??]).
    assert (∀ k : K,
              List.filter is_servo_sample
                (if isSysClock k
                 then EvSetSync :: error_log (SetSync k).1
                        "failed to set sys clock sync state"
                 else []) = [] ∧
              List.filter is_clock_call
                (if isSysClock k
                 then EvSetSync :: error_log (SetSync k).1
                        "failed to set sys clock sync state"
                 else []) = (if isSysClock k then [EvSetSync] else []))
      as Hsync.
    { intros k. destruct (isSysClock k); [|done]. simpl.
      pose proof (error_log_calm (SetSync k).1
                    "failed to set sys clock sync state") as Hlog'.
      rewrite (filter_false is_servo_sample (error_log _ _))
        by (eapply Forall_impl; [exact Hlog'|]; by intros ? [??]).
      rewrite (filter_false is_clock_call (error_log _ _))
        by (eapply Forall_impl; [exact Hlog'|]; by intros ? [??]).
      done. }
    destruct (Hsync (AdjFreqPPB (clock p1) (PrimFloat.opp freqAdj)).2)
      as [-> ->].
    repeat split; try done.
    + intros Herr. rewrite !elem_of_app. right. right. left.
      by apply error_log_elem.
    + by apply main_loop_timer.
  - rewrite (discipline_other _ _ _ _ _ Hs) in Htick by done.
    cbn [fst snd] in Htick. eexists _, _. split; [exact Htick|].
    rewrite !List.filter_app, Hf1, Hf2.
    repeat split; try done. by apply main_loop_timer.
Qed.

(** ** The published counters *)

Lemma candidates_available p rg results :
  gmsAvailable (candidates p rg results) =
  Z.of_nat (length (included (map_to_list results))).
Proof.
  unfold candidates. rewrite aggregate_loop_included, include_available.
  cbn [gmsAvailable aggregate0]. rewrite Z.add_0_l. f_equal.
  unfold included.
  apply Permutation_length, omap_Permutation, range_perm.
Qed.

Lemma record_event_counter key e :
  key ≠ "ptp.sptp.tick_duration_ns" →
  record_event e = true → is_counter key e = false.
Proof.
  intros Hkey. destruct e; simpl; try done.
  intros ->%String.eqb_eq. apply String.eqb_neq. congruence.
Qed.

(** The two counters of a tick: the total is the number of entries of the
    result map; the percentage is computed in [float64] from the number of
    usable results and the total, and is 0 for an empty map. *)
Lemma processResults_counters rg now results p :
  backoffs_cover p results →
  let total := Z.of_nat (size results) in
  let available := Z.of_nat (length (included (map_to_list results))) in
  List.filter (is_counter "ptp.sptp.gms.total")
    (processResults rg now results p).1
    = [EvSetCounter "ptp.sptp.gms.total" total] ∧
  List.filter (is_counter "ptp.sptp.gms.available_pct")
    (processResults rg now results p).1
    = [EvSetCounter "ptp.sptp.gms.available_pct"
         (if total =? 0 then 0 else available_pct available total)].
Proof.
  intros Hc total available.
  rewrite (processResults_run _ _ _ _ Hc). cbn [fst].
  rewrite !List.filter_app.
  rewrite !(filter_none _ _ _ (record_tick_events now p))
    by (intros e; by apply record_event_counter).
  rewrite !(filter_none _ _ _ (select_master_events _ _ _)) by (by intros []).
  unfold aggregate_all.
  rewrite !(filter_none _ _ _ (aggregate_loop_events _ _ _)) by (by intros []).
  rewrite candidates_available. fold total available.
  split; [done|]. simpl. by destruct (total =? 0).
Qed.

(** The result map of a tick has one entry per session, suppressed or
    not. *)
Lemma fan_out_results_size ti p :
  peers_ok p → size (fan_out_results ti p) = size (clients p).
Proof.
  intros Hok. rewrite <- !size_dom. f_equal. apply set_eq. intros a.
  rewrite !elem_of_dom. unfold fan_out_results. rewrite map_lookup_imap.
  destruct (clients p !! a) as [c|] eqn:Hcl; simpl.
  - destruct (peers_ok_cover p a c Hok Hcl) as [b ->]. simpl.
    split; eauto.
  - split; by intros [??].
Qed.

(** ** What BMCA is given *)

Lemma usable_iff r m :
  usable r = Some m ↔ Error r = None ∧ Measurement r = Some m.
Proof.
  unfold usable. destruct (Error r) as [err|].
  - split; [done|]. by intros [??].
  - split; [done|]. by intros [_ ?].
Qed.

Lemma processResults_bmca_call rg now results p :
  backoffs_cover p results →
  List.filter is_bmca (processResults rg now results p).1 =
  [EvBMCA (announces (candidates p rg results))
          (localPrioMap (candidates p rg results))].
Proof.
  intros Hc. rewrite (processResults_run _ _ _ _ Hc). cbn [fst].
  rewrite !List.filter_app.
  rewrite (filter_none _ _ _ (record_tick_events now p)) by (by intros []).
  unfold aggregate_all.
  rewrite (filter_none _ _ _ (aggregate_loop_events _ _ _)) by (by intros []).
  cbn [List.filter is_bmca app].
  destruct (select_master_head results (candidates p rg results)
              (aggregated p rg now results)) as (t & -> & Ht).
  cbn [List.filter is_bmca]. f_equal. apply filter_false.
  eapply Forall_impl; [exact Ht|]. by intros ? [??].
Qed.

Lemma candidates_announces p rg results :
  announces (candidates p rg results) ≡ₚ
  (λ am, Announce am.2) <$> included (map_to_list results).
Proof.
  unfold candidates. rewrite aggregate_loop_included, include_announces.
  simpl. apply fmap_Permutation. unfold included.
  apply omap_Permutation, range_perm.
Qed.

Lemma included_results rg results a m :
  (a, m) ∈ included (range rg _ results) ↔
  ∃ r, results !! a = Some r ∧ Error r = None ∧ Measurement r = Some m.
Proof.
  rewrite included_elem. split.
  - intros (r & Hin%range_elem & Hu%usable_iff). eauto.
  - intros (r & Hr & Hu). exists r. split; [by apply range_elem|].
    by apply usable_iff.
Qed.

(** A later entry that advertises another identity leaves the priority
    stored for an identity as it is. *)
Lemma include_prio_other p acc (ams : list (string * MeasurementResult)) id :
  (∀ am, am ∈ ams → ptp.GrandmasterIdentity (Announce am.2) ≠ id) →
  localPrioMap (foldl (include p) acc ams) !! id = localPrioMap acc !! id.
Proof.
  revert acc. induction ams as [|[a m] ams IH]; intros acc Hother; [done|].
  cbn [foldl]. rewrite IH.
  - unfold include. cbn [localPrioMap fst snd].
    apply lookup_insert_ne. apply (Hother (a, m)). left.
  - intros am Hin. apply Hother. by right.
Qed.

(** The priority stored for an identity is that of the peer visited last
    among the included peers that advertise it. *)
Lemma include_prio_last p acc (pre post : list (string * MeasurementResult))
    a m :
  (∀ am, am ∈ post →
         ptp.GrandmasterIdentity (Announce am.2)
           ≠ ptp.GrandmasterIdentity (Announce m)) →
  localPrioMap (foldl (include p) acc (pre ++ (a, m) :: post))
    !! ptp.GrandmasterIdentity (Announce m)
  = Some (priority_of p a).
Proof.
  intros Hother. rewrite foldl_app. cbn [foldl].
  rewrite (include_prio_other _ _ _ _ Hother).
  unfold include at 1. cbn [localPrioMap fst snd].
  apply lookup_insert_eq.
Qed.

Lemma backoffs_cover_dec p results :
  bool_decide (dom results ⊆ dom (backoff p)) = true →
  backoffs_cover p results.
Proof.
  intros Hsub%bool_decide_eq_true addr Hin%elem_of_dom.
  apply elem_of_dom. by apply Hsub.
Qed.

(** C2 (amended). BMCA is called once per tick.  Its candidates are
    exactly the announce datasets of the peers whose result has no error
    and a measurement, in the order in which the loop visits these peers.
    The local-priority map has exactly the identities of these candidates
    as keys, and holds for each the configured priority of an included
    peer that advertises this identity: of the peer itself when no other
    included peer advertises the same identity, and otherwise of the one
    among them that the loop visits last. *)
Theorem processResults_candidates rg now results p :
  backoffs_cover p results →
  ∃ l prio,
    List.filter is_bmca (processResults rg now results p).1 = [EvBMCA l prio] ∧
    l ≡ₚ (λ am, Announce am.2) <$> included (map_to_list results) ∧
    (∀ id v, prio !! id = Some v →
       ∃ addr r m,
         results !! addr = Some r ∧ Error r = None ∧ Measurement r = Some m ∧
         ptp.GrandmasterIdentity (Announce m) = id ∧ v = priority_of p addr) ∧
    (∀ addr r m,
       results !! addr = Some r → Error r = None → Measurement r = Some m →
       is_Some (prio !! ptp.GrandmasterIdentity (Announce m)) ∧
       ((∀ addr' r' m',
           results !! addr' = Some r' → Error r' = None →
           Measurement r' = Some m' →
           ptp.GrandmasterIdentity (Announce m')
             = ptp.GrandmasterIdentity (Announce m) →
           addr' = addr) →
        prio !! ptp.GrandmasterIdentity (Announce m)
          = Some (priority_of p addr))) ∧
    l = (λ am, Announce am.2) <$> included (range rg _ results) ∧
    (∀ pre addr m post,
       included (range rg _ results) = pre ++ (addr, m) :: post →
       (∀ am, am ∈ post →
              ptp.GrandmasterIdentity (Announce am.2)
                ≠ ptp.GrandmasterIdentity (Announce m)) →
       prio !! ptp.GrandmasterIdentity (Announce m)
         = Some (priority_of p addr)).
Proof.
  intros Hc. eexists _, _.
  split; [by apply processResults_bmca_call|].
  split; [apply candidates_announces|].
  assert (∀ id v,
            localPrioMap (candidates p rg results) !! id = Some v →
            ∃ addr r m,
              results !! addr = Some r ∧ Error r = None ∧
              Measurement r = Some m ∧
              ptp.GrandmasterIdentity (Announce m) = id ∧
              v = priority_of p addr) as Hinv.
  { intros id v. unfold candidates. rewrite aggregate_loop_included.
    intros (a & m & Hin & Hid & Hv)%include_prio_inv.
    apply included_results in Hin as (r & Hr & He & Hm).
    by exists a, r, m. }
  split; [exact Hinv|].
  split; [|split].
  - intros addr r m Hr He Hm.
    assert (is_Some (localPrioMap (candidates p rg results)
                       !! ptp.GrandmasterIdentity (Announce m))) as [v Hv].
    { unfold candidates. rewrite aggregate_loop_included.
      apply (include_prio_some p _ addr). apply included_results. eauto. }
    split; [by exists v|].
    intros Huniq. rewrite Hv.
    destruct (Hinv _ _ Hv) as (addr' & r' & m' & Hr' & He' & Hm' & Hid & ->).
    by rewrite (Huniq addr' r' m' Hr' He' Hm' Hid).
  - unfold candidates. by rewrite aggregate_loop_included, include_announces.
  - intros pre addr m post Hsplit Hother.
    unfold candidates. rewrite aggregate_loop_included, Hsplit.
    by apply include_prio_last.
Qed.

(** ** The exchanges of a tick *)

Lemma processResults_no_exchange rg now results p addr :
  backoffs_cover p results →
  List.filter (is_exchange addr) (processResults rg now results p).1 = [].
Proof.
  intros Hc. rewrite (processResults_run _ _ _ _ Hc). cbn [fst].
  rewrite !List.filter_app.
  rewrite (filter_none _ _ _ (record_tick_events now p)) by (by intros []).
  rewrite (filter_none _ _ _ (select_master_events _ _ _)) by (by intros []).
  unfold aggregate_all.
  by rewrite (filter_none _ _ _ (aggregate_loop_events _ _ _)) by (by intros []).
Qed.

(** C4. In a tick, a peer whose backoff is active has no exchange task
    started for it; its entry in the result map is a result with its
    address and the backoff sentinel as error.  Every other peer has
    exactly one exchange task started, with the configured exchange
    timeout, and its entry is what that exchange returns.  This map is the
    one handed to [processResults]. *)
Theorem tick_fan_out ti p addr c b :
  peers_ok p →
  clients p !! addr = Some c →
  backoff p !! addr = Some b →
  (fan_out ti p).2 = Done (fan_out_results ti p) p ∧
  runInternal_tick ti p =
    ((fan_out ti p).1
     ++ (processResults (range_of ti) (now_at ti) (fan_out_results ti p) p).1,
     (processResults (range_of ti) (now_at ti) (fan_out_results ti p) p).2) ∧
  if active b then
    List.filter (is_exchange addr) (runInternal_tick ti p).1 = [] ∧
    fan_out_results ti p !! addr
      = Some (mkRunResult addr None (Some errBackoff))
  else
    List.filter (is_exchange addr) (runInternal_tick ti p).1
      = [EvGoRunOnce addr (ExchangeTimeout (cfg p))] ∧
    fan_out_results ti p !! addr
      = Some (RunOnce ti c (ExchangeTimeout (cfg p))).
Proof.
  intros Hok Hcl Hb.
  split; [by apply fan_out_done|]. split; [by apply tick_run|].
  assert (List.filter (is_exchange addr) (runInternal_tick ti p).1 =
          if active b then [] else [EvGoRunOnce addr (ExchangeTimeout (cfg p))])
    as Hcalls.
  { rewrite (tick_run _ _ Hok). cbn [fst]. rewrite List.filter_app.
    rewrite processResults_no_exchange by (by apply fan_out_cover).
    rewrite app_nil_r. unfold fan_out. rewrite bind_run. unfold get.
    cbn [fst snd app].
    apply (fan_out_loop_exchanges _ _ _ _ _ c); [apply range_NoDup| |by apply range_elem|done].
    intros a c' Hin%range_elem. by eapply peers_ok_cover. }
  assert (fan_out_results ti p !! addr = Some (exchange_result ti p addr c b))
    as Hres.
  { unfold fan_out_results. rewrite map_lookup_imap, Hcl. simpl. by rewrite Hb. }
  unfold exchange_result in Hres. by destruct (active b).
Qed.

(** ** Cancellation *)

(** The branch of the loop taken when the context is done. *)
Lemma main_loop_cancel ctxErr sel p :
  let mean := (MeanFreq (pi p)).1 in
  let adj := AdjFreqPPB (clock p) (PrimFloat.opp mean) in
  main_loop (ctxDone ctxErr :: sel) p =
  ([EvLog LDebug "cancelled main loop"; EvMeanFreq;
    EvLog LInfo "Existing, setting freq to: %v";
    EvAdjFreqPPB (PrimFloat.opp mean)]
   ++ error_log adj.1 "failed to adjust freq to %v: %v",
   Done (Some ctxErr) (set_clock adj.2 (set_pi (MeanFreq (pi p)).2 p))).
Proof.
  cbn [main_loop]. unfold bind, get, when, log, emit, modify, ret, error_log.
  simpl. destruct (MeanFreq (pi p)) as [mean pi']. simpl.
  rewrite mul_minus_one_opp.
  destruct (AdjFreqPPB (clock p) (PrimFloat.opp mean)) as [err k]. simpl.
  by destruct (bool_decide (is_Some err)).
Qed.

(** A loop that only ticks is still waiting afterwards. *)
Lemma main_loop_ticks tis p :
  bmca_sound → peers_ok p →
  ∃ t p', main_loop (timerC <$> tis) p = (t, Done None p') ∧ peers_ok p' ∧
          cfg p' = cfg p.
Proof.
  intros Hsound. revert p. induction tis as [|ti tis IH]; intros p Hok.
  - by exists [], p.
  - destruct (tick_done ti p Hsound Hok) as (p1 & Hd & Hok1 & Hcfg1 & _).
    destruct (runInternal_tick ti p) as [t1 o1] eqn:Ht. simpl in Hd. subst o1.
    destruct (IH p1 Hok1) as (t2 & p2 & Hl & Hok2 & Hcfg2).
    cbn [fmap list_fmap]. rewrite (main_loop_timer _ _ _ _ _ Ht), Hl. simpl.
    eexists _, p2. split; [done|]. split; [done|]. congruence.
Qed.

Lemma main_loop_app tis sel p t p' :
  main_loop (timerC <$> tis) p = (t, Done None p') →
  main_loop ((timerC <$> tis) ++ sel) p =
  (t ++ (main_loop sel p').1, (main_loop sel p').2).
Proof.
  revert p t. induction tis as [|ti tis IH]; intros p t Hl.
  - simpl in Hl. injection Hl as <- <-. simpl. by destruct (main_loop sel p).
  - cbn [fmap list_fmap app] in *.
    destruct (runInternal_tick ti p) as [t1 [[] p1|]] eqn:Ht.
    + rewrite (main_loop_timer _ _ _ _ _ Ht) in Hl.
      rewrite (main_loop_timer _ _ _ _ _ Ht).
      destruct (main_loop (timerC <$> tis) p1) as [t2 o2] eqn:Hl2.
      cbn [fst snd] in Hl. injection Hl as <- ->.
      rewrite (IH _ _ Hl2). cbn [fst snd].
      by rewrite app_comm_cons, app_assoc.
    + revert Hl. cbn [main_loop]. unfold bind, get, emit. simpl.
      by rewrite Ht.
Qed.

Lemma runInternal_run sel p :
  runInternal sel p =
  (EvSyncInterval (Seconds (Interval (cfg p))) :: EvNewTimer 0
   :: (main_loop sel (synced p)).1,
   (main_loop sel (synced p)).2).
Proof.
  unfold runInternal, bind, get, emit, modify. simpl.
  fold (synced p). by destruct (main_loop sel (synced p)).
Qed.

(** C7. When the context is done (after any number of ticks), the loop
    reads the mean frequency of the servo, applies its negation to the
    clock with one call of [AdjFreqPPB], the only call on the clock in that
    branch, and returns the error of the context, whether or not the
    adjustment failed. *)
Theorem runInternal_cancelled tis ctxErr sel p :
  bmca_sound → peers_ok p →
  ∃ t0 p1,
    runInternal (timerC <$> tis) p = (t0, Done None p1) ∧
    let mean := (MeanFreq (pi p1)).1 in
    let adj := AdjFreqPPB (clock p1) (PrimFloat.opp mean) in
    let cancel :=
      [EvLog LDebug "cancelled main loop"; EvMeanFreq;
       EvLog LInfo "Existing, setting freq to: %v";
       EvAdjFreqPPB (PrimFloat.opp mean)]
      ++ error_log adj.1 "failed to adjust freq to %v: %v" in
    runInternal ((timerC <$> tis) ++ ctxDone ctxErr :: sel) p =
      (t0 ++ cancel,
       Done (Some ctxErr) (set_clock adj.2 (set_pi (MeanFreq (pi p1)).2 p1))) ∧
    List.filter is_clock_call cancel = [EvAdjFreqPPB (PrimFloat.opp mean)].
Proof.
  intros Hsound Hok.
  destruct (main_loop_ticks tis (synced p) Hsound) as (t & p1 & Hl & _ & _);
    [done|].
  exists (EvSyncInterval (Seconds (Interval (cfg p))) :: EvNewTimer 0 :: t), p1.
  split; [by rewrite runInternal_run, Hl|].
  split.
  - rewrite runInternal_run, (main_loop_app _ _ _ _ _ Hl).
    pose proof (main_loop_cancel ctxErr sel p1) as Hc. cbn zeta in Hc.
    by rewrite Hc.
  - simpl. apply (f_equal (cons _)). apply filter_false.
    eapply Forall_impl; [apply error_log_calm|]. by intros ? [_ ?].
Qed.

(** ** The timer *)

Lemma tick_filter (f : event → bool) ti p :
  peers_ok p →
  (∀ e, is_go e = true → f e = false) →
  (∀ e, aggregation_event e = true → f e = false) →
  (∀ e, selection_event e = true → f e = false) →
  (∀ key v, String.eqb key "ptp.sptp.tick_duration_ns" = false →
            f (EvSetCounter key v) = false) →
  List.filter f (runInternal_tick ti p).1 =
  List.filter f (record_tick (now_at ti) p).1.
Proof.
  intros Hok Hgo Hagg Hsel Hcnt.
  rewrite (tick_run _ _ Hok). cbn [fst].
  rewrite (processResults_run _ _ _ _ (fan_out_cover ti p Hok)). cbn [fst].
  rewrite !List.filter_app.
  rewrite (filter_none _ _ _ (fan_out_events ti p)) by done.
  rewrite (filter_none _ _ _ (select_master_events _ _ _)) by done.
  unfold aggregate_all.
  rewrite (filter_none _ _ _ (aggregate_loop_events _ _ _)) by done.
  cbn [List.filter]. rewrite !Hcnt by done. by rewrite !app_nil_r.
Qed.

Lemma tick_no_timer ti p :
  peers_ok p → List.filter is_timer (runInternal_tick ti p).1 = [].
Proof.
  intros Hok. rewrite tick_filter; try done; try (by intros []).
  apply (filter_none _ _ _ (record_tick_events _ _)). by intros [].
Qed.

(** Without a previous tick time a tick reports no duration. *)
Lemma tick_first_silent ti p :
  peers_ok p → lastTick p = 0 →
  List.filter is_tick_report (runInternal_tick ti p).1 = [].
Proof.
  intros Hok Hz. rewrite tick_filter; try done.
  - by rewrite record_tick_first.
  - by intros [].
  - intros []; try done. simpl. by intros ->%negb_true_iff.
  - intros []; try done. simpl. by intros ->%negb_true_iff.
Qed.

(** With a previous tick time a tick reports its duration. *)
Lemma tick_later_reports ti p :
  peers_ok p → lastTick p ≠ 0 →
  EvSetCounter "ptp.sptp.tick_duration_ns" (Sub (now_at ti) (lastTick p))
    ∈ (runInternal_tick ti p).1.
Proof.
  intros Hok Hnz. rewrite (tick_run _ _ Hok). cbn [fst].
  rewrite (processResults_run _ _ _ _ (fan_out_cover ti p Hok)). cbn [fst].
  rewrite !elem_of_app. right. left.
  unfold record_tick, bind, get, when, log, emit, modify, ret, IsZero. simpl.
  apply Z.eqb_neq in Hnz. rewrite Hnz. simpl.
  destruct (_ || _); simpl; set_solver.
Qed.

Lemma main_loop_timers tis p :
  bmca_sound → peers_ok p →
  List.filter is_timer (main_loop (timerC <$> tis) p).1 =
  replicate (length tis) (EvTimerReset (Interval (cfg p))).
Proof.
  intros Hsound. revert p. induction tis as [|ti tis IH]; intros p Hok; [done|].
  destruct (tick_done ti p Hsound Hok) as (p1 & Hd & Hok1 & Hcfg1 & _).
  pose proof (tick_no_timer ti p Hok) as Hnt.
  destruct (runInternal_tick ti p) as [t1 o1] eqn:Ht. simpl in Hd, Hnt. subst o1.
  cbn [fmap list_fmap]. rewrite (main_loop_timer _ _ _ _ _ Ht). cbn [fst].
  cbn [List.filter is_timer length replicate].
  by rewrite List.filter_app, Hnt, IH, Hcfg1.
Qed.

(** C10. The timer of the loop is created with duration zero, so the
    first tick is due at once and not after an interval; each time the
    timer is received it is re-armed with the configured interval before
    the tick runs, so every later tick is due one interval after the
    receipt before it.  The first tick, run without a previous tick time,
    emits neither the tick-duration counter nor the deviation warning. *)
Theorem runInternal_first_tick ti tis p :
  bmca_sound → peers_ok p → lastTick p = 0 →
  ∃ t1 p1 t2 p',
    runInternal_tick ti (synced p) = (t1, Done tt p1) ∧
    List.filter is_tick_report t1 = [] ∧
    runInternal (timerC <$> ti :: tis) p =
      ([EvSyncInterval (Seconds (Interval (cfg p))); EvNewTimer 0;
        EvTimerReset (Interval (cfg p))] ++ t1 ++ t2,
       Done None p') ∧
    List.filter is_timer
      ([EvSyncInterval (Seconds (Interval (cfg p))); EvNewTimer 0;
        EvTimerReset (Interval (cfg p))] ++ t1 ++ t2)
    = EvNewTimer 0 :: EvTimerReset (Interval (cfg p))
      :: replicate (length tis) (EvTimerReset (Interval (cfg p))).
Proof.
  intros Hsound Hok Hz.
  assert (peers_ok (synced p)) as Hok0 by done.
  destruct (tick_done ti (synced p) Hsound Hok0) as (p1 & Hd & Hok1 & Hcfg1 & _).
  pose proof (tick_first_silent ti (synced p) Hok0 Hz) as Hsilent.
  pose proof (tick_no_timer ti (synced p) Hok0) as Hnt.
  destruct (runInternal_tick ti (synced p)) as [t1 o1] eqn:Ht.
  simpl in Hd, Hsilent, Hnt. subst o1.
  destruct (main_loop_ticks tis p1 Hsound Hok1) as (t2 & p' & Hl & _ & _).
  pose proof (main_loop_timers tis p1 Hsound Hok1) as Htm.
  rewrite Hl in Htm. cbn [fst] in Htm.
  exists t1, p1, t2, p'. split; [done|]. split; [done|]. split.
  - rewrite runInternal_run. cbn [fmap list_fmap].
    rewrite (main_loop_timer _ _ _ _ _ Ht), Hl. done.
  - cbn [app List.filter is_timer].
    by rewrite List.filter_app, Hnt, Htm, Hcfg1.
Qed.

(** ** Inbound routing *)

(** What a receiver does with a datagram from the address [key]. *)
Lemma route_general payload addr p :
  general_receive (genReadFrom payload (Some addr)) p =
  match clients p !! IP_String (IP addr) with
  | Some cc =>
      ([EvLog LDebug "got packet on port 320, n = %v, addr = %v";
        EvSend (IP_String (IP addr)) (mkInPacket payload 0)],
       Done None
         (set_clients (<[IP_String (IP addr) := enqueue cc (mkInPacket payload 0)]>
                         (clients p)) p))
  | None =>
      ([EvLog LDebug "got packet on port 320, n = %v, addr = %v";
        EvLog LWarning "ignoring packets from server %v"],
       Done None p)
  end.
Proof.
  unfold general_receive, send, bind, get, log, emit, modify, ret. simpl.
  by destruct (clients p !! IP_String (IP addr)).
Qed.

Lemma route_event response addr rxtx p :
  event_receive (eventReadFrom response addr rxtx) p =
  match clients p !! IP_String (SockaddrToIP addr) with
  | Some cc =>
      ([EvLog LDebug "got packet on port 319, addr = %v";
        EvSend (IP_String (SockaddrToIP addr)) (mkInPacket response rxtx)],
       Done None
         (set_clients
            (<[IP_String (SockaddrToIP addr)
               := enqueue cc (mkInPacket response rxtx)]> (clients p)) p))
  | None =>
      ([EvLog LDebug "got packet on port 319, addr = %v";
        EvLog LWarning "ignoring packets from server %v"],
       Done None p)
  end.
Proof.
  unfold event_receive, send, bind, get, log, emit, modify, ret. simpl.
  by destruct (clients p !! IP_String (SockaddrToIP addr)).
Qed.

(** A receiver that does not stop is followed by the rest of the
    arrivals. *)
Lemma RunListener_general r arr p t p' :
  general_receive r p = (t, Done None p') →
  RunListener (onGeneral r :: arr) p =
  (t ++ (RunListener arr p').1, (RunListener arr p').2).
Proof.
  intros Hr. cbn [RunListener]. rewrite bind_run, Hr. done.
Qed.

Lemma RunListener_event r arr p t p' :
  event_receive r p = (t, Done None p') →
  RunListener (onEvent r :: arr) p =
  (t ++ (RunListener arr p').1, (RunListener arr p').2).
Proof.
  intros Hr. cbn [RunListener]. rewrite bind_run, Hr. done.
Qed.

(** C8. A datagram read on the general or on the event port is matched
    to a session by the canonical text of its source IP address alone.  If
    that text is a key of the client map, the packet (on the event port
    with its receive timestamp) is sent to the inbound queue of that
    session and the queues of all other sessions are unchanged; if it is
    not, nothing is sent and a warning is logged.  In both cases the
    listener goes on receiving. *)
Theorem listener_routing arr p :
  (∀ payload addr,
     routed (onGeneral (genReadFrom payload (Some addr)))
       (IP_String (IP addr)) (mkInPacket payload 0) arr p) ∧
  (∀ response addr rxtx,
     routed (onEvent (eventReadFrom response addr rxtx))
       (IP_String (SockaddrToIP addr)) (mkInPacket response rxtx) arr p).
Proof.
  split.
  - intros payload addr. unfold routed.
    pose proof (route_general payload addr p) as Hr.
    destruct (clients p !! IP_String (IP addr)) as [cc|] eqn:Hcc.
    + eexists _, _. split; [by apply RunListener_general|].
      simpl. split; [done|]. split; [|done].
      intros other Hne. by rewrite lookup_insert_ne.
    + eexists _, _. split; [by apply RunListener_general|].
      split; [done|]. split; [done|]. set_solver.
  - intros response addr rxtx. unfold routed.
    pose proof (route_event response addr rxtx p) as Hr.
    destruct (clients p !! IP_String (SockaddrToIP addr)) as [cc|] eqn:Hcc.
    + eexists _, _. split; [by apply RunListener_event|].
      simpl. split; [done|]. split; [|done].
      intros other Hne. by rewrite lookup_insert_ne.
    + eexists _, _. split; [by apply RunListener_event|].
      split; [done|]. split; [done|]. set_solver.
Qed.

(** ** Initialisation *)

Lemma init_servo_bound_read c k freq k1 maxFreq k2 :
  FrequencyPPB k = (freq, None, k1) →
  MaxFreqPPB k1 = (maxFreq, None, k2) →
  init_servo c k =
  ([EvFrequencyPPB; EvLog LDebug "starting PHC frequency: %v"; EvMaxFreqPPB;
    EvSetMaxFreq maxFreq; EvLogFloat LDebug "max PHC frequency: %v" maxFreq],
   inr (NewPiServoFilter
          (SetMaxFreq (NewPiServo (servo_config c) (PrimFloat.opp freq)) maxFreq),
        k2)).
Proof.
  intros Hf Hm. unfold init_servo. rewrite Hf, Hm. reflexivity.
Qed.

(** C6. [init] seeds the servo with the negation of the clock's frequency.
    When the clock's maximum frequency cannot be read, [init] makes no
    call of [SetMaxFreq]: the servo is the one [NewPiServo] built from the
    servo configuration, with that configuration's bound, and
    [phc.DefaultMaxClockFreqPPB] only reaches the Debug line that reports
    the bound. *)
Theorem init_servo_bound_unread c k freq k1 unread err k2 :
  FrequencyPPB k = (freq, None, k1) →
  MaxFreqPPB k1 = (unread, Some err, k2) →
  ∃ t,
    init_servo c k =
      (t, inr (NewPiServoFilter
                 (NewPiServo (servo_config c) (PrimFloat.opp freq)), k2)) ∧
    List.filter is_set_max_freq t = [] ∧
    List.filter is_log t =
      [EvLog LDebug "starting PHC frequency: %v";
       EvLog LWarning "max PHC frequency error: %v";
       EvLogFloat LDebug "max PHC frequency: %v" phc_DefaultMaxClockFreqPPB].
Proof.
  intros Hf Hm. unfold init_servo. rewrite Hf, Hm.
  eexists. split; [reflexivity|]. done.
Qed.

Lemma rbind_inr {A A'} (m : R A) (f : A → R A') t a' :
  rbind m f = (t, inr a') →
  ∃ t1 a t2, m = (t1, inr a) ∧ f a = (t2, inr a') ∧ t = t1 ++ t2.
Proof.
  unfold rbind. destruct m as [t1 [err|a]]; [done|].
  destruct (f a) as [t2 o] eqn:Hfa. intros [= <- ->]. by exists t1, a, t2.
Qed.

Lemma add_client_ok env server prio p t p' :
  add_client env server prio p = (t, inr p') →
  peers_ok p → peers_ok p' ∧ lastTick p' = lastTick p ∧ bestGM p' = bestGM p.
Proof.
  unfold add_client, rret, rfail.
  destruct (newClient env _ _) as [err|c]; [done|].
  intros [= <- <-] [Hb Hp]. split; [|done].
  split; simpl; rewrite !dom_insert_L; congruence.
Qed.

Lemma add_clients_ok env (l : list (string * Z)) p t p' :
  add_clients env l p = (t, inr p') →
  peers_ok p → peers_ok p' ∧ lastTick p' = lastTick p ∧ bestGM p' = bestGM p.
Proof.
  revert p t. induction l as [|[server prio] l IH]; intros p t.
  - simpl. by intros [= <- <-].
  - cbn [add_clients].
    intros (t1 & p1 & t2 & H1 & H2 & _)%rbind_inr Hok.
    destruct (add_client_ok _ _ _ _ _ _ H1 Hok) as (Hok1 & Hl1 & Hg1).
    destruct (IH _ _ H2 Hok1) as (Hok' & Hl' & Hg').
    split; [done|]. split; congruence.
Qed.

(** A client made by [NewSPTP] has a backoff and a priority for every
    session, no selected master and no previous tick time. *)
Lemma NewSPTP_ok env rg c t p :
  NewSPTP env rg c = (t, inr p) →
  peers_ok p ∧ lastTick p = 0 ∧ bestGM p = "".
Proof.
  unfold NewSPTP. intros (t1 & p0 & t2 & Hinit & Hcl & _)%rbind_inr.
  unfold initClients in Hcl.
  apply add_clients_ok in Hcl as (Hok & Hl & Hg); [|done].
  split; [done|]. simpl in Hl, Hg. rewrite Hl, Hg.
  unfold init in Hinit.
  repeat (apply rbind_inr in Hinit as (? & ? & ? & _ & Hinit & _)).
  by injection Hinit as _ <-.
Qed.

(** The total counter of a tick is the number of sessions, whether
    suppressed or not. *)
Lemma tick_total_counter ti p :
  peers_ok p →
  List.filter (is_counter "ptp.sptp.gms.total") (runInternal_tick ti p).1 =
  [EvSetCounter "ptp.sptp.gms.total" (Z.of_nat (size (clients p)))].
Proof.
  intros Hok. rewrite (tick_run _ _ Hok). cbn [fst]. rewrite List.filter_app.
  rewrite (filter_none _ _ _ (fan_out_events ti p)) by (by intros []).
  destruct (processResults_counters (range_of ti) (now_at ti)
              (fan_out_results ti p) p (fan_out_cover ti p Hok)) as [-> _].
  by rewrite fan_out_results_size.
Qed.

End Facts.

(** Below fifty peers the percentage is the integer quotient. *)
Lemma available_pct_exact (a t : Z) :
  0 < t < 50 → 0 ≤ a ≤ t → available_pct a t = 100 * a / t.
Proof.
  intros Ht Ha.
  assert (pct_exact_upto 49 = true) as Hall by (vm_compute; reflexivity).
  unfold pct_exact_upto in Hall.
  rewrite List.forallb_forall in Hall.
  specialize (Hall (Z.to_nat t)).
  rewrite List.forallb_forall in Hall.
  specialize (Hall ltac:(apply in_seq; lia) (Z.to_nat a) ltac:(apply in_seq; lia)).
  apply Z.eqb_eq in Hall. by rewrite !Z2Nat.id in Hall by lia.
Qed.


(** * The statements on the concrete client *)

Lemma better_choice prio a b : Demo.better prio a b = a ∨ Demo.better prio a b = b.
Proof. unfold Demo.better. repeat case_match; auto. Qed.

Lemma select_best_sound : bmca_sound (H := Demo.packages).
Proof.
  intros l prio best. simpl. unfold Demo.select_best.
  destruct l as [|a l]; [done|]. intros [= <-].
  revert a. induction l as [|b l IH]; intros a; simpl; [left|].
  destruct (better_choice prio a b) as [-> | ->].
  - destruct (proj1 (elem_of_cons l _ a) (IH a)) as [->|Hin].
    + left.
    + right. by right.
  - right. apply IH.
Qed.

Lemma client2_ok : peers_ok Demo.client2.
Proof. split; vm_compute; reflexivity. Qed.

(** The first peer answers with offset +500ns, the second one times out:
    the servo answers Locked with 487.5 and the clock is adjusted by
    -487.5. *)
Lemma tick_discipline_witness :
  ∃ t p',
    runInternal_tick Demo.tick_one_answers Demo.client2 = (t, Done tt p') ∧
    List.filter is_clock_call t = [EvAdjFreqPPB (-487.5)%float] ∧
    Demo.frequency (clock p') = (-487.5)%float.
Proof.
  assert (winner Demo.client2 (range_of Demo.tick_one_answers)
            (fan_out_results Demo.tick_one_answers Demo.client2)
          = Some (Demo.measured 101 500)) as Hw by (vm_compute; reflexivity).
  assert (Sample (pi Demo.client2) (Offset (Demo.measured 101 500))
            (uint64 (UnixNano (Timestamp (Demo.measured 101 500))))
          = (487.5%float, servo.StateLocked,
             Demo.mkPiServo 500000 487.5 false 20000 1 true)) as Hs
    by (vm_compute; reflexivity).
  destruct (tick_discipline Demo.tick_one_answers [] Demo.client2
              (Demo.measured 101 500) 487.5%float servo.StateLocked
              (Demo.mkPiServo 500000 487.5 false 20000 1 true)
              client2_ok Hw Hs)
    as (t & p' & Ht & _ & _ & Hst & _).
  cbv iota in Hst. destruct Hst as (Hcalls & Hclock & _).
  exists t, p'. split; [exact Ht|]. split.
  - rewrite Hcalls. vm_compute. reflexivity.
  - rewrite Hclock. vm_compute. reflexivity.
Defined.

(** The peer that timed out has its backoff bumped, and nothing else. *)
Lemma processResults_backoff_witness :
  ∃ t p',
    processResults Demo.in_order 5
      (fan_out_results Demo.tick_one_answers Demo.client2) Demo.client2
      = (t, Done tt p') ∧
    List.filter (is_backoff_call "10.0.0.2") t = [EvBackoffBump "10.0.0.2"] ∧
    backoff p' !! "10.0.0.2" = Some (Demo.mkBackoff 1 1).
Proof.
  destruct (processResults_backoff Demo.in_order 5
              (fan_out_results Demo.tick_one_answers Demo.client2) Demo.client2
              "10.0.0.2" (Demo.timed_out "10.0.0.2") (Demo.mkBackoff 0 0))
    as (t & p' & Ht & Hcalls & Hb).
  - exact select_best_sound.
  - apply fan_out_cover. exact client2_ok.
  - vm_compute. reflexivity.
  - vm_compute. reflexivity.
  - exists t, p'. split; [exact Ht|]. split; [exact Hcalls|exact Hb].
Defined.

(** No peer answers: the selected master is cleared and the clock is left
    alone. *)
Lemma tick_without_winner_witness :
  ∃ t p',
    runInternal_tick Demo.tick_none_answers Demo.client2 = (t, Done tt p') ∧
    bestGM p' = "" ∧ clock p' = clock Demo.client2.
Proof.
  destruct (tick_without_winner Demo.tick_none_answers [] Demo.client2)
    as (t & p' & Ht & Hbest & _ & _ & Hclock & _).
  - exact client2_ok.
  - vm_compute. reflexivity.
  - exists t, p'. split; [exact Ht|]. split; [exact Hbest|exact Hclock].
Defined.

(** The two peers of one grandmaster: BMCA is given both announces, and
    for their identity the priority of the peer the loop visits last. *)
Lemma processResults_candidates_witness :
  ∃ l prio,
    List.filter is_bmca
      (processResults Demo.in_order 5 Demo.twins Demo.client2).1
      = [EvBMCA l prio] ∧
    length l = 2%nat ∧
    prio !! 42 = Some 2.
Proof.
  assert (backoffs_cover Demo.client2 Demo.twins) as Hc.
  { apply backoffs_cover_dec. vm_compute. reflexivity. }
  assert (included (range Demo.in_order RunResult Demo.twins)
          = [("10.0.0.1", Demo.measured 42 500)]
            ++ ("10.0.0.2", Demo.measured 42 700) :: []) as Hinc
    by (vm_compute; reflexivity).
  destruct (processResults_candidates Demo.in_order 5 Demo.twins Demo.client2
              Hc)
    as (l & prio & Hcall & Hperm & _ & _ & _ & Hlast).
  exists l, prio. split; [exact Hcall|]. split.
  - apply Permutation_length in Hperm. rewrite Hperm. vm_compute. reflexivity.
  - pose proof (Hlast [("10.0.0.1", Demo.measured 42 500)] "10.0.0.2"
                  (Demo.measured 42 700) [] Hinc
                  (λ am Hin, False_ind _ (not_elem_of_nil am Hin))) as Hp.
    change (ptp.GrandmasterIdentity (Announce (Demo.measured 42 700)))
      with 42 in Hp.
    rewrite Hp. vm_compute. reflexivity.
Defined.

(** C2 as stated fails when two peers with different configured
    priorities advertise the same grandmaster identity and both have a
    usable result: no map keyed by identity holds, for each of the two,
    that peer's priority. *)
Lemma shared_identity_priority :
  ¬ ∃ l prio,
      List.filter is_bmca
        (processResults Demo.in_order 5 Demo.twins Demo.client2).1
        = [EvBMCA l prio] ∧
      ∀ addr r m,
        Demo.twins !! addr = Some r → Error r = None → Measurement r = Some m →
        prio !! ptp.GrandmasterIdentity (Announce m)
          = Some (priority_of Demo.client2 addr).
Proof.
  intros (l & prio & _ & Hprio).
  assert (Demo.twins !! "10.0.0.1" = Some (Demo.answered "10.0.0.1" 42 500))
    as H1 by (vm_compute; reflexivity).
  assert (Demo.twins !! "10.0.0.2" = Some (Demo.answered "10.0.0.2" 42 700))
    as H2 by (vm_compute; reflexivity).
  apply Hprio with (m := Demo.measured 42 500) in H1; [|reflexivity..].
  apply Hprio with (m := Demo.measured 42 700) in H2; [|reflexivity..].
  change (ptp.GrandmasterIdentity (Announce (Demo.measured 42 500))) with 42 in H1.
  change (ptp.GrandmasterIdentity (Announce (Demo.measured 42 700))) with 42 in H2.
  rewrite H1 in H2. vm_compute in H2. discriminate H2.
Qed.

(** What BMCA is given for the two peers of one grandmaster: both
    announces, and for their identity the priority of the peer ranged over
    last. *)
Example shared_identity_last_wins :
  ∃ a1 a2 prio,
    List.filter is_bmca
      (processResults Demo.in_order 5 Demo.twins Demo.client2).1
      = [EvBMCA [a1; a2] prio] ∧
    prio !! 42 = Some 2.
Proof. vm_compute. eexists _, _, _. split; reflexivity. Qed.

(** A peer that is not suppressed: one exchange task with the configured
    timeout, and its answer as result. *)
Lemma tick_fan_out_witness :
  List.filter (is_exchange "10.0.0.1")
    (runInternal_tick Demo.tick_one_answers Demo.client2).1
    = [EvGoRunOnce "10.0.0.1" 100000000] ∧
  fan_out_results Demo.tick_one_answers Demo.client2 !! "10.0.0.1"
    = Some (Demo.answered "10.0.0.1" 101 500).
Proof.
  assert (clients Demo.client2 !! "10.0.0.1" = Some (mkClient "10.0.0.1" []))
    as Hc by (vm_compute; reflexivity).
  assert (backoff Demo.client2 !! "10.0.0.1" = Some (Demo.mkBackoff 0 0))
    as Hb by (vm_compute; reflexivity).
  pose proof (tick_fan_out Demo.tick_one_answers Demo.client2 "10.0.0.1"
                (mkClient "10.0.0.1" []) (Demo.mkBackoff 0 0) client2_ok Hc Hb)
    as (_ & _ & Hpeer).
  exact Hpeer.
Defined.

(** A suppressed peer: no exchange task, the sentinel as result, and a
    tick of its backoff. *)
Example suppressed_peer :
  let p := set_backoff (<["10.0.0.2" := Demo.mkBackoff 1 1]> (backoff Demo.client2))
             Demo.client2 in
  List.filter (is_exchange "10.0.0.2")
    (runInternal_tick Demo.tick_one_answers p).1 = [] ∧
  fan_out_results Demo.tick_one_answers p !! "10.0.0.2"
    = Some (mkRunResult "10.0.0.2" None (Some errBackoff)) ∧
  List.filter (is_backoff_call "10.0.0.2")
    (runInternal_tick Demo.tick_one_answers p).1 = [EvBackoffTick "10.0.0.2"].
Proof. vm_compute. repeat split. Qed.

(** Two ticks, then the context is cancelled. *)
Lemma runInternal_cancelled_witness :
  ∃ t p',
    runInternal
      ((timerC <$> [Demo.tick_one_answers; Demo.tick_none_answers])
       ++ [ctxDone (errNew "context canceled")]) Demo.client2
    = (t, Done (Some (errNew "context canceled")) p').
Proof.
  destruct (runInternal_cancelled
              [Demo.tick_one_answers; Demo.tick_none_answers]
              (errNew "context canceled") [] Demo.client2
              select_best_sound client2_ok)
    as (t0 & p1 & _ & Hrun & _).
  eexists _, _. exact Hrun.
Defined.

(** In that run the clock is adjusted by the first tick and once more on
    cancellation, with the negated mean frequency 487.5. *)
Example cancelled_run :
  List.filter is_clock_call
    (runInternal
       ((timerC <$> [Demo.tick_one_answers; Demo.tick_none_answers])
        ++ [ctxDone (errNew "context canceled")]) Demo.client2).1
  = [EvAdjFreqPPB (-487.5)%float; EvAdjFreqPPB (-487.5)%float].
Proof. vm_compute. reflexivity. Qed.

(** The first tick of a fresh client reports no duration. *)
Lemma runInternal_first_tick_witness :
  ∃ t1 p1,
    runInternal_tick Demo.tick_one_answers (synced Demo.client2)
      = (t1, Done tt p1) ∧
    List.filter is_tick_report t1 = [].
Proof.
  assert (lastTick Demo.client2 = 0) as Hz by reflexivity.
  destruct (runInternal_first_tick Demo.tick_one_answers
              [Demo.tick_none_answers] Demo.client2
              select_best_sound client2_ok Hz)
    as (t1 & p1 & t2 & p' & Ht & Hsilent & _).
  exists t1, p1. split; [exact Ht|exact Hsilent].
Defined.

(** Timer calls and tick reports of two ticks one second apart: the second
    tick reports its duration, the first does not. *)
Example two_ticks :
  List.filter (λ e, is_timer e || is_tick_report e)
    (runInternal (timerC <$> [Demo.tick_one_answers; Demo.tick_none_answers])
       Demo.client2).1
  = [EvNewTimer 0; EvTimerReset 1000000000; EvTimerReset 1000000000;
     EvSetCounter "ptp.sptp.tick_duration_ns" 1000000000].
Proof. vm_compute. reflexivity. Qed.

(** A hardware clock that cannot report its maximum frequency: the servo
    keeps the bound 900000000 of its configuration. *)
Lemma init_servo_bound_unread_witness :
  ∃ t,
    init_servo (S := Demo.PiServo) (Demo.config "bad0" "hardware" Demo.two_peers)
      (Demo.mkClock Demo.PHC "bad0" 12.5 0 false false)
    = (t, inr (Demo.mkPiServo 900000000 (-12.5) false 20000 1 true,
               Demo.mkClock Demo.PHC "bad0" 12.5 0 false false)) ∧
    List.filter is_set_max_freq t = [].
Proof.
  destruct (init_servo_bound_unread (S := Demo.PiServo)
              (Demo.config "bad0" "hardware" Demo.two_peers)
              (Demo.mkClock Demo.PHC "bad0" 12.5 0 false false)
              12.5%float (Demo.mkClock Demo.PHC "bad0" 12.5 0 false false)
              0%float (errNew "ioctl failed")
              (Demo.mkClock Demo.PHC "bad0" 12.5 0 false false))
    as (t & Hinit & Hnone & _).
  - reflexivity.
  - reflexivity.
  - exists t. split; [|exact Hnone]. rewrite Hinit. vm_compute. reflexivity.
Defined.

(** [init] as a whole on that clock, and on one that reports its bound. *)
Example init_unreadable_bound :
  match (init (S := Demo.PiServo) (K := Demo.clock) (B := Demo.backoff) Demo.env
           (Demo.config "bad0" "hardware" Demo.two_peers)).2 with
  | inr p => Demo.maxFreq (pi p) = 900000000%float ∧
             Demo.drift (pi p) = (-12.5)%float
  | inl _ => False
  end ∧
  phc_DefaultMaxClockFreqPPB = 500000%float.
Proof. vm_compute. by repeat split. Qed.

Example init_readable_bound :
  match (init (S := Demo.PiServo) (K := Demo.clock) (B := Demo.backoff) Demo.env
           (Demo.config "eth0" "hardware" Demo.two_peers)).2 with
  | inr p => Demo.maxFreq (pi p) = 500000%float ∧
             Demo.drift (pi p) = (-12.5)%float
  | inl _ => False
  end.
Proof. vm_compute. by repeat split. Qed.

(** C9. With fifty peers in the result map of which twenty-nine have a
    usable result, the total counter is 50 and the published percentage
    is 57: the [float64] quotient 29/50 times 100 lies just below 58 and
    the conversion to [int64] truncates, while 100 * 29 / 50 is 58. *)
Theorem available_pct_truncated :
  size Demo.fifty_results = 50%nat ∧
  length (included (map_to_list Demo.fifty_results)) = 29%nat ∧
  List.filter (is_counter "ptp.sptp.gms.total")
    (processResults Demo.in_order 5 Demo.fifty_results Demo.client50).1
  = [EvSetCounter "ptp.sptp.gms.total" 50] ∧
  List.filter (is_counter "ptp.sptp.gms.available_pct")
    (processResults Demo.in_order 5 Demo.fifty_results Demo.client50).1
  = [EvSetCounter "ptp.sptp.gms.available_pct" 57] ∧
  available_pct 29 50 = 57 ∧
  100 * 29 / 50 = 58.
Proof. vm_compute. by repeat split. Qed.

(** * Further facts *)

Section Coverage.

Context {S K B : Type} `{!Servo S, !Clock K, !Backoff B, !Packages}.

Implicit Types (p : @SPTP S K B) (rg : ranger) (results : gmap string RunResult).

(** Settles a [Forall] over an explicit list of events, each element by
    computation. *)
Ltac explicit_events :=
  repeat (apply List.Forall_cons;
          [first [done | by left | by right | by split] |]);
  try apply List.Forall_nil.

(** ** The listener as a whole *)

Lemma RunListener_step a arr p :
  stops a = None →
  ∃ t,
    RunListener (a :: arr) p =
    (t ++ (RunListener arr (set_clients (deliver (clients p) a) p)).1,
     (RunListener arr (set_clients (deliver (clients p) a) p)).2) ∧
    List.filter is_send t =
      match datagram a with
      | Some (k, pkt) =>
          match clients p !! k with
          | Some _ => [EvSend k pkt]
          | None => []
          end
      | None => []
      end ∧
    Forall (λ e, is_send e = true ∨ is_log e = true) t.
Proof.
  intros Hs.
  destruct a as [[err|payload [addr|]]|[err|response addr rxtx]|ctxErr];
    try discriminate Hs.
  - pose proof (route_general payload addr p) as Hr.
    unfold deliver. cbn [datagram].
    destruct (clients p !! IP_String (IP addr)) as [cc|] eqn:Hcc.
    + eexists. split; [by apply RunListener_general|].
      split; [done|]. explicit_events.
    + eexists. split.
      * replace (set_clients (clients p) p) with p by (by destruct p).
        by apply RunListener_general.
      * split; [done|]. explicit_events.
  - pose proof (route_event response addr rxtx p) as Hr.
    unfold deliver. cbn [datagram].
    destruct (clients p !! IP_String (SockaddrToIP addr)) as [cc|] eqn:Hcc.
    + eexists. split; [by apply RunListener_event|].
      split; [done|]. explicit_events.
    + eexists. split.
      * replace (set_clients (clients p) p) with p by (by destruct p).
        by apply RunListener_event.
      * split; [done|]. explicit_events.
Qed.

Lemma RunListener_stop a arr p err :
  stops a = Some err → RunListener (a :: arr) p = ([], Done (Some err) p).
Proof.
  destruct a as [[e|payload [addr|]]|[e|response addr rxtx]|ctxErr];
    intros [= <-]; reflexivity.
Qed.

Lemma deliver_lookup (m : gmap string Client) a key :
  deliver m a !! key =
  match datagram a with
  | Some (k, pkt) =>
      if String.eqb k key then (λ cc, enqueue cc pkt) <$> m !! key
      else m !! key
  | None => m !! key
  end.
Proof.
  unfold deliver. destruct (datagram a) as [[k pkt]|]; [|done].
  destruct (String.eqb_spec k key) as [->|Hne].
  - destruct (m !! key) as [cc|] eqn:Hcc; simpl.
    + by rewrite lookup_insert_eq.
    + done.
  - destruct (m !! k) as [cc|]; [|done]. by rewrite lookup_insert_ne.
Qed.

Lemma deliver_is_Some (m : gmap string Client) a key :
  is_Some (deliver m a !! key) ↔ is_Some (m !! key).
Proof.
  rewrite deliver_lookup. destruct (datagram a) as [[k pkt]|]; [|done].
  destruct (String.eqb k key); [|done]. by rewrite fmap_is_Some.
Qed.

Lemma sends_deliver p a arr :
  sends (set_clients (deliver (clients p) a) p) arr = sends p arr.
Proof.
  unfold sends. apply list_omap_ext, Forall_Forall2_diag, Forall_true.
  intros b. destruct (datagram b) as [[k pkt]|]; [|done]. simpl.
  pose proof (deliver_is_Some (clients p) a k) as Hiff.
  destruct (deliver (clients p) a !! k) as [cc|], (clients p !! k) as [cc'|];
    try done.
  - destruct (proj1 Hiff) as [? [=]]. eauto.
  - destruct (proj2 Hiff) as [? [=]]. eauto.
Qed.

Lemma RunListener_spec arr p :
  ∃ t,
    RunListener arr p =
      (t, Done (head (omap stops arr))
            (set_clients (foldl deliver (clients p) (handled arr)) p)) ∧
    List.filter is_send t = sends p (handled arr) ∧
    Forall (λ e, is_send e = true ∨ is_log e = true) t.
Proof.
  revert p. induction arr as [|a arr IH]; intros p.
  - exists []. split; [by destruct p|]. split; [done|constructor].
  - destruct (stops a) as [err|] eqn:Hs.
    + exists []. rewrite (RunListener_stop _ _ _ _ Hs).
      cbn [omap list_omap handled]. rewrite Hs. cbn [head foldl].
      split; [by destruct p|]. split; [done|constructor].
    + destruct (RunListener_step a arr p Hs) as (t1 & Hrun & Hsend & Hev).
      destruct (IH (set_clients (deliver (clients p) a) p))
        as (t2 & Hrest & Hsend2 & Hev2).
      exists (t1 ++ t2). rewrite Hrun, Hrest.
      cbn [omap list_omap handled fst snd]. rewrite Hs. cbn [foldl].
      split; [done|]. split; [|by apply Forall_app].
      rewrite List.filter_app, Hsend, Hsend2, sends_deliver.
      unfold sends at 2. cbn [omap list_omap].
      destruct (datagram a) as [[k pkt]|]; [|done].
      by destruct (clients p !! k).
Qed.

Lemma deliver_all_lookup (l : list arrival) (m : gmap string Client) key :
  foldl deliver m l !! key =
  (λ cc, mkClient (clientAddr cc) (inChan cc ++ inbound key l)) <$> m !! key.
Proof.
  unfold inbound. revert m. induction l as [|a l IH]; intros m.
  - simpl. destruct (m !! key) as [[addr q]|]; [|done].
    simpl. by rewrite app_nil_r.
  - cbn [foldl]. rewrite IH, deliver_lookup. cbn [omap list_omap].
    destruct (datagram a) as [[k pkt]|]; [|done].
    destruct (String.eqb k key); [|done].
    destruct (m !! key) as [[addr q]|]; [|done].
    simpl. unfold enqueue. simpl. by rewrite <- app_assoc.
Qed.

Lemma handled_all arr :
  Forall (λ a, stops a = None) arr →
  handled arr = arr ∧ omap stops arr = [].
Proof.
  induction 1 as [|a arr Ha _ [IH1 IH2]]; [done|].
  cbn [handled omap list_omap]. by rewrite Ha, IH1, IH2.
Qed.

(** X1. [RunListener] never panics.  It returns the error of the first
    arrival that stops it (a failed read on either port, a datagram
    without source address on the general port, the context being done),
    and is still receiving when no arrival does.  It makes no call other
    than log lines and channel sends, and changes nothing of the client
    but the inbound queues of the sessions it has: no session is added
    or removed. *)
Theorem RunListener_returns arr p :
  ∃ t p',
    RunListener arr p = (t, Done (head (omap stops arr)) p') ∧
    Forall (λ e, is_send e = true ∨ is_log e = true) t ∧
    p' = set_clients (clients p') p ∧
    dom (clients p') = dom (clients p).
Proof.
  destruct (RunListener_spec arr p) as (t & Hrun & _ & Hev).
  eexists _, _. split; [exact Hrun|]. split; [done|]. split; [done|].
  cbn [clients set_clients].
  apply set_eq. intros key. rewrite !elem_of_dom, deliver_all_lookup.
  by rewrite fmap_is_Some.
Qed.

(** X2. While the listener is receiving, the inbound queue of every
    session is the queue it had, followed by the packets of the datagrams
    from its address, in the order of arrival (general and event port
    interleaved as they arrived); a packet from the event port carries
    its receive timestamp, one from the general port the zero time. *)
Theorem RunListener_queues arr p key :
  Forall (λ a, stops a = None) arr →
  ∃ t p',
    RunListener arr p = (t, Done None p') ∧
    clients p' !! key =
      (λ cc, mkClient (clientAddr cc) (inChan cc ++ inbound key arr))
        <$> clients p !! key.
Proof.
  intros [Hall Hnone]%handled_all.
  destruct (RunListener_spec arr p) as (t & Hrun & _).
  rewrite Hall, Hnone in Hrun.
  eexists _, _. split; [exact Hrun|].
  cbn [clients set_clients]. apply deliver_all_lookup.
Qed.

(** X3. While the listener is receiving, it sends exactly the datagrams
    whose source address is a session key, once each and in the order of
    arrival, each to the session of that key: a datagram from any other
    source is never sent anywhere. *)
Theorem RunListener_sends arr p :
  Forall (λ a, stops a = None) arr →
  List.filter is_send (RunListener arr p).1 = sends p arr.
Proof.
  intros [Hall Hnone]%handled_all.
  destruct (RunListener_spec arr p) as (t & Hrun & Hsend & _).
  rewrite Hrun. cbn [fst]. by rewrite Hsend, Hall.
Qed.

(** ** The tick duration *)

Lemma record_tick_reports now p :
  lastTick p ≠ 0 →
  min_int64 ≤ 110 * Interval (cfg p) ≤ max_int64 →
  min_int64 ≤ 100 * (now - lastTick p) ≤ max_int64 →
  List.filter is_tick_report (record_tick now p).1 =
  (if (11 * Interval (cfg p) <? 10 * (now - lastTick p))
      || (10 * (now - lastTick p) <? 9 * Interval (cfg p))
   then [EvLog LWarning
           "tick took %vms, which is outside of expected +-10%% from the interval %vms"]
   else [])
  ++ [EvSetCounter "ptp.sptp.tick_duration_ns" (now - lastTick p)].
Proof.
  intros Hz Hi Hd.
  assert (IsZero (lastTick p) = false) as Hnz by (by apply Z.eqb_neq).
  assert (Sub now (lastTick p) = now - lastTick p) as Hsub.
  { unfold Sub, min_int64, max_int64 in *. lia. }
  assert (int64_mul 110 (Interval (cfg p)) = 110 * Interval (cfg p)) as H110
    by (by apply wrap64_id).
  assert (int64_mul 100 (now - lastTick p) = 100 * (now - lastTick p)) as H100
    by (by apply wrap64_id).
  assert (int64_mul 90 (Interval (cfg p)) = 90 * Interval (cfg p)) as H90.
  { apply wrap64_id. unfold min_int64, max_int64 in *. lia. }
  unfold record_tick. rewrite bind_run. cbn [get fst snd app].
  rewrite bind_run, Hnz. cbn [negb when].
  rewrite Hsub, H110, H100, H90.
  assert (((110 * Interval (cfg p) <? 100 * (now - lastTick p))
           || (100 * (now - lastTick p) <? 90 * Interval (cfg p)))
          = ((11 * Interval (cfg p) <? 10 * (now - lastTick p))
             || (10 * (now - lastTick p) <? 9 * Interval (cfg p)))) as ->.
  { f_equal.
    - destruct (Z.ltb_spec (110 * Interval (cfg p)) (100 * (now - lastTick p))),
        (Z.ltb_spec (11 * Interval (cfg p)) (10 * (now - lastTick p))); lia.
    - destruct (Z.ltb_spec (100 * (now - lastTick p)) (90 * Interval (cfg p))),
        (Z.ltb_spec (10 * (now - lastTick p)) (9 * Interval (cfg p))); lia. }
  destruct (_ || _); reflexivity.
Qed.

(** X4. From the second tick on, and as long as the products of line 300
    do not overflow, a tick publishes its duration (the time since the
    previous tick) in the counter [ptp.sptp.tick_duration_ns], and warns
    about it exactly when it is more than 10% longer or more than 10%
    shorter than the configured interval; a duration of exactly 110% or
    90% of the interval is accepted without a warning. *)
Theorem tick_duration_window ti p :
  peers_ok p → lastTick p ≠ 0 →
  min_int64 ≤ 110 * Interval (cfg p) ≤ max_int64 →
  min_int64 ≤ 100 * (now_at ti - lastTick p) ≤ max_int64 →
  List.filter is_tick_report (runInternal_tick ti p).1 =
  (if (11 * Interval (cfg p) <? 10 * (now_at ti - lastTick p))
      || (10 * (now_at ti - lastTick p) <? 9 * Interval (cfg p))
   then [EvLog LWarning
           "tick took %vms, which is outside of expected +-10%% from the interval %vms"]
   else [])
  ++ [EvSetCounter "ptp.sptp.tick_duration_ns" (now_at ti - lastTick p)].
Proof.
  intros Hok Hz Hi Hd. rewrite tick_filter; try done.
  - by apply record_tick_reports.
  - by intros [].
  - intros []; try done. simpl. by intros ->%negb_true_iff.
  - intros []; try done. simpl. by intros ->%negb_true_iff.
Qed.

Lemma fan_out_results_lookup ti p addr :
  fan_out_results ti p !! addr =
  match clients p !! addr with
  | Some c => exchange_result ti p addr c <$> backoff p !! addr
  | None => None
  end.
Proof.
  unfold fan_out_results. rewrite map_lookup_imap.
  by destruct (clients p !! addr).
Qed.

(** ** The statistics of a tick *)

Lemma aggregate_result_stats addr res acc p :
  List.filter is_gm_stats (aggregate_result addr res acc p).1 =
  [gm_stats p (addr, res)].
Proof.
  unfold aggregate_result, handleExchangeError, backoff_at, store_backoff, bind,
    get, when, log, emit, modify, ret, panic, gm_stats. simpl.
  destruct (Error res) as [err|]; simpl.
  - destruct (errors_Is_errBackoff err); simpl;
      destruct (backoff p !! addr); simpl; try destruct (negb _); done.
  - destruct (backoff p !! addr); simpl; [|done].
    destruct (Measurement res); done.
Qed.

Lemma aggregate_loop_stats (l : list (string * RunResult)) acc p :
  (∀ a r, (a, r) ∈ l → is_Some (backoff p !! a)) →
  List.filter is_gm_stats (for_range l aggregate_result acc p).1 =
  gm_stats p <$> l.
Proof.
  revert acc p. induction l as [|[a r] l IH]; intros acc p Hdom; [done|].
  destruct (Hdom a r) as [b Hb]; [left|].
  cbn [for_range]. rewrite bind_run.
  pose proof (aggregate_result_done a r acc p b Hb) as Hstep.
  pose proof (aggregate_result_stats a r acc p) as Hstats.
  destruct (aggregate_result a r acc p) as [t o]. simpl in Hstep, Hstats.
  subst o. simpl. rewrite List.filter_app, Hstats, IH.
  - done.
  - intros a' r' Hin. simpl.
    rewrite <- (backoff_step_insert _ _ r _ Hb), backoff_step_dom.
    apply (Hdom a' r'). by right.
Qed.

Lemma processResults_stats rg now results p :
  backoffs_cover p results →
  List.filter is_gm_stats (processResults rg now results p).1 =
  gm_stats p <$> range rg _ results.
Proof.
  intros Hc. rewrite (processResults_run _ _ _ _ Hc). cbn [fst].
  rewrite !List.filter_app.
  rewrite (filter_none _ _ _ (record_tick_events _ p)) by (by intros []).
  rewrite (filter_none _ _ _ (select_master_events _ _ _)) by (by intros []).
  cbn [List.filter is_gm_stats app]. rewrite app_nil_r.
  unfold aggregate_all.
  pose proof (aggregate_loop_stats (range rg _ results) aggregate0
                (set_lastTick now p)) as Hs.
  rewrite Hs; [by destruct p|].
  intros a r Hin. by apply (backoffs_cover_range p rg _ Hc a r).
Qed.

(** X5. A tick hands exactly one statistics record per session to the
    sink, in the order in which it ranges over the results; the record
    carries the result of that peer, its configured priority, and as
    [selected] whether the peer is the master selected before this tick
    (not the one this tick selects). *)
Theorem tick_gm_stats ti p :
  peers_ok p →
  List.filter is_gm_stats (runInternal_tick ti p).1 =
  gm_stats p <$> range (range_of ti) _ (fan_out_results ti p) ∧
  ∀ addr c,
    clients p !! addr = Some c →
    ∃ res,
      fan_out_results ti p !! addr = Some res ∧
      gm_stats p (addr, res) ∈ List.filter is_gm_stats (runInternal_tick ti p).1.
Proof.
  intros Hok.
  assert (List.filter is_gm_stats (runInternal_tick ti p).1 =
          gm_stats p <$> range (range_of ti) _ (fan_out_results ti p)) as Hl.
  { rewrite (tick_run _ _ Hok). cbn [fst]. rewrite List.filter_app.
    rewrite (filter_none _ _ _ (fan_out_events ti p)) by (by intros []).
    apply processResults_stats. by apply fan_out_cover. }
  split; [done|]. intros addr c Hc.
  destruct (peers_ok_cover p addr c Hok Hc) as [b Hb].
  exists (exchange_result ti p addr c b). split.
  - by rewrite fan_out_results_lookup, Hc, Hb.
  - rewrite Hl.
    apply (list_elem_of_fmap_2 (gm_stats p) _
             (addr, exchange_result ti p addr c b)).
    apply range_elem. by rewrite fan_out_results_lookup, Hc, Hb.
Qed.

(** ** What a tick changes *)

Lemma discipline_frame bm p :
  ∃ s k, (discipline bm p).2 = Done tt (set_clock k (set_pi s p)).
Proof.
  destruct (Sample (pi p) (Offset bm) (uint64 (UnixNano (Timestamp bm))))
    as [[freqAdj st] pi'] eqn:Hs.
  destruct st.
  - rewrite (discipline_other _ _ _ _ _ Hs) by done.
    exists pi', (clock p). by destruct p.
  - rewrite (discipline_jump _ _ _ _ Hs). by eexists _, _.
  - rewrite (discipline_locked _ _ _ _ Hs). by eexists _, _.
  - rewrite (discipline_other _ _ _ _ _ Hs) by done.
    exists pi', (clock p). by destruct p.
Qed.

Lemma discipline_quiet bm p :
  List.filter is_new_master (discipline bm p).1 = [].
Proof.
  destruct (Sample (pi p) (Offset bm) (uint64 (UnixNano (Timestamp bm))))
    as [[freqAdj st] pi'] eqn:Hs.
  assert (∀ err format, List.filter is_new_master (error_log err format) = [])
    as Herr.
  { intros err format. unfold error_log. by destruct (bool_decide _). }
  destruct st.
  - by rewrite (discipline_other _ _ _ _ _ Hs).
  - rewrite (discipline_jump _ _ _ _ Hs). cbn [fst].
    by rewrite List.filter_app, Herr.
  - rewrite (discipline_locked _ _ _ _ Hs). cbn [fst].
    rewrite !List.filter_app, Herr.
    destruct (isSysClock _); [|done].
    cbn [List.filter is_new_master app]. by rewrite Herr.
  - by rewrite (discipline_other _ _ _ _ _ Hs).
Qed.

(** The address of the winner belongs to a result of the tick that has
    no error and a measurement, and that advertises the identity BMCA
    picked. *)
Lemma best_address_inv p rg results a :
  bmca_sound →
  best_address p rg results = Some a →
  ∃ best r bm,
    bmca (announces (candidates p rg results))
         (localPrioMap (candidates p rg results)) = Some best ∧
    a = default "" (idsToClients (candidates p rg results)
                      !! ptp.GrandmasterIdentity best) ∧
    results !! a = Some r ∧ Error r = None ∧ Measurement r = Some bm ∧
    ptp.GrandmasterIdentity (Announce bm) = ptp.GrandmasterIdentity best.
Proof.
  intros Hsound. unfold best_address.
  destruct (bmca _ _) as [best|] eqn:Hbest; [|done].
  intros [= <-]. exists best. pose proof Hbest as Hin. apply Hsound in Hin.
  unfold candidates in *. rewrite aggregate_loop_included in *.
  rewrite include_announces in Hin. simpl in Hin.
  apply list_elem_of_fmap_1 in Hin as ([a0 m] & -> & Hin). simpl.
  destruct (include_ids_some p _ a0 m Hin) as [a' Ha']. rewrite Ha'. simpl.
  apply include_ids_inv in Ha' as (m' & Hin' & Hid).
  apply included_elem in Hin' as (r & Hr%range_elem & Hu).
  apply usable_iff in Hu as [He Hm].
  by exists r, m'.
Qed.

Lemma select_master_frame p0 rg results p :
  bmca_sound →
  ∃ s k,
    (select_master results (candidates p0 rg results) p).2 =
      Done tt (set_clock k (set_pi s
                 (set_bestGM (default "" (best_address p0 rg results)) p))) ∧
    List.filter is_new_master
      (select_master results (candidates p0 rg results) p).1 =
      match best_address p0 rg results with
      | Some a =>
          if String.eqb (bestGM p) a then []
          else [EvLog LWarning "new best master selected: %q (%s)"]
      | None => []
      end.
Proof.
  intros Hsound. unfold best_address.
  destruct (bmca (announces (candidates p0 rg results))
              (localPrioMap (candidates p0 rg results))) as [best|] eqn:Hbest.
  - destruct (winner_exists _ _ _ _ Hsound Hbest) as (r & bm & Hr & Hm & _).
    rewrite (select_master_some _ _ _ _ _ _ Hbest Hr Hm). cbn [fst snd default].
    destruct (discipline_frame bm
                (set_bestGM
                   (default "" (idsToClients (candidates p0 rg results)
                                  !! ptp.GrandmasterIdentity best)) p))
      as (s & k & ->).
    exists s, k. split; [done|].
    cbn [List.filter is_new_master]. rewrite List.filter_app.
    cbn [List.filter is_new_master String.eqb]. rewrite discipline_quiet.
    rewrite app_nil_r. by destruct (String.eqb (bestGM p) _).
  - rewrite (select_master_none _ _ _ Hbest). cbn [fst snd default].
    exists (pi p), (clock p). split; [by destruct p|done].
Qed.

Lemma for_range_filter_nil {A Acc} (f : event → bool)
    (body : string → A → Acc → @M S K B Acc) (l : list (string * A)) :
  (∀ k v acc p, List.filter f (body k v acc p).1 = []) →
  ∀ acc p, List.filter f (for_range l body acc p).1 = [].
Proof.
  intros Hbody. induction l as [|[k v] l IH]; intros acc p; [done|].
  cbn [for_range]. rewrite bind_run. specialize (Hbody k v acc p).
  destruct (body k v acc p) as [t [acc' p'|]]; simpl in *; [|done].
  by rewrite List.filter_app, Hbody, IH.
Qed.

Lemma aggregate_result_quiet addr res acc p :
  List.filter is_new_master (aggregate_result addr res acc p).1 = [].
Proof.
  unfold aggregate_result, handleExchangeError, backoff_at, store_backoff, bind,
    get, when, log, emit, modify, ret, panic. simpl.
  destruct (Error res) as [err|]; simpl.
  - destruct (errors_Is_errBackoff err); simpl;
      destruct (backoff p !! addr); simpl; try destruct (negb _); done.
  - destruct (backoff p !! addr); simpl; [|done].
    destruct (Measurement res); done.
Qed.

Lemma record_tick_quiet now p :
  List.filter is_new_master (record_tick now p).1 = [].
Proof.
  unfold record_tick, bind, get, when, log, emit, modify, ret. simpl.
  destruct (negb (IsZero (lastTick p))); simpl; [|done].
  destruct (_ || _); done.
Qed.

(** The client after [processResults]: the backoffs updated by the loop,
    the tick time, the winner's address, and a servo and a clock. *)
Lemma processResults_state rg now results p :
  bmca_sound → backoffs_cover p results →
  ∃ s k,
    (processResults rg now results p).2 =
      Done tt (set_clock k (set_pi s
                 (set_bestGM (default "" (best_address p rg results))
                    (aggregated p rg now results)))) ∧
    List.filter is_new_master (processResults rg now results p).1 =
      match best_address p rg results with
      | Some a =>
          if String.eqb (bestGM p) a then []
          else [EvLog LWarning "new best master selected: %q (%s)"]
      | None => []
      end.
Proof.
  intros Hsound Hc. rewrite (processResults_run _ _ _ _ Hc). cbn [fst snd].
  destruct (select_master_frame p rg results (aggregated p rg now results)
              Hsound) as (s & k & Hst & Hlog).
  exists s, k. split; [done|].
  rewrite !List.filter_app, Hlog, record_tick_quiet. unfold aggregate_all.
  rewrite (for_range_filter_nil _ _ _ aggregate_result_quiet).
  by destruct p.
Qed.

Lemma tick_state ti p :
  bmca_sound → peers_ok p →
  let results := fan_out_results ti p in
  ∃ s k,
    (runInternal_tick ti p).2 =
      Done tt (set_clock k (set_pi s
                 (set_bestGM
                    (default "" (best_address p (range_of ti) results))
                    (aggregated p (range_of ti) (now_at ti) results)))) ∧
    List.filter is_new_master (runInternal_tick ti p).1 =
      match best_address p (range_of ti) results with
      | Some a =>
          if String.eqb (bestGM p) a then []
          else [EvLog LWarning "new best master selected: %q (%s)"]
      | None => []
      end.
Proof.
  intros Hsound Hok results. subst results.
  rewrite (tick_run _ _ Hok). cbn [fst snd].
  destruct (processResults_state (range_of ti) (now_at ti)
              (fan_out_results ti p) p Hsound
              (fan_out_cover ti p Hok)) as (s & k & Hst & Hlog).
  exists s, k. split; [done|].
  rewrite List.filter_app, Hlog.
  by rewrite (filter_none _ _ _ (fan_out_events ti p)) by (by intros []).
Qed.

(** X6. A tick leaves as selected master the address of BMCA's winner,
    or the empty string when BMCA picks none.  The address selected is
    that of a session whose exchange of this tick ended without error and
    with a measurement advertising the grandmaster identity BMCA picked;
    the warning about a new best master is logged exactly when that
    address differs from the one selected before the tick. *)
Theorem tick_best_master ti p :
  bmca_sound → peers_ok p →
  ∃ t p',
    runInternal_tick ti p = (t, Done tt p') ∧
    match best_address p (range_of ti) (fan_out_results ti p) with
    | None =>
        bestGM p' = "" ∧ List.filter is_new_master t = []
    | Some a =>
        bestGM p' = a ∧
        (∃ best c r bm,
           bmca (announces (candidates p (range_of ti) (fan_out_results ti p)))
                (localPrioMap
                   (candidates p (range_of ti) (fan_out_results ti p)))
             = Some best ∧
           clients p !! a = Some c ∧
           fan_out_results ti p !! a = Some r ∧
           Error r = None ∧ Measurement r = Some bm ∧
           ptp.GrandmasterIdentity (Announce bm)
             = ptp.GrandmasterIdentity best) ∧
        List.filter is_new_master t =
          if String.eqb (bestGM p) a then []
          else [EvLog LWarning "new best master selected: %q (%s)"]
    end.
Proof.
  intros Hsound Hok.
  destruct (tick_state ti p Hsound Hok) as (s & k & Hst & Hlog).
  destruct (runInternal_tick ti p) as [t o]. cbn [fst snd] in Hst, Hlog.
  subst o. eexists t, _. split; [reflexivity|].
  destruct (best_address p (range_of ti) (fan_out_results ti p)) as [a|] eqn:Ha;
    [|done].
  split; [done|]. split; [|done].
  destruct (best_address_inv _ _ _ _ Hsound Ha)
    as (best & r & bm & Hbest & _ & Hr & He & Hm & Hid).
  pose proof Hr as Hr'. rewrite fan_out_results_lookup in Hr'.
  destruct (clients p !! a) as [c|] eqn:Hcl; [|done].
  by exists best, c, r, bm.
Qed.

(** ** Suppressed peers *)

Lemma tick_backoff_at ti p addr c b :
  bmca_sound → peers_ok p →
  clients p !! addr = Some c → backoff p !! addr = Some b →
  ∃ t p',
    runInternal_tick ti p = (t, Done tt p') ∧
    backoff p' !! addr
      = Some (backoff_update (exchange_result ti p addr c b) b) ∧
    List.filter (is_backoff_call addr) t
      = [backoff_call addr (exchange_result ti p addr c b)] ∧
    List.filter (is_exchange addr) t
      = if active b then [] else [EvGoRunOnce addr (ExchangeTimeout (cfg p))].
Proof.
  intros Hsound Hok Hc Hb.
  destruct (tick_state ti p Hsound Hok) as (s & k & Hst & _).
  pose proof (fan_out_cover ti p Hok) as Hcov.
  assert (fan_out_results ti p !! addr = Some (exchange_result ti p addr c b))
    as Hres by (by rewrite fan_out_results_lookup, Hc, Hb).
  pose proof (tick_run ti p Hok) as Hrun.
  destruct (runInternal_tick ti p) as [t o]. cbn [fst snd] in Hst. subst o.
  injection Hrun as Ht _. eexists t, _. split; [reflexivity|].
  cbn [backoff set_clock set_pi set_bestGM aggregated set_backoff].
  split; [|split].
  - apply backoff_loop_at; [apply range_NoDup|by apply range_elem|done].
  - rewrite Ht, List.filter_app.
    rewrite (filter_none _ _ _ (fan_out_events ti p)) by (by intros []).
    by apply processResults_backoff_calls.
  - rewrite Ht, List.filter_app, processResults_no_exchange by done.
    rewrite app_nil_r. unfold fan_out. rewrite bind_run. cbn [get fst app].
    apply (fan_out_loop_exchanges ti _ ∅ p addr c b).
    + apply range_NoDup.
    + intros a c' Hin%range_elem. by apply (peers_ok_cover p a c').
    + by apply range_elem.
    + done.
Qed.

(** X7. A peer whose backoff is active when the tick begins is not
    contacted in that tick: no exchange is started for it, the sentinel
    result stored in its place is recognised by [handleExchangeError],
    and its backoff is counted down by exactly one call of [tick],
    neither bumped nor reset. *)
Theorem tick_suppressed ti p addr c b :
  bmca_sound → peers_ok p →
  clients p !! addr = Some c → backoff p !! addr = Some b →
  active b = true →
  ∃ t p',
    runInternal_tick ti p = (t, Done tt p') ∧
    List.filter (is_exchange addr) t = [] ∧
    fan_out_results ti p !! addr
      = Some (mkRunResult addr None (Some errBackoff)) ∧
    List.filter (is_backoff_call addr) t = [EvBackoffTick addr] ∧
    backoff p' !! addr = Some (tick b).2.
Proof.
  intros Hsound Hok Hc Hb Hact.
  destruct (tick_backoff_at ti p addr c b Hsound Hok Hc Hb)
    as (t & p' & Hrun & Hb' & Hcalls & Hex).
  exists t, p'. split; [done|].
  rewrite Hact in Hex. split; [done|].
  assert (exchange_result ti p addr c b
          = mkRunResult addr None (Some errBackoff)) as Hres
    by (unfold exchange_result; by rewrite Hact).
  rewrite Hres in Hb', Hcalls.
  rewrite fan_out_results_lookup, Hc, Hb. cbn [fmap option_fmap option_map].
  rewrite Hres. by split.
Qed.

Lemma fan_out_loop_idle ti (l : list (string * Client)) acc p :
  (∀ a c, (a, c) ∈ l → ∃ b, backoff p !! a = Some b ∧ active b = true) →
  (for_range l (spawn ti) acc p).1 = [].
Proof.
  revert acc. induction l as [|[a c] l IH]; intros acc Hact; [done|].
  destruct (Hact a c) as (b & Hb & Ha); [left|].
  cbn [for_range]. rewrite bind_run, (spawn_run _ _ _ _ _ _ Hb), Ha.
  cbn [fst app]. apply IH. intros a' c' Hin. apply (Hact a' c'). by right.
Qed.

Lemma candidates_none p rg results :
  (∀ a r, results !! a = Some r → is_Some (Error r)) →
  candidates p rg results = aggregate0.
Proof.
  intros Herr. unfold candidates. rewrite aggregate_loop_included.
  assert (included (range rg _ results) = []) as ->; [|done].
  destruct (included (range rg _ results)) as [|[a m] l] eqn:Hi; [done|].
  assert ((a, m) ∈ included (range rg _ results)) as Hin by (rewrite Hi; left).
  apply included_results in Hin as (r & Hr & He & _).
  destruct (Herr a r Hr) as [err Herr']. congruence.
Qed.

(** X8. When every session is in backoff (in particular when there is
    no session at all), a tick starts no exchange, BMCA is called with no
    candidate and no priority, no master is selected, and neither the
    servo nor the clock is touched. *)
Theorem tick_all_suppressed ti p :
  bmca_sound → peers_ok p →
  (∀ addr b, backoff p !! addr = Some b → active b = true) →
  ∃ t p',
    runInternal_tick ti p = (t, Done tt p') ∧
    List.filter is_go t = [] ∧
    List.filter is_bmca t = [EvBMCA [] ∅] ∧
    Forall (λ e, is_servo_sample e = false ∧ is_clock_call e = false) t ∧
    bestGM p' = "" ∧ pi p' = pi p ∧ clock p' = clock p.
Proof.
  intros Hsound Hok Hact.
  pose proof (fan_out_cover ti p Hok) as Hcov.
  assert (candidates p (range_of ti) (fan_out_results ti p) = aggregate0)
    as Hcand.
  { apply candidates_none. intros a r. rewrite fan_out_results_lookup.
    destruct (clients p !! a) as [c|]; [|done].
    destruct (backoff p !! a) as [b|] eqn:Hb; [|done].
    intros [= <-]. unfold exchange_result. by rewrite (Hact a b Hb). }
  assert (bmca [] ∅ = None) as Hnone.
  { destruct (bmca [] ∅) as [best|] eqn:Hbest; [|done].
    apply Hsound in Hbest. by apply elem_of_nil in Hbest. }
  assert ((fan_out ti p).1 = []) as Hidle.
  { unfold fan_out. rewrite bind_run. cbn [get fst app].
    apply fan_out_loop_idle. intros a c Hin%range_elem.
    destruct (peers_ok_cover p a c Hok Hin) as [b Hb].
    exists b. split; [done|]. by apply (Hact a b). }
  rewrite (tick_run _ _ Hok), Hidle.
  rewrite (processResults_run _ _ _ _ Hcov). cbn zeta. rewrite Hcand.
  cbn [announces localPrioMap aggregate0 gmsAvailable].
  rewrite (select_master_none _ aggregate0 _ Hnone).
  cbn [fst snd announces localPrioMap aggregate0 app].
  eexists _, _. split; [reflexivity|].
  pose proof (before_selection_calm ti p Hok) as Hcalm.
  rewrite Hidle in Hcalm. cbn [app] in Hcalm.
  apply Forall_app in Hcalm as [Hrec Hagg].
  split; [|split; [|split]].
  - rewrite !List.filter_app.
    rewrite (filter_none _ _ _ (record_tick_events _ p)) by (by intros []).
    unfold aggregate_all.
    by rewrite (filter_none _ _ _ (aggregate_loop_events _ _ _))
      by (by intros []).
  - rewrite !List.filter_app.
    rewrite (filter_none _ _ _ (record_tick_events _ p)) by (by intros []).
    unfold aggregate_all.
    by rewrite (filter_none _ _ _ (aggregate_loop_events _ _ _))
      by (by intros []).
  - rewrite !Forall_app. split; [done|]. split; [done|].
    repeat (apply List.Forall_cons; [done|]). apply List.Forall_nil.
  - by destruct p.
Qed.

(** ** What [processResults] leaves alone *)

Lemma range_fresh {A} rg (m : gmap string A) a :
  m !! a = None → a ∉ (range rg A m).*1.
Proof.
  intros Hnone Hin. apply list_elem_of_fmap_1 in Hin as ([a' x] & -> & Hin).
  apply range_elem in Hin. simpl in Hnone. congruence.
Qed.

(** X9. [processResults] keeps the configuration, the sessions, the
    priorities and the clock identity, and the set of peers that have a
    backoff; it records the tick time.  For a peer that has no result in
    the map it makes no call on the backoff and leaves it as it is. *)
Theorem processResults_frame rg now results p :
  bmca_sound → backoffs_cover p results →
  ∃ t p',
    processResults rg now results p = (t, Done tt p') ∧
    same_sessions p p' ∧ lastTick p' = now ∧
    ∀ addr, results !! addr = None →
            backoff p' !! addr = backoff p !! addr ∧
            List.filter (is_backoff_call addr) t = [].
Proof.
  intros Hsound Hc.
  destruct (processResults_state rg now results p Hsound Hc)
    as (s & k & Hst & _).
  pose proof (processResults_run rg now results p Hc) as Hrun.
  destruct (processResults rg now results p) as [t o].
  cbn [fst snd] in Hst. subst o. cbn zeta in Hrun. injection Hrun as Ht _.
  eexists t, _. split; [reflexivity|]. split; [|split; [done|]].
  - unfold same_sessions.
    cbn [cfg clients priorities clockID backoff set_clock set_pi set_bestGM
         aggregated set_backoff set_lastTick].
    by rewrite backoff_loop_dom.
  - intros addr Hnone.
    cbn [backoff set_clock set_pi set_bestGM aggregated set_backoff].
    pose proof (range_fresh rg results addr Hnone) as Hfresh.
    split; [by apply backoff_loop_other|].
    rewrite Ht, !List.filter_app.
    rewrite (filter_none _ _ _ (record_tick_events now p)) by (by intros []).
    cbn [List.filter is_backoff_call].
    rewrite (filter_none _ _ _ (select_master_events _ _ _)) by (by intros []).
    unfold aggregate_all. by rewrite aggregate_loop_backoff_silent.
Qed.

(** ** The availability counters *)

Lemma included_length (l : list (string * RunResult)) :
  (length (included l) ≤ length l)%nat.
Proof.
  unfold included. induction l as [|[a r] l IH]; [done|].
  cbn [omap list_omap fst snd].
  destruct (usable r); cbn [fmap option_fmap option_map length]; lia.
Qed.

(** X11. A tick publishes the number of sessions as [ptp.sptp.gms.total]
    and, with fewer than 50 sessions, exactly the rounded-down percentage
    of the sessions whose exchange gave a measurement without error as
    [ptp.sptp.gms.available_pct] (0 when there is no session). *)
Theorem tick_availability ti p :
  peers_ok p → (size (clients p) < 50)%nat →
  let total := Z.of_nat (size (clients p)) in
  let available :=
    Z.of_nat (length (included (map_to_list (fan_out_results ti p)))) in
  List.filter (is_counter "ptp.sptp.gms.total") (runInternal_tick ti p).1
    = [EvSetCounter "ptp.sptp.gms.total" total] ∧
  List.filter (is_counter "ptp.sptp.gms.available_pct")
    (runInternal_tick ti p).1
    = [EvSetCounter "ptp.sptp.gms.available_pct" (100 * available / total)] ∧
  0 ≤ available ≤ total.
Proof.
  intros Hok Hsize total available.
  pose proof (fan_out_cover ti p Hok) as Hc.
  destruct (processResults_counters (range_of ti) (now_at ti)
              (fan_out_results ti p) p Hc) as [Htot Hpct].
  cbn zeta in Htot, Hpct. rewrite (fan_out_results_size _ _ Hok) in Htot, Hpct.
  assert (0 ≤ available ≤ total) as Hle.
  { subst available total. rewrite <- (fan_out_results_size ti p Hok).
    pose proof (included_length (map_to_list (fan_out_results ti p))) as Hl.
    rewrite length_map_to_list in Hl. lia. }
  rewrite (tick_run _ _ Hok). cbn [fst]. rewrite !List.filter_app.
  rewrite !(filter_none _ _ _ (fan_out_events ti p)) by (by intros []).
  cbn [app]. split; [done|]. split; [|done].
  rewrite Hpct. fold total available.
  destruct (Z.eqb_spec total 0) as [Hz|Hnz].
  - rewrite Hz. by rewrite Z.div_0_r.
  - rewrite available_pct_exact; [done| |done]. subst total. lia.
Qed.

(** ** The whole run *)

Lemma same_sessions_refl p : same_sessions p p.
Proof. by unfold same_sessions. Qed.

Lemma same_sessions_trans p1 p2 p3 :
  same_sessions p1 p2 → same_sessions p2 p3 → same_sessions p1 p3.
Proof.
  unfold same_sessions. intros (?&?&?&?&?) (?&?&?&?&?).
  repeat split; congruence.
Qed.

Lemma same_sessions_ok p p' : same_sessions p p' → peers_ok p → peers_ok p'.
Proof.
  unfold same_sessions, peers_ok. intros (_ & Hc & Hp & _ & Hb) [Hb0 Hp0].
  rewrite Hc, Hp, Hb. by split.
Qed.

Lemma tick_sessions ti p :
  bmca_sound → peers_ok p →
  ∃ t p', runInternal_tick ti p = (t, Done tt p') ∧ same_sessions p p' ∧
          lastTick p' = now_at ti.
Proof.
  intros Hsound Hok.
  destruct (tick_state ti p Hsound Hok) as (s & k & Hst & _).
  destruct (runInternal_tick ti p) as [t o]. cbn [fst snd] in Hst. subst o.
  eexists t, _. split; [reflexivity|]. split; [|done].
  unfold same_sessions.
  cbn [cfg clients priorities clockID backoff set_clock set_pi set_bestGM
       aggregated set_backoff set_lastTick].
  by rewrite backoff_loop_dom.
Qed.

Lemma main_loop_returns sel p :
  bmca_sound → peers_ok p →
  ∃ t p', main_loop sel p = (t, Done (head (omap cancelled sel)) p') ∧
          same_sessions p p'.
Proof.
  intros Hsound. revert p. induction sel as [|[ctxErr|ti] sel IH]; intros p Hok.
  - exists [], p. split; [done|]. apply same_sessions_refl.
  - rewrite main_loop_cancel. eexists _, _. split; [reflexivity|].
    by unfold same_sessions.
  - destruct (tick_sessions ti p Hsound Hok) as (t1 & p1 & Ht & Hs1 & _).
    destruct (IH p1 (same_sessions_ok _ _ Hs1 Hok)) as (t2 & p2 & Hl & Hs2).
    rewrite (main_loop_timer _ _ _ _ _ Ht), Hl. cbn [fst snd].
    eexists _, p2. split; [reflexivity|].
    by apply (same_sessions_trans p p1 p2).
Qed.

Lemma main_loop_stopped sel rest p :
  is_Some (head (omap cancelled sel)) →
  main_loop (sel ++ rest) p = main_loop sel p.
Proof.
  revert p. induction sel as [|[ctxErr|ti] sel IH]; intros p Hstop.
  - by destruct Hstop.
  - done.
  - cbn [app main_loop]. rewrite !bind_run. cbn [get fst snd app].
    rewrite !bind_run. cbn [emit fst snd app]. rewrite !bind_run.
    destruct (runInternal_tick ti p) as [t [[] p'|]]; [|done].
    cbn [fst snd]. by rewrite IH.
Qed.

(** X12. On a client whose sessions all have a backoff, and with a
    BMCA that picks its winner among the candidates, [runInternal] never
    panics, whatever the exchanges give and however many ticks it runs.
    It returns the error of the context when the context is done and
    only then; nothing runs after that.  The configuration, the
    sessions, the priorities and the set of peers with a backoff are the
    same at the end of the run. *)
Theorem runInternal_returns sel p :
  bmca_sound → peers_ok p →
  (∃ t p', runInternal sel p = (t, Done (head (omap cancelled sel)) p') ∧
           same_sessions p p' ∧ peers_ok p') ∧
  (∀ rest, is_Some (head (omap cancelled sel)) →
           runInternal (sel ++ rest) p = runInternal sel p).
Proof.
  intros Hsound Hok. split.
  - rewrite runInternal_run.
    assert (same_sessions p (synced p)) as Hs0 by (by unfold same_sessions).
    destruct (main_loop_returns sel (synced p) Hsound
                (same_sessions_ok _ _ Hs0 Hok)) as (t & p' & Hl & Hs).
    rewrite Hl. cbn [fst snd]. eexists _, p'. split; [reflexivity|].
    pose proof (same_sessions_trans _ _ _ Hs0 Hs) as Hs'.
    split; [done|]. by apply (same_sessions_ok p p').
  - intros rest Hstop. rewrite !runInternal_run.
    by rewrite main_loop_stopped.
Qed.

(** ** Initialisation *)

Lemma lift_inr {A} (x : error + A) t a :
  lift x = (t, inr a) → x = inr a ∧ t = [].
Proof. unfold lift. by intros [= <- ->]. Qed.

Lemma check_inr (x : option error) t u :
  check x = (t, inr u) → x = None ∧ t = [].
Proof. destruct x; [done|]. by intros [= <-]. Qed.

Lemma check_wrap_inr msg (x : option error) t u :
  check_wrap msg x = (t, inr u) → x = None ∧ t = [].
Proof. destruct x; [done|]. by intros [= <-]. Qed.

(** [init] returns nil only when every step before has succeeded. *)
Lemma init_inv env c t p :
  init env c = (t, inr p) →
  ∃ hw cid fd t1 t2 k t3 sk,
    InterfaceByName env (Iface c) = inr hw ∧
    NewClockIdentity env hw = inr cid ∧
    ListenUDP env PortGeneral = None ∧ ListenUDP env PortEvent = None ∧
    ConnFd env = inr fd ∧
    enableDSCP env fd (DSCP c) = None ∧
    enable_timestamps env c fd = (t1, inr tt) ∧
    SetNonblock env fd = None ∧
    choose_clock c = (t2, inr k) ∧
    init_servo c k = (t3, inr sk) ∧
    t = t1 ++ t2 ++ t3 ∧
    p = mkSPTP c sk.1 sk.2 "" ∅ ∅ ∅ 0 cid.
Proof.
  unfold init.
  intros (? & hw & ? & [Hif ->]%lift_inr & Hi & ->)%rbind_inr.
  apply rbind_inr in Hi as (? & cid & ? & [Hcid ->]%lift_inr & Hi & ->).
  apply rbind_inr in Hi as (? & [] & ? & [Hgen ->]%check_inr & Hi & ->).
  apply rbind_inr in Hi as (? & [] & ? & [Hev ->]%check_inr & Hi & ->).
  apply rbind_inr in Hi as (? & fd & ? & [Hfd ->]%lift_inr & Hi & ->).
  apply rbind_inr in Hi as (? & [] & ? & [Hdscp ->]%check_wrap_inr & Hi & ->).
  apply rbind_inr in Hi as (t1 & [] & ? & Hts & Hi & ->).
  apply rbind_inr in Hi as (? & [] & ? & [Hnb ->]%check_wrap_inr & Hi & ->).
  apply rbind_inr in Hi as (t2 & k & ? & Hk & Hi & ->).
  apply rbind_inr in Hi as (t3 & sk & ? & Hsk & Hi & ->).
  injection Hi as <- <-.
  exists hw, cid, fd, t1, t2, k, t3, sk. cbn [app]. rewrite app_nil_r.
  done.
Qed.

Lemma enable_timestamps_inv env c fd t :
  enable_timestamps env c fd = (t, inr tt) →
  (Timestamping c = "" ∧
   match EnableHWTimestamps env fd (Iface c) with
   | None => t = [EvLog LInfo "Using hardware timestamps"]
   | Some _ =>
       EnableSWTimestamps env fd = None ∧
       t = [EvLog LWarning
              "Failed to enable hardware timestamps on port %d, falling back to software timestamps"]
   end) ∨
  (Timestamping c = HWTIMESTAMP ∧
   EnableHWTimestamps env fd (Iface c) = None ∧ t = []) ∨
  (Timestamping c = SWTIMESTAMP ∧
   EnableSWTimestamps env fd = None ∧ t = []).
Proof.
  unfold enable_timestamps.
  destruct (String.eqb_spec (Timestamping c) "") as [->|_].
  - intros Hi. left. split; [done|].
    destruct (EnableHWTimestamps env fd (Iface c)) as [err|].
    + apply rbind_inr in Hi as (? & [] & ? & [Hsw ->]%check_wrap_inr & Hi & ->).
      by injection Hi as <-.
    + by injection Hi as <-.
  - destruct (String.eqb_spec (Timestamping c) HWTIMESTAMP) as [->|_].
    { intros [Hhw ->]%check_wrap_inr. right; left. done. }
    destruct (String.eqb_spec (Timestamping c) SWTIMESTAMP) as [->|_]; [|done].
    intros [Hsw ->]%check_wrap_inr. right; right. done.
Qed.

(** X13. [init] returns nil only if the interface and its clock
    identity were found, both ports could be bound, and the event socket
    got its DSCP, its timestamps and its blocking mode.  Timestamps are
    negotiated by the configured mode: hardware or software only when
    asked for by name, and in the automatic mode hardware first with
    software as the fallback, which is used (with a warning) exactly when
    enabling hardware timestamps failed. *)
Theorem init_requirements env c t p :
  init env c = (t, inr p) →
  ∃ hw fd,
    InterfaceByName env (Iface c) = inr hw ∧
    NewClockIdentity env hw = inr (clockID p) ∧
    ListenUDP env PortGeneral = None ∧ ListenUDP env PortEvent = None ∧
    ConnFd env = inr fd ∧
    enableDSCP env fd (DSCP c) = None ∧
    SetNonblock env fd = None ∧
    let fallback :=
      EvLog LWarning
        "Failed to enable hardware timestamps on port %d, falling back to software timestamps" in
    ((Timestamping c = "" ∧
      if bool_decide (is_Some (EnableHWTimestamps env fd (Iface c)))
      then EnableSWTimestamps env fd = None ∧ fallback ∈ t
      else fallback ∉ t) ∨
     (Timestamping c = HWTIMESTAMP ∧
      EnableHWTimestamps env fd (Iface c) = None ∧ fallback ∉ t) ∨
     (Timestamping c = SWTIMESTAMP ∧
      EnableSWTimestamps env fd = None ∧ fallback ∉ t)).
Proof.
  intros (hw & cid & fd & t1 & t2 & k & t3 & sk & Hif & Hcid & Hgen & Hev & Hfd
          & Hdscp & Hts & Hnb & Hk & Hsk & -> & ->)%init_inv.
  exists hw, fd. do 7 (split; [done|]). cbn zeta.
  assert (Forall (λ e, e ≠ EvLog LWarning
            "Failed to enable hardware timestamps on port %d, falling back to software timestamps")
            (t2 ++ t3)) as Hrest.
  { apply Forall_app. split.
    - unfold choose_clock in Hk. destruct (FreeRunning c).
      + apply rbind_inr in Hk as (? & [] & ? & Hlog & Hk & ->).
        injection Hlog as <-. injection Hk as <- _.
        by repeat constructor.
      + destruct (String.eqb _ _).
        * apply lift_inr in Hk as [_ ->]. constructor.
        * injection Hk as <- _. constructor.
    - unfold init_servo in Hsk.
      destruct (FrequencyPPB k) as [[freq err] k1].
      destruct (MaxFreqPPB k1) as [[maxFreq err'] k2].
      apply rbind_inr in Hsk as (? & [] & ? & [= <-] & Hsk & ->).
      apply rbind_inr in Hsk as (? & [] & ? & [= <-] & Hsk & ->).
      apply rbind_inr in Hsk as (? & [] & ? & [_ ->]%check_inr & Hsk & ->).
      apply rbind_inr in Hsk as (? & [] & ? & [= <-] & Hsk & ->).
      apply rbind_inr in Hsk as (? & res & ? & Hres & Hsk & ->).
      apply rbind_inr in Hsk as (? & [] & ? & [= <-] & Hsk & ->).
      injection Hsk as <- _.
      destruct err'.
      + apply rbind_inr in Hres as (? & [] & ? & [= <-] & Hres & ->).
        injection Hres as <- _. by repeat constructor.
      + apply rbind_inr in Hres as (? & [] & ? & [= <-] & Hres & ->).
        injection Hres as <- _. by repeat constructor. }
  assert (∀ e, e ∈ t2 ++ t3 → e ≠ EvLog LWarning
            "Failed to enable hardware timestamps on port %d, falling back to software timestamps")
    as Hrest' by (by apply Forall_forall).
  destruct (enable_timestamps_inv _ _ _ _ Hts)
    as [[Hm Hhw]|[(Hm & Hhw & ->)|(Hm & Hsw & ->)]].
  - left. split; [done|].
    destruct (EnableHWTimestamps env fd (Iface c)) as [err|].
    + destruct Hhw as [Hsw ->]. rewrite bool_decide_eq_true_2 by eauto.
      split; [done|]. by left.
    + subst t1. rewrite bool_decide_eq_false_2 by (by intros [? [=]]).
      intros [Hin|Hin]%elem_of_cons; [done|]. by apply (Hrest' _ Hin).
  - right; left. do 2 (split; [done|]). intros Hin. by apply (Hrest' _ Hin).
  - right; right. do 2 (split; [done|]). intros Hin. by apply (Hrest' _ Hin).
Qed.

Lemma choose_clock_inv c t k :
  choose_clock c = (t, inr k) →
  if FreeRunning c then k = FreeRunningClock
  else if String.eqb (Timestamping c) HWTIMESTAMP then NewPHC (Iface c) = inr k
  else k = SysClock.
Proof.
  unfold choose_clock. destruct (FreeRunning c).
  - intros (? & [] & ? & _ & Hk & _)%rbind_inr. by injection Hk as _ <-.
  - destruct (String.eqb _ _).
    + by intros [-> _]%lift_inr.
    + by intros [= _ <-].
Qed.

Lemma init_servo_inv c k t sk :
  init_servo c k = (t, inr sk) →
  (FrequencyPPB k).1.2 = None ∧
  sk.2 = (MaxFreqPPB (FrequencyPPB k).2).2 ∧
  sk.1 =
    NewPiServoFilter
      (let pi0 := NewPiServo (servo_config c)
                    (PrimFloat.opp (FrequencyPPB k).1.1) in
       match (MaxFreqPPB (FrequencyPPB k).2).1.2 with
       | None => SetMaxFreq pi0 (MaxFreqPPB (FrequencyPPB k).2).1.1
       | Some _ => pi0
       end).
Proof.
  unfold init_servo.
  destruct (FrequencyPPB k) as [[freq err] k1]. cbn [fst snd].
  destruct (MaxFreqPPB k1) as [[maxFreq err'] k2]. cbn [fst snd].
  intros (? & [] & ? & _ & Hi & _)%rbind_inr.
  apply rbind_inr in Hi as (? & [] & ? & _ & Hi & _).
  apply rbind_inr in Hi as (? & [] & ? & [-> _]%check_inr & Hi & _).
  apply rbind_inr in Hi as (? & [] & ? & _ & Hi & _).
  apply rbind_inr in Hi as (? & res & ? & Hres & Hi & _).
  apply rbind_inr in Hi as (? & [] & ? & _ & Hi & _).
  injection Hi as _ <-. cbn [fst snd]. split; [done|]. split; [done|].
  destruct err'.
  - apply rbind_inr in Hres as (? & [] & ? & _ & Hres & _).
    by injection Hres as _ <-.
  - apply rbind_inr in Hres as (? & [] & ? & _ & Hres & _).
    by injection Hres as _ <-.
Qed.

(** X14. The clock [init] leaves in the client is the free-running
    clock when the configuration says so, else the hardware clock of the
    interface when timestamping is configured as "hardware", and the
    system clock in every other case: in the automatic mode the system
    clock is disciplined even when hardware timestamps could be enabled.
    The servo starts from the negated frequency that clock reports, and
    [init] fails when the frequency cannot be read. *)
Theorem init_clock_choice env c t p :
  init env c = (t, inr p) →
  ∃ k,
    (if FreeRunning c then k = FreeRunningClock
     else if String.eqb (Timestamping c) HWTIMESTAMP
          then NewPHC (Iface c) = inr k
          else k = SysClock) ∧
    (FrequencyPPB k).1.2 = None ∧
    clock p = (MaxFreqPPB (FrequencyPPB k).2).2 ∧
    pi p =
      NewPiServoFilter
        (let pi0 := NewPiServo (servo_config c)
                      (PrimFloat.opp (FrequencyPPB k).1.1) in
         match (MaxFreqPPB (FrequencyPPB k).2).1.2 with
         | None => SetMaxFreq pi0 (MaxFreqPPB (FrequencyPPB k).2).1.1
         | Some _ => pi0
         end) ∧
    cfg p = c ∧ bestGM p = "" ∧ lastTick p = 0.
Proof.
  intros (hw & cid & fd & t1 & t2 & k & t3 & sk & _ & _ & _ & _ & _ & _ & _ & _
          & Hk & Hsk & _ & ->)%init_inv.
  exists k. split; [by apply (choose_clock_inv c t2)|].
  destruct (init_servo_inv _ _ _ _ Hsk) as (Hf & Hclock & Hpi).
  by cbn [clock pi cfg bestGM lastTick].
Qed.

(** ** What construction never does *)

Lemma rbind_Forall {A A'} (P : event → Prop) (m : R A) (f : A → R A') :
  Forall P m.1 → (∀ a, Forall P (f a).1) → Forall P (rbind m f).1.
Proof.
  intros Hm Hf. unfold rbind. destruct m as [t [err|a]]; [done|].
  specialize (Hf a). destruct (f a) as [t' o]. by apply Forall_app.
Qed.

Lemma add_clients_silent env (l : list (string * Z)) p :
  (add_clients env l p).1 = [].
Proof.
  revert p. induction l as [|[server prio] l IH]; intros p; [done|].
  cbn [add_clients]. unfold rbind, add_client.
  destruct (newClient env _ _) as [err|cl]; [done|]. cbn [rret].
  specialize (IH (set_backoff
                    (<[IP_String (ParseIP server)
                       := newBackoff (cfgBackoff (cfg p))]> (backoff p))
                    (set_priorities
                       (<[IP_String (ParseIP server) := prio]> (priorities p))
                       (set_clients
                          (<[IP_String (ParseIP server) := cl]> (clients p))
                          p)))).
  destruct (add_clients env l _) as [t o]. simpl in IH. by subst t.
Qed.

(** The recorded calls of [init]: log lines, and what it asks of the
    clock and the servo. *)
Lemma init_events env c :
  Forall (λ e, is_log e = true ∨ e = EvFrequencyPPB ∨ e = EvMaxFreqPPB
               ∨ is_set_max_freq e = true) (init (S := S) (K := K) (B := B) env c).1.
Proof.
  unfold init.
  repeat (apply rbind_Forall; [|intros ?]);
    try (unfold lift; constructor);
    try (unfold check, check_wrap, rfail, rret; by case_match; constructor).
  - unfold enable_timestamps, check_wrap, rlog, remit, rfail, rret, rbind.
    repeat case_match; simplify_eq; explicit_events.
  - unfold choose_clock, lift, rlog, remit, rfail, rret, rbind.
    repeat case_match; simplify_eq; explicit_events.
  - unfold init_servo.
    destruct (FrequencyPPB _) as [[freq err] k1].
    destruct (MaxFreqPPB k1) as [[maxFreq err'] k2].
    unfold check, rlog, remit, rfail, rret, rbind.
    repeat case_match; simplify_eq; cbn [fst snd app];
      repeat (apply List.Forall_cons;
              [first [by left | by (right; left) | by (right; right; left)
                     | by (right; right; right)]|]);
      apply List.Forall_nil.
Qed.

(** X15. Whether [NewSPTP] succeeds or fails, it never steps or adjusts
    the clock or sets its sync state, never samples the servo, and starts
    no exchange and no timer and makes no call of BMCA. *)
Theorem NewSPTP_no_discipline env rg c :
  Forall (λ e, is_clock_call e = false ∧ is_servo_sample e = false ∧
               is_go e = false ∧ is_timer e = false ∧ is_bmca e = false)
    (NewSPTP (S := S) (K := K) (B := B) env rg c).1.
Proof.
  assert (Forall (λ e, is_log e = true ∨ e = EvFrequencyPPB ∨ e = EvMaxFreqPPB
                       ∨ is_set_max_freq e = true)
            (NewSPTP (S := S) (K := K) (B := B) env rg c).1) as Hev.
  { unfold NewSPTP. apply rbind_Forall; [apply init_events|].
    intros p. unfold initClients. rewrite add_clients_silent. constructor. }
  eapply Forall_impl; [exact Hev|].
  intros e [Hl|[->|[->|Hm]]]; try done; by destruct e.
Qed.

(** X16. With a timestamping mode other than the empty string,
    "hardware" and "software", [init] and so [NewSPTP] fail whatever the
    system calls give, before a clock is chosen and without a log line. *)
Theorem init_unknown_timestamping env rg c :
  Timestamping c ≠ "" → Timestamping c ≠ HWTIMESTAMP →
  Timestamping c ≠ SWTIMESTAMP →
  ∃ err,
    init (S := S) (K := K) (B := B) env c = ([], inl err) ∧
    NewSPTP (S := S) (K := K) (B := B) env rg c = ([], inl err) ∧
    (∀ hw cid fd,
       InterfaceByName env (Iface c) = inr hw →
       NewClockIdentity env hw = inr cid →
       ListenUDP env PortGeneral = None → ListenUDP env PortEvent = None →
       ConnFd env = inr fd → enableDSCP env fd (DSCP c) = None →
       err = errNew "unknown type of typestamping: %q").
Proof.
  intros H1%String.eqb_neq H2%String.eqb_neq H3%String.eqb_neq.
  assert (∀ fd, enable_timestamps env c fd
                = ([], inl (errNew "unknown type of typestamping: %q"))) as Hts.
  { intros fd. unfold enable_timestamps. by rewrite H1, H2, H3. }
  unfold NewSPTP, init, rbind, lift, check, check_wrap, rfail, rret.
  destruct (InterfaceByName env (Iface c)) as [e|hw] eqn:Hif;
    [eexists; split; [done|]; split; [done|]; by intros|].
  destruct (NewClockIdentity env hw) as [e|cid] eqn:Hcid;
    [eexists; split; [done|]; split; [done|]; intros; congruence|].
  destruct (ListenUDP env PortGeneral) as [e|] eqn:Hgen;
    [eexists; split; [done|]; split; [done|]; by intros|].
  destruct (ListenUDP env PortEvent) as [e|] eqn:Hev;
    [eexists; split; [done|]; split; [done|]; by intros|].
  destruct (ConnFd env) as [e|fd] eqn:Hfd;
    [eexists; split; [done|]; split; [done|]; by intros|].
  destruct (enableDSCP env fd (DSCP c)) as [e|] eqn:Hdscp;
    [eexists; split; [done|]; split; [done|]; intros; congruence|].
  rewrite Hts. eexists; split; [done|]; split; [done|]. by intros.
Qed.

(** ** The sessions [initClients] creates *)

Lemma add_client_inv env server prio p t p' :
  add_client env server prio p = (t, inr p') →
  ∃ cl,
    newClient env (normalized server) (clockID p) = inr cl ∧
    p' = set_backoff (<[normalized server := newBackoff (cfgBackoff (cfg p))]>
                        (backoff p))
           (set_priorities (<[normalized server := prio]> (priorities p))
              (set_clients (<[normalized server := cl]> (clients p)) p)).
Proof.
  unfold add_client, normalized.
  destruct (newClient env _ _) as [err|cl]; [done|].
  intros [= _ <-]. by exists cl.
Qed.

Lemma add_clients_inv env (l : list (string * Z)) p t p' :
  add_clients env l p = (t, inr p') →
  cfg p' = cfg p ∧ clockID p' = clockID p ∧
  (∀ key, is_Some (clients p' !! key) ↔
          is_Some (clients p !! key) ∨ ∃ e, e ∈ l ∧ normalized e.1 = key) ∧
  (∀ key cl, clients p' !! key = Some cl →
             clients p !! key = Some cl ∨
             newClient env key (clockID p) = inr cl) ∧
  (∀ key b, backoff p' !! key = Some b →
            backoff p !! key = Some b ∨ b = newBackoff (cfgBackoff (cfg p))) ∧
  (∀ key prio, priorities p' !! key = Some prio →
               priorities p !! key = Some prio ∨
               ∃ server, (server, prio) ∈ l ∧ normalized server = key).
Proof.
  revert p t. induction l as [|[server prio] l IH]; intros p t.
  - simpl. intros [= _ <-]. split; [done|]. split; [done|].
    split; [|by auto]. intros key. split; [by left|].
    intros [?|(e & Hin & _)]; [done|]. by apply elem_of_nil in Hin.
  - cbn [add_clients]. intros (t1 & p1 & t2 & H1 & H2 & _)%rbind_inr.
    apply add_client_inv in H1 as (cl & Hnew & ->).
    apply IH in H2 as (Hcfg & Hid & Hdom & Hcl & Hb & Hprio).
    cbn [cfg clockID clients backoff priorities set_backoff set_priorities
         set_clients] in *.
    split; [done|]. split; [done|]. split; [|split; [|split]].
    + intros key. rewrite Hdom. split.
      * intros [Hin|(e & Hin & He)].
        -- destruct (decide (normalized server = key)) as [<-|Hne].
           ++ right. exists (server, prio). split; [left|done].
           ++ left. by rewrite lookup_insert_ne in Hin.
        -- right. exists e. split; [by right|done].
      * intros [Hin|(e & [->|Hin]%elem_of_cons & He)].
        -- left. destruct (decide (normalized server = key)) as [<-|Hne].
           ++ rewrite lookup_insert_eq. eauto.
           ++ by rewrite lookup_insert_ne.
        -- left. simpl in He. subst key. rewrite lookup_insert_eq. eauto.
        -- right. by exists e.
    + intros key cl' [Hin|Hin]%Hcl; [|by right].
      destruct (decide (normalized server = key)) as [<-|Hne].
      * rewrite lookup_insert_eq in Hin. injection Hin as <-. by right.
      * rewrite lookup_insert_ne in Hin by done. by left.
    + intros key b [Hin|Hin]%Hb; [|by right].
      destruct (decide (normalized server = key)) as [<-|Hne].
      * rewrite lookup_insert_eq in Hin. injection Hin as <-. by right.
      * rewrite lookup_insert_ne in Hin by done. by left.
    + intros key prio' [Hin|(server' & Hin & He)]%Hprio.
      * destruct (decide (normalized server = key)) as [<-|Hne].
        -- rewrite lookup_insert_eq in Hin. injection Hin as <-.
           right. exists server. split; [left|done].
        -- rewrite lookup_insert_ne in Hin by done. by left.
      * right. exists server'. split; [by right|done].
Qed.

(** X17. A client [NewSPTP] returns has the given configuration, no
    selected master and no previous tick.  Its sessions are stored under
    the normalised addresses of the configured servers and under no other
    key, each made by [newClient] for that address and the clock identity
    of the interface; every session has a fresh backoff built from the
    configured backoff settings and a priority, which is the priority
    configured for a server with that normalised address. *)
Theorem NewSPTP_sessions env rg c t p :
  NewSPTP env rg c = (t, inr p) →
  cfg p = c ∧ bestGM p = "" ∧ lastTick p = 0 ∧ peers_ok p ∧
  (∀ key, is_Some (clients p !! key) ↔
          ∃ server, is_Some (Servers c !! server) ∧ normalized server = key) ∧
  (∀ key cl, clients p !! key = Some cl →
             newClient env key (clockID p) = inr cl) ∧
  (∀ key b, backoff p !! key = Some b → b = newBackoff (cfgBackoff c)) ∧
  (∀ key prio, priorities p !! key = Some prio →
               ∃ server, Servers c !! server = Some prio ∧
                         normalized server = key).
Proof.
  intros Hnew. destruct (NewSPTP_ok _ _ _ _ _ Hnew) as (Hok & Hl & Hg).
  unfold NewSPTP in Hnew.
  apply rbind_inr in Hnew as (t1 & p0 & t2 & Hinit & Hcl & _).
  apply init_inv in Hinit
    as (hw & cid & fd & ? & ? & k & ? & sk & _ & _ & _ & _ & _ & _ & _ & _
        & _ & _ & _ & ->).
  unfold initClients in Hcl.
  apply add_clients_inv in Hcl as (Hcfg & Hid & Hdom & Hcls & Hb & Hprio).
  cbn [cfg clockID clients backoff priorities set_backoff set_priorities
       set_clients] in *.
  split; [done|]. split; [done|]. split; [done|]. split; [done|].
  split; [|split; [|split]].
  - intros key. rewrite Hdom. split.
    + intros [[? Hin]|((server & prio) & Hin%range_elem & He)]; [done|].
      exists server. split; [eauto|done].
    + intros (server & [prio Hin] & He). right. exists (server, prio).
      split; [by apply range_elem|done].
  - intros key cl [Hin|Hin]%Hcls; [done|]. by rewrite Hid.
  - by intros key b [Hin|Hin]%Hb.
  - intros key prio [Hin|(server & Hin%range_elem & He)]%Hprio; [done|].
    by exists server.
Qed.

Lemma add_clients_result env (l : list (string * Z)) p :
  match (add_clients env l p).2 with
  | inr p' =>
      ∀ server prio, (server, prio) ∈ l →
        ∃ cl, newClient env (normalized server) (clockID p) = inr cl
  | inl e =>
      ∃ server prio err,
        (server, prio) ∈ l ∧
        newClient env (normalized server) (clockID p) = inl err ∧
        e = errWrap "initializing client %q: %w" err
  end.
Proof.
  revert p. induction l as [|[server prio] l IH]; intros p.
  - simpl. intros ?? Hin. by apply elem_of_nil in Hin.
  - cbn [add_clients]. unfold rbind.
    destruct (add_client env server prio p) as [t1 [e|p1]] eqn:H1.
    + cbn [snd]. unfold add_client in H1. fold (normalized server) in H1.
      destruct (newClient env (normalized server) (clockID p)) as [err|cl]
        eqn:Hnew; [|done].
      injection H1 as _ <-. exists server, prio, err. split; [left|done].
    + pose proof H1 as H1'.
      apply add_client_inv in H1' as (cl & Hnew & Hp1).
      assert (clockID p1 = clockID p) as Hid by (by subst p1).
      specialize (IH p1). rewrite Hid in IH.
      destruct (add_clients env l p1) as [t2 [e|p2]]; cbn [snd] in *.
      * destruct IH as (server' & prio' & err & Hin & Hfail & ->).
        exists server', prio', err. split; [by right|done].
      * intros server' prio' [[= -> ->]|Hin]%elem_of_cons; [eauto|].
        by apply (IH server' prio').
Qed.

(** X18. [NewSPTP] fails with the error of [init] when [init] fails.
    When [init] succeeds it succeeds exactly when a session can be made
    for every configured server, and otherwise returns the error of a
    [newClient] that failed, wrapped as "initializing client"; in both
    cases it logs nothing beyond what [init] logged. *)
Theorem NewSPTP_client_errors env rg c :
  (NewSPTP (S := S) (K := K) (B := B) env rg c).1
    = (init (S := S) (K := K) (B := B) env c).1 ∧
  match (init (S := S) (K := K) (B := B) env c).2 with
  | inl e => (NewSPTP (S := S) (K := K) (B := B) env rg c).2 = inl e
  | inr p0 =>
      match (NewSPTP (S := S) (K := K) (B := B) env rg c).2 with
      | inr p =>
          ∀ server, is_Some (Servers c !! server) →
            ∃ cl, newClient env (normalized server) (clockID p0) = inr cl
      | inl e =>
          ∃ server err,
            is_Some (Servers c !! server) ∧
            newClient env (normalized server) (clockID p0) = inl err ∧
            e = errWrap "initializing client %q: %w" err
      end
  end.
Proof.
  unfold NewSPTP, rbind.
  destruct (init (S := S) (K := K) (B := B) env c) as [t [e|p0]] eqn:Hinit;
    [done|].
  cbn [fst snd]. unfold initClients.
  pose proof (add_clients_silent env (range rg _ (Servers (cfg p0)))
                (set_backoff ∅ (set_priorities ∅ (set_clients ∅ p0)))) as Hsil.
  pose proof (add_clients_result env (range rg _ (Servers (cfg p0)))
                (set_backoff ∅ (set_priorities ∅ (set_clients ∅ p0)))) as Hres.
  assert (cfg p0 = c) as Hcfg.
  { apply init_inv in Hinit
      as (? & ? & ? & ? & ? & ? & ? & ? & _ & _ & _ & _ & _ & _ & _ & _ & _
          & _ & _ & ->). done. }
  rewrite Hcfg in *.
  destruct (add_clients env _ _) as [t2 [e|p]]; cbn [fst snd] in *; subst t2.
  - split; [by rewrite app_nil_r|].
    destruct Hres as (server & prio & err & Hin%range_elem & Hfail & ->).
    exists server, err. split; [eauto|done].
  - split; [by rewrite app_nil_r|].
    intros server [prio Hin]. apply (Hres server prio). by apply range_elem.
Qed.

(** ** Reported failures *)

Lemma aggregate_result_errors addr res acc p b :
  backoff p !! addr = Some b →
  List.filter is_result_error (aggregate_result addr res acc p).1 =
  (λ _, EvLog LError "result %s: %+v") <$> failed [(addr, res)].
Proof.
  intros Hb.
  unfold aggregate_result, handleExchangeError, backoff_at, store_backoff, bind,
    get, when, log, emit, modify, ret, panic, failed. simpl.
  destruct (Error res) as [err|]; simpl.
  - destruct (errors_Is_errBackoff err); simpl; rewrite Hb; simpl;
      try destruct (negb _); done.
  - rewrite Hb. simpl. destruct (Measurement res); done.
Qed.

Lemma aggregate_loop_errors (l : list (string * RunResult)) acc p :
  (∀ a r, (a, r) ∈ l → is_Some (backoff p !! a)) →
  List.filter is_result_error (for_range l aggregate_result acc p).1 =
  (λ _, EvLog LError "result %s: %+v") <$> failed l.
Proof.
  revert acc p. induction l as [|[a r] l IH]; intros acc p Hdom; [done|].
  destruct (Hdom a r) as [b Hb]; [left|].
  cbn [for_range]. rewrite bind_run.
  pose proof (aggregate_result_done a r acc p b Hb) as Hstep.
  pose proof (aggregate_result_errors a r acc p b Hb) as Herr.
  destruct (aggregate_result a r acc p) as [t o]. simpl in Hstep, Herr.
  subst o. cbn [fst snd]. rewrite List.filter_app, Herr, IH.
  - unfold failed. cbn [omap list_omap fst snd].
    destruct (Error r) as [err|]; [|done].
    by destruct (errors_Is_errBackoff err).
  - intros a' r' Hin. simpl.
    rewrite <- (backoff_step_insert _ _ r _ Hb), backoff_step_dom.
    apply (Hdom a' r'). by right.
Qed.

Lemma discipline_errors bm p :
  List.filter is_result_error (discipline bm p).1 = [].
Proof.
  destruct (Sample (pi p) (Offset bm) (uint64 (UnixNano (Timestamp bm))))
    as [[freqAdj st] pi'] eqn:Hs.
  assert (∀ err format,
            String.eqb format "result %s: %+v" = false →
            List.filter is_result_error (error_log err format) = []) as Herr.
  { intros err format Hf. unfold error_log.
    destruct (bool_decide _); [|done]. simpl. by rewrite Hf. }
  destruct st.
  - by rewrite (discipline_other _ _ _ _ _ Hs).
  - rewrite (discipline_jump _ _ _ _ Hs). cbn [fst].
    by rewrite List.filter_app, Herr.
  - rewrite (discipline_locked _ _ _ _ Hs). cbn [fst].
    rewrite !List.filter_app, Herr by done.
    destruct (isSysClock _); [|done].
    cbn [List.filter is_result_error app]. by rewrite Herr.
  - by rewrite (discipline_other _ _ _ _ _ Hs).
Qed.

Lemma select_master_errors results acc p :
  List.filter is_result_error (select_master results acc p).1 = [].
Proof.
  unfold select_master. rewrite bind_run. cbn [emit fst snd].
  destruct (bmca (announces acc) (localPrioMap acc)) as [best|].
  - destruct (results !! _) as [r|]; [|done].
    destruct (Measurement r) as [bm|]; [|done].
    rewrite bind_run. cbn [get fst snd]. rewrite bind_run.
    destruct (negb (String.eqb (bestGM p) _)); cbn [when].
    + rewrite bind_run. cbn [log emit fst snd]. cbn [modify fst snd].
      rewrite bind_run. cbn [log emit fst snd].
      rewrite !List.filter_app, discipline_errors. done.
    + cbn [ret fst snd]. rewrite bind_run. cbn [log emit fst snd].
      rewrite !List.filter_app, discipline_errors. done.
  - rewrite bind_run. cbn [log emit modify fst snd]. done.
Qed.

(** X19. A tick logs the Error line "result %s: %+v" once for every
    peer whose exchange failed, and for no other: a peer that was
    suppressed in this tick is not reported as failed. *)
Theorem tick_reported_failures ti p :
  peers_ok p →
  List.filter is_result_error (runInternal_tick ti p).1 =
  (λ _, EvLog LError "result %s: %+v")
    <$> failed (range (range_of ti) _ (fan_out_results ti p)) ∧
  length (failed (range (range_of ti) _ (fan_out_results ti p)))
    = length (failed (map_to_list (fan_out_results ti p))) ∧
  ∀ addr, addr ∈ failed (map_to_list (fan_out_results ti p)) ↔
          ∃ c b err,
            clients p !! addr = Some c ∧ backoff p !! addr = Some b ∧
            active b = false ∧
            Error (RunOnce ti c (ExchangeTimeout (cfg p))) = Some err ∧
            errors_Is_errBackoff err = false.
Proof.
  intros Hok. pose proof (fan_out_cover ti p Hok) as Hc. split; [|split].
  - rewrite (tick_run _ _ Hok). cbn [fst].
    rewrite (processResults_run _ _ _ _ Hc). cbn [fst].
    rewrite !List.filter_app.
    rewrite (filter_none _ _ _ (fan_out_events ti p)) by (by intros []).
    assert (List.filter is_result_error (record_tick (now_at ti) p).1 = [])
      as ->.
    { unfold record_tick, bind, get, when, log, emit, modify, ret. simpl.
      destruct (negb (IsZero (lastTick p))); simpl; [|done].
      destruct (_ || _); done. }
    rewrite select_master_errors.
    cbn [List.filter is_result_error app]. rewrite !app_nil_r.
    unfold aggregate_all. apply aggregate_loop_errors.
    intros a r Hin. by apply (backoffs_cover_range p (range_of ti) _ Hc a r).
  - unfold failed. apply Permutation_length, omap_Permutation, range_perm.
  - intros addr. unfold failed. rewrite list_elem_of_omap. split.
    + intros ([a r] & Hin%elem_of_map_to_list & Hf). simpl in Hf.
      destruct (Error r) as [err|] eqn:He; [|done].
      destruct (errors_Is_errBackoff err) eqn:Hs; [done|].
      injection Hf as ->. rewrite fan_out_results_lookup in Hin.
      destruct (clients p !! addr) as [c|]; [|done].
      destruct (backoff p !! addr) as [b|]; [|done].
      injection Hin as <-. unfold exchange_result in He.
      destruct (active b) eqn:Ha.
      * simpl in He. injection He as <-. done.
      * by exists c, b, err.
    + intros (c & b & err & Hcl & Hb & Ha & He & Hs).
      exists (addr, RunOnce ti c (ExchangeTimeout (cfg p))). split.
      * apply elem_of_map_to_list. rewrite fan_out_results_lookup, Hcl, Hb.
        cbn [fmap option_fmap option_map]. unfold exchange_result.
        by rewrite Ha.
      * simpl. by rewrite He, Hs.
Qed.

(** ** The order in which the maps are ranged over *)

Lemma backoff_loop_lookup rg (results : gmap string RunResult)
    (bk : gmap string B) a :
  foldl backoff_step bk (range rg _ results) !! a =
  match results !! a with
  | Some r => backoff_update r <$> bk !! a
  | None => bk !! a
  end.
Proof.
  destruct (results !! a) as [r|] eqn:Hr.
  - destruct (bk !! a) as [b|] eqn:Hb.
    + apply backoff_loop_at; [apply range_NoDup|by apply range_elem|done].
    + apply not_elem_of_dom. rewrite backoff_loop_dom.
      by apply not_elem_of_dom.
  - apply backoff_loop_other. by apply range_fresh.
Qed.

Lemma fan_out_trace ti p :
  peers_ok p →
  (fan_out ti p).1 =
  omap (λ e : string * Client,
          match backoff p !! e.1 with
          | Some b =>
              if active b then None
              else Some (EvGoRunOnce e.1 (ExchangeTimeout (cfg p)))
          | None => None
          end) (range (range_of ti) _ (clients p)).
Proof.
  intros Hok. unfold fan_out. rewrite bind_run. cbn [get fst snd app].
  assert (∀ a c, (a, c) ∈ range (range_of ti) _ (clients p) →
                 is_Some (backoff p !! a)) as Hdom.
  { intros a c Hin%range_elem. by apply (peers_ok_cover p a c). }
  generalize (∅ : gmap string RunResult).
  induction (range (range_of ti) _ (clients p)) as [|[a c] l IH]; intros acc;
    [done|].
  destruct (Hdom a c) as [b Hb]; [left|].
  cbn [for_range omap list_omap fst]. rewrite bind_run.
  rewrite (spawn_run _ _ _ _ _ _ Hb), Hb. cbn [fst snd].
  rewrite IH; [by destruct (active b)|].
  intros a' c' Hin. apply (Hdom a' c'). by right.
Qed.

Lemma fan_out_results_ext ti ti' p :
  (∀ c d, RunOnce ti c d = RunOnce ti' c d) →
  fan_out_results ti p = fan_out_results ti' p.
Proof.
  intros Hrun. apply map_eq. intros a. rewrite !fan_out_results_lookup.
  destruct (clients p !! a) as [c|]; [|done].
  destruct (backoff p !! a) as [b|]; [|done].
  cbn [fmap option_fmap option_map]. unfold exchange_result.
  by rewrite Hrun.
Qed.

(** X20. The order in which a tick ranges over the sessions and over
    the results has no influence on the peers it contacts, on the
    statistics it publishes per peer, or on the backoffs it leaves: two
    ticks on the same client in which every exchange gives the same
    result start the same exchanges and publish the same statistics, up
    to their order, and end with the same backoff for every peer. *)
Theorem tick_order_independent ti ti' p :
  bmca_sound → peers_ok p →
  (∀ c d, RunOnce ti c d = RunOnce ti' c d) →
  ∃ t p1 t' p2,
    runInternal_tick ti p = (t, Done tt p1) ∧
    runInternal_tick ti' p = (t', Done tt p2) ∧
    backoff p1 = backoff p2 ∧
    List.filter is_go t ≡ₚ List.filter is_go t' ∧
    List.filter is_gm_stats t ≡ₚ List.filter is_gm_stats t'.
Proof.
  intros Hsound Hok Hrun.
  destruct (tick_state ti p Hsound Hok) as (s & k & Hst & _).
  destruct (tick_state ti' p Hsound Hok) as (s' & k' & Hst' & _).
  pose proof (tick_run ti p Hok) as Ht.
  pose proof (tick_run ti' p Hok) as Ht'.
  pose proof (fan_out_cover ti p Hok) as Hc.
  pose proof (fan_out_cover ti' p Hok) as Hc'.
  destruct (runInternal_tick ti p) as [t o].
  destruct (runInternal_tick ti' p) as [t' o'].
  cbn [fst snd] in *. subst o o'.
  injection Ht as Ht _. injection Ht' as Ht' _.
  eexists t, _, t', _. split; [reflexivity|]. split; [reflexivity|].
  rewrite <- (fan_out_results_ext ti ti' p Hrun) in *.
  split; [|split].
  - cbn [backoff set_clock set_pi set_bestGM aggregated set_backoff].
    apply map_eq. intros a. by rewrite !backoff_loop_lookup.
  - assert (∀ ti0 t0,
              t0 = (fan_out ti0 p).1
                   ++ (processResults (range_of ti0) (now_at ti0)
                         (fan_out_results ti p) p).1 →
              backoffs_cover p (fan_out_results ti p) →
              List.filter is_go t0 = (fan_out ti0 p).1) as Hgo.
    { intros ti0 t0 -> Hc0. rewrite List.filter_app.
      rewrite (processResults_run _ _ _ _ Hc0). cbn [fst].
      rewrite !List.filter_app.
      rewrite (filter_none _ _ _ (record_tick_events _ p)) by (by intros []).
      rewrite (filter_none _ _ _ (select_master_events _ _ _))
        by (by intros []).
      unfold aggregate_all.
      rewrite (filter_none _ _ _ (aggregate_loop_events _ _ _))
        by (by intros []).
      cbn [List.filter is_go app]. rewrite app_nil_r.
      pose proof (fan_out_events ti0 p) as Hev.
      induction Hev as [|e l He Hl IH]; [done|].
      cbn [List.filter]. rewrite He. by f_equal. }
    rewrite (Hgo ti t Ht Hc), (Hgo ti' t' Ht' Hc).
    rewrite !fan_out_trace by done.
    apply omap_Permutation. by rewrite !range_perm.
  - rewrite Ht, Ht', !List.filter_app.
    rewrite !(filter_none is_gm_stats _ _ (fan_out_events _ p))
      by (by intros []).
    rewrite !processResults_stats by done.
    apply fmap_Permutation. by rewrite !range_perm.
Qed.

(** ** Deciding the assumptions on a given client *)

Lemma all_active_dec p :
  bool_decide (map_Forall (λ _ b, active b = true) (backoff p)) = true →
  ∀ addr b, backoff p !! addr = Some b → active b = true.
Proof. by intros Hall%bool_decide_eq_true. Qed.

End Coverage.

(** * Further statements on the concrete client *)

Lemma late_ok : peers_ok Demo.late.
Proof. split; vm_compute; reflexivity. Qed.

Lemma one_suppressed_ok : peers_ok Demo.one_suppressed.
Proof. split; vm_compute; reflexivity. Qed.

Lemma all_suppressed_ok : peers_ok Demo.all_suppressed.
Proof. split; vm_compute; reflexivity. Qed.

(** A tick 1.2 s after the previous one, with an interval of 1 s, warns
    and publishes the duration. *)
Lemma tick_duration_window_witness :
  List.filter is_tick_report
    (runInternal_tick Demo.tick_one_answers Demo.late).1
  = [EvLog LWarning
       "tick took %vms, which is outside of expected +-10%% from the interval %vms";
     EvSetCounter "ptp.sptp.tick_duration_ns" 1200000000].
Proof.
  assert (lastTick Demo.late ≠ 0) as Hz by (vm_compute; discriminate).
  assert (min_int64 ≤ 110 * Interval (cfg Demo.late) ≤ max_int64) as Hi
    by (vm_compute; split; discriminate).
  assert (min_int64
          ≤ 100 * (now_at Demo.tick_one_answers - lastTick Demo.late)
          ≤ max_int64) as Hd by (vm_compute; split; discriminate).
  rewrite (tick_duration_window Demo.tick_one_answers Demo.late late_ok Hz Hi
             Hd).
  vm_compute. reflexivity.
Defined.

(** The statistics of the tick in which the first peer answers: one
    record per peer, none of them selected before. *)
Lemma tick_gm_stats_witness :
  List.filter is_gm_stats
    (runInternal_tick Demo.tick_one_answers Demo.client2).1
  = [EvSetGMStats
       (mkStats "10.0.0.1" (Demo.answered "10.0.0.1" 101 500) 1 false);
     EvSetGMStats (mkStats "10.0.0.2" (Demo.timed_out "10.0.0.2") 2 false)].
Proof.
  destruct (tick_gm_stats Demo.tick_one_answers Demo.client2 client2_ok)
    as [Hstats _].
  rewrite Hstats. vm_compute. reflexivity.
Defined.

(** The peer that answers becomes the selected master, with the warning
    about a new best master. *)
Lemma tick_best_master_witness :
  ∃ t p',
    runInternal_tick Demo.tick_one_answers Demo.client2 = (t, Done tt p') ∧
    bestGM p' = "10.0.0.1" ∧
    List.filter is_new_master t
      = [EvLog LWarning "new best master selected: %q (%s)"].
Proof.
  assert (best_address Demo.client2 (range_of Demo.tick_one_answers)
            (fan_out_results Demo.tick_one_answers Demo.client2)
          = Some "10.0.0.1") as Hbest by (vm_compute; reflexivity).
  destruct (tick_best_master Demo.tick_one_answers Demo.client2
              select_best_sound client2_ok) as (t & p' & Ht & Hm).
  rewrite Hbest in Hm. destruct Hm as (Hgm & _ & Hlog).
  exists t, p'. split; [exact Ht|]. split; [exact Hgm|].
  rewrite Hlog. vm_compute. reflexivity.
Defined.

(** The suppressed second peer is not contacted and its backoff counts
    down from 1 to 0. *)
Lemma tick_suppressed_witness :
  ∃ t p',
    runInternal_tick Demo.tick_one_answers Demo.one_suppressed
      = (t, Done tt p') ∧
    List.filter (is_exchange "10.0.0.2") t = [] ∧
    List.filter (is_backoff_call "10.0.0.2") t = [EvBackoffTick "10.0.0.2"] ∧
    backoff p' !! "10.0.0.2" = Some (Demo.mkBackoff 1 0).
Proof.
  assert (clients Demo.one_suppressed !! "10.0.0.2"
          = Some (mkClient "10.0.0.2" [])) as Hc by (vm_compute; reflexivity).
  assert (backoff Demo.one_suppressed !! "10.0.0.2"
          = Some (Demo.mkBackoff 1 1)) as Hb by (vm_compute; reflexivity).
  assert (active (Demo.mkBackoff 1 1) = true) as Ha
    by (vm_compute; reflexivity).
  destruct (tick_suppressed Demo.tick_one_answers Demo.one_suppressed
              "10.0.0.2" (mkClient "10.0.0.2" []) (Demo.mkBackoff 1 1)
              select_best_sound one_suppressed_ok Hc Hb Ha)
    as (t & p' & Ht & Hex & _ & Hcalls & Hb').
  exists t, p'. split; [exact Ht|]. split; [exact Hex|].
  split; [exact Hcalls|]. rewrite Hb'. vm_compute. reflexivity.
Defined.

(** With both peers in backoff nothing is started and nobody is
    selected. *)
Lemma tick_all_suppressed_witness :
  ∃ t p',
    runInternal_tick Demo.tick_one_answers Demo.all_suppressed
      = (t, Done tt p') ∧
    List.filter is_go t = [] ∧
    List.filter is_bmca t = [EvBMCA [] ∅] ∧
    bestGM p' = "".
Proof.
  assert (∀ addr b, backoff Demo.all_suppressed !! addr = Some b →
                    active b = true) as Hall.
  { apply all_active_dec. vm_compute. reflexivity. }
  destruct (tick_all_suppressed Demo.tick_one_answers Demo.all_suppressed
              select_best_sound all_suppressed_ok Hall)
    as (t & p' & Ht & Hgo & Hbmca & _ & Hgm & _).
  exists t, p'. split; [exact Ht|]. split; [exact Hgo|].
  split; [exact Hbmca|exact Hgm].
Defined.

(** With a result for the first peer only, the backoff of the second
    peer is left alone. *)
Lemma processResults_frame_witness :
  ∃ t p',
    processResults Demo.in_order 5
      {["10.0.0.1" := Demo.answered "10.0.0.1" 101 500]} Demo.client2
      = (t, Done tt p') ∧
    lastTick p' = 5 ∧
    List.filter (is_backoff_call "10.0.0.2") t = [] ∧
    backoff p' !! "10.0.0.2" = Some (Demo.mkBackoff 0 0).
Proof.
  assert (backoffs_cover Demo.client2
            {["10.0.0.1" := Demo.answered "10.0.0.1" 101 500]}) as Hc.
  { apply backoffs_cover_dec. vm_compute. reflexivity. }
  assert (({["10.0.0.1" := Demo.answered "10.0.0.1" 101 500]}
             : gmap string RunResult) !! "10.0.0.2" = None) as Hnone
    by (vm_compute; reflexivity).
  destruct (processResults_frame Demo.in_order 5
              {["10.0.0.1" := Demo.answered "10.0.0.1" 101 500]} Demo.client2
              select_best_sound Hc) as (t & p' & Ht & _ & Hl & Hrest).
  destruct (Hrest "10.0.0.2" Hnone) as [Hb Hcalls].
  exists t, p'. split; [exact Ht|]. split; [exact Hl|].
  split; [exact Hcalls|]. rewrite Hb. vm_compute. reflexivity.
Defined.

(** One of two peers answers: 50 percent. *)
Lemma tick_availability_witness :
  List.filter (is_counter "ptp.sptp.gms.total")
    (runInternal_tick Demo.tick_one_answers Demo.client2).1
    = [EvSetCounter "ptp.sptp.gms.total" 2] ∧
  List.filter (is_counter "ptp.sptp.gms.available_pct")
    (runInternal_tick Demo.tick_one_answers Demo.client2).1
    = [EvSetCounter "ptp.sptp.gms.available_pct" 50].
Proof.
  assert (size (clients Demo.client2) < 50)%nat as Hsize
    by (vm_compute; lia).
  pose proof (tick_availability Demo.tick_one_answers Demo.client2 client2_ok
                Hsize) as Hw.
  cbv zeta in Hw. destruct Hw as (Htot & Hpct & _).
  split.
  - rewrite Htot. vm_compute. reflexivity.
  - rewrite Hpct. vm_compute. reflexivity.
Defined.

(** A tick, the cancellation, and a timer that fires too late. *)
Lemma runInternal_returns_witness :
  ∃ t p',
    runInternal
      [timerC Demo.tick_one_answers; ctxDone (errNew "context canceled");
       timerC Demo.tick_none_answers] Demo.client2
    = (t, Done (Some (errNew "context canceled")) p') ∧
    clients p' = clients Demo.client2.
Proof.
  destruct (runInternal_returns
              [timerC Demo.tick_one_answers;
               ctxDone (errNew "context canceled");
               timerC Demo.tick_none_answers] Demo.client2
              select_best_sound client2_ok)
    as [(t & p' & Hrun & (_ & Hcl & _) & _) _].
  exists t, p'. split; [exact Hrun|exact Hcl].
Defined.

(** [init] on the interface "eth0" with hardware timestamps. *)
Lemma init_eth0 :
  init Demo.env (Demo.config "eth0" "hardware" Demo.two_peers)
  = ((init (S := Demo.PiServo) (K := Demo.clock) (B := Demo.backoff) Demo.env
        (Demo.config "eth0" "hardware" Demo.two_peers)).1,
     inr (set_backoff ∅ (set_priorities ∅ (set_clients ∅ Demo.client2)))).
Proof. vm_compute. reflexivity. Qed.

Lemma init_requirements_witness :
  ∃ hw fd,
    InterfaceByName Demo.env "eth0" = inr hw ∧
    ConnFd Demo.env = inr fd ∧
    SetNonblock Demo.env fd = None.
Proof.
  destruct (init_requirements Demo.env
              (Demo.config "eth0" "hardware" Demo.two_peers) _ _ init_eth0)
    as (hw & fd & Hif & _ & _ & _ & Hfd & _ & Hnb & _).
  exists hw, fd. split; [exact Hif|]. split; [exact Hfd|exact Hnb].
Defined.

Lemma init_clock_choice_witness :
  ∃ k : Demo.clock,
    NewPHC "eth0" = inr k ∧
    (FrequencyPPB k).1.2 = None ∧
    clock (set_backoff ∅ (set_priorities ∅ (set_clients ∅ Demo.client2)))
      = (MaxFreqPPB (FrequencyPPB k).2).2.
Proof.
  destruct (init_clock_choice Demo.env
              (Demo.config "eth0" "hardware" Demo.two_peers) _ _ init_eth0)
    as (k & Hk & Hf & Hclock & _).
  exists k. split; [exact Hk|]. split; [exact Hf|exact Hclock].
Defined.

(** A timestamping mode nobody knows. *)
Lemma init_unknown_timestamping_witness :
  ∃ err,
    NewSPTP (S := Demo.PiServo) (K := Demo.clock) (B := Demo.backoff) Demo.env
      Demo.in_order (Demo.config "eth0" "ptp4l" Demo.two_peers)
    = ([], inl err).
Proof.
  assert (Timestamping (Demo.config "eth0" "ptp4l" Demo.two_peers) ≠ "")
    as H1 by (vm_compute; discriminate).
  assert (Timestamping (Demo.config "eth0" "ptp4l" Demo.two_peers)
          ≠ HWTIMESTAMP) as H2 by (vm_compute; discriminate).
  assert (Timestamping (Demo.config "eth0" "ptp4l" Demo.two_peers)
          ≠ SWTIMESTAMP) as H3 by (vm_compute; discriminate).
  destruct (init_unknown_timestamping (S := Demo.PiServo) (K := Demo.clock)
              (B := Demo.backoff) Demo.env Demo.in_order
              (Demo.config "eth0" "ptp4l" Demo.two_peers) H1 H2 H3)
    as (err & _ & Hnew & _).
  exists err. exact Hnew.
Defined.

(** [NewSPTP] for the two peers makes the client [Demo.client2]. *)
Lemma NewSPTP_eth0 :
  NewSPTP Demo.env Demo.in_order
    (Demo.config "eth0" "hardware" Demo.two_peers)
  = ((NewSPTP (S := Demo.PiServo) (K := Demo.clock) (B := Demo.backoff)
        Demo.env Demo.in_order
        (Demo.config "eth0" "hardware" Demo.two_peers)).1,
     inr Demo.client2).
Proof. vm_compute. reflexivity. Qed.

Lemma NewSPTP_sessions_witness :
  peers_ok Demo.client2 ∧
  (∀ key, is_Some (clients Demo.client2 !! key) ↔
          ∃ server,
            is_Some (Servers (Demo.config "eth0" "hardware" Demo.two_peers)
                       !! server) ∧
            normalized server = key) ∧
  (∀ key b, backoff Demo.client2 !! key = Some b →
            b = newBackoff
                  (cfgBackoff (Demo.config "eth0" "hardware" Demo.two_peers))).
Proof.
  destruct (NewSPTP_sessions Demo.env Demo.in_order
              (Demo.config "eth0" "hardware" Demo.two_peers) _ _ NewSPTP_eth0)
    as (_ & _ & _ & Hok & Hdom & _ & Hb & _).
  split; [exact Hok|]. split; [exact Hdom|exact Hb].
Defined.

(** The peer that timed out is reported, once. *)
Lemma tick_reported_failures_witness :
  List.filter is_result_error
    (runInternal_tick Demo.tick_one_answers Demo.client2).1
  = [EvLog LError "result %s: %+v"].
Proof.
  destruct (tick_reported_failures Demo.tick_one_answers Demo.client2
              client2_ok) as (Hlog & _ & _).
  rewrite Hlog. vm_compute. reflexivity.
Defined.

(** The same tick with the maps ranged over in the other order. *)
Lemma tick_order_independent_witness :
  ∃ t p1 t' p2,
    runInternal_tick Demo.tick_one_answers Demo.client2 = (t, Done tt p1) ∧
    runInternal_tick Demo.tick_reversed Demo.client2 = (t', Done tt p2) ∧
    backoff p1 = backoff p2 ∧
    List.filter is_go t ≡ₚ List.filter is_go t'.
Proof.
  destruct (tick_order_independent Demo.tick_one_answers Demo.tick_reversed
              Demo.client2 select_best_sound client2_ok
              (λ c d, eq_refl))
    as (t & p1 & t' & p2 & Ht & Ht' & Hb & Hgo & _).
  exists t, p1, t', p2. split; [exact Ht|]. split; [exact Ht'|].
  split; [exact Hb|exact Hgo].
Defined.

(** The two orders do differ: the exchanges are started in opposite
    order. *)
Example reversed_order :
  List.filter is_go (runInternal_tick Demo.tick_one_answers Demo.client2).1
  = reverse
      (List.filter is_go (runInternal_tick Demo.tick_reversed Demo.client2).1) ∧
  length
    (List.filter is_go (runInternal_tick Demo.tick_one_answers Demo.client2).1)
  = 2%nat.
Proof. vm_compute. split; reflexivity. Qed.

Lemma arrivals_handled : Forall (λ a, stops a = None) Demo.arrivals.
Proof. repeat constructor. Qed.

(** The two datagrams of the first peer are queued in the order of
    arrival, the one from the general port without timestamp. *)
Lemma RunListener_queues_witness :
  ∃ t p',
    RunListener Demo.arrivals Demo.client2 = (t, Done None p') ∧
    clients p' !! "10.0.0.1"
      = Some (mkClient "10.0.0.1" [mkInPacket [1; 2] 0; mkInPacket [4; 5] 78]).
Proof.
  destruct (RunListener_queues Demo.arrivals Demo.client2 "10.0.0.1"
              arrivals_handled) as (t & p' & Hrun & Hq).
  exists t, p'. split; [exact Hrun|]. rewrite Hq. vm_compute. reflexivity.
Defined.

(** The stranger's datagram is not sent. *)
Lemma RunListener_sends_witness :
  List.filter is_send (RunListener Demo.arrivals Demo.client2).1
  = [EvSend "10.0.0.1" (mkInPacket [1; 2] 0);
     EvSend "10.0.0.1" (mkInPacket [4; 5] 78)].
Proof.
  rewrite (RunListener_sends Demo.arrivals Demo.client2 arrivals_handled).
  vm_compute. reflexivity.
Defined.

(** The listener ends with the error of the context. *)
Example listener_cancelled :
  (RunListener (Demo.arrivals ++ [listenerDone (errNew "context canceled")])
     Demo.client2).2
  = Done (Some (errNew "context canceled"))
      (set_clients
         (<["10.0.0.1"
            := mkClient "10.0.0.1" [mkInPacket [1; 2] 0; mkInPacket [4; 5] 78]]>
            (clients Demo.client2)) Demo.client2).
Proof. vm_compute. reflexivity. Qed.

(** [NewSPTP] when no session can be made for the second peer. *)
Example refused_session :
  (NewSPTP (S := Demo.PiServo) (K := Demo.clock) (B := Demo.backoff)
     Demo.env_refusing Demo.in_order
     (Demo.config "eth0" "hardware" Demo.two_peers)).2
  = inl (errWrap "initializing client %q: %w" (errNew "connection refused")).
Proof. vm_compute. reflexivity. Qed.
